(** * IPESPE-CONCATENAR: column planning, consolidation and validation

    A shallow embedding of [database_processor.py], [file_handler.py] and
    [validator.py], and of the handler of the button of [app.py].

    Conventions of the embedding.
    - A Python [str] is a Rocq [string] holding its UTF-8 bytes; [chars]
      gives its characters (code points).  Python compares strings by
      code point, which is the byte-wise order of the UTF-8 encodings,
      so [String.compare] is Python's string order.  A sequence of bytes
      that is not UTF-8 stands for no Python string; the functions are
      total on it, and a group of bytes that encodes no code point
      belongs to no class of characters.
    - The classes of characters are those of the Unicode database 14.0,
      which CPython 3.11 carries: the decimal digits of [\d], [int] and
      [str.isdecimal], the digits of [str.isdigit], and the white space
      of [str.strip] and [str.isspace].  The limit CPython puts on the
      number of digits [int] converts is a setting of the interpreter
      and is not modelled: integers are unbounded.
    - A Python [set] is iterated in an order the program does not control;
      a set is therefore given by one duplicate-free enumeration of its
      elements, and every enumeration is a possible iteration order.
    - A raised exception is an explicit error result.
    - pandas is read as its documentation of versions 1.4 to 2.x has it:
      [astype(str)] turns a missing value into the text [nan],
      [replace('nan', None)] puts [None] in its place, a null written to
      SQLite is read back as [None], and assigning a frame of several
      columns to one column raises [ValueError].
    - Reading a workbook and the SQLite store are outside the program:
      a sheet is the grid of cells [read_excel] returns, and the store
      either takes the table and its rows or raises. *)

From Stdlib Require Import String Ascii List Bool Arith ZArith NArith Lia.
From Stdlib Require Import Permutation Sorted.
From Stdlib Require Import DecimalString DecimalZ DecimalN.
Import ListNotations.

#[local] Open Scope string_scope.
#[local] Open Scope list_scope.

(* ================================================================= *)
(** ** Exceptions *)

(** An exception raised by the program. *)
Inductive exn : Type :=
| ValueError
| KeyError
| TypeError
| OperationalError.

Inductive result (A : Type) : Type :=
| Ok (a : A)
| Raise (e : exn).

Arguments Ok {A} a.
Arguments Raise {A} e.

(* ================================================================= *)
(** ** Characters and strings *)

(** A byte [10xxxxxx] continues a character; a byte [11xxxxxx] begins a
    character of several bytes. *)
Definition is_continuation (b : ascii) : bool :=
  let n := N_of_ascii b in ((128 <=? n) && (n <? 192))%N.

Definition is_lead (b : ascii) : bool := (192 <=? N_of_ascii b)%N.

Fixpoint singles (s : string) : list string :=
  match s with
  | EmptyString => []
  | String b s' => String b EmptyString :: singles s'
  end.

(** The characters of a text, read from its end: the continuation bytes
    at the head of the text, which wait for the byte that begins their
    character, and the characters behind them.  A continuation byte that
    no beginning precedes is a character of its own. *)
Fixpoint split_chars (s : string) : string * list string :=
  match s with
  | EmptyString => (EmptyString, [])
  | String b s' =>
      let '(pre, cs) := split_chars s' in
      if is_continuation b then (String b pre, cs)
      else if is_lead b then (EmptyString, String b pre :: cs)
      else (EmptyString, String b EmptyString :: singles pre ++ cs)
  end.

(** The characters of a text, each one as the bytes that encode it. *)
Definition chars (s : string) : list string :=
  let '(pre, cs) := split_chars s in singles pre ++ cs.

(** [''.join(l)] *)
Definition join (l : list string) : string := fold_right append EmptyString l.

Fixpoint continuation_value (acc : N) (s : string) : N :=
  match s with
  | EmptyString => acc
  | String b s' => continuation_value (64 * acc + (N_of_ascii b - 128))%N s'
  end.

Fixpoint all_continuation (s : string) : bool :=
  match s with
  | EmptyString => true
  | String b s' => is_continuation b && all_continuation s'
  end.

(** The code point a character encodes; [None] for bytes that are not
    the UTF-8 encoding of a code point (a stray byte, an encoding that
    is too long, a surrogate, a value beyond U+10FFFF). *)
Definition code_point (ch : string) : option N :=
  match ch with
  | EmptyString => None
  | String a t =>
      let n := N_of_ascii a in
      if negb (all_continuation t) then None
      else
        match String.length t with
        | 0 => if (n <? 128)%N then Some n else None
        | 1 => let cp := continuation_value (n - 192) t in
               if ((192 <=? n) && (n <? 224) && (128 <=? cp))%N
               then Some cp else None
        | 2 => let cp := continuation_value (n - 224) t in
               if ((224 <=? n) && (n <? 240) && (2048 <=? cp))%N
                  && negb ((55296 <=? cp) && (cp <=? 57343))%N
               then Some cp else None
        | 3 => let cp := continuation_value (n - 240) t in
               if ((240 <=? n) && (n <? 248) && (65536 <=? cp) && (cp <=? 1114111))%N
               then Some cp else None
        | _ => None
        end
  end.

(** The decimal digits of Unicode stand in runs of ten, from the digit
    zero to the digit nine; this is the code point of the zero of each
    run. *)
Definition DECIMAL_ZEROS : list N :=
  [ 0x30; 0x660; 0x6f0; 0x7c0; 0x966; 0x9e6; 0xa66; 0xae6; 0xb66; 0xbe6;
    0xc66; 0xce6; 0xd66; 0xde6; 0xe50; 0xed0; 0xf20; 0x1040; 0x1090;
    0x17e0; 0x1810; 0x1946; 0x19d0; 0x1a80; 0x1a90; 0x1b50; 0x1bb0;
    0x1c40; 0x1c50; 0xa620; 0xa8d0; 0xa900; 0xa9d0; 0xa9f0; 0xaa50;
    0xabf0; 0xff10; 0x104a0; 0x10d30; 0x11066; 0x110f0; 0x11136;
    0x111d0; 0x112f0; 0x11450; 0x114d0; 0x11650; 0x116c0; 0x11730;
    0x118e0; 0x11950; 0x11c50; 0x11d50; 0x11da0; 0x16a60; 0x16ac0;
    0x16b50; 0x1d7ce; 0x1d7d8; 0x1d7e2; 0x1d7ec; 0x1d7f6; 0x1e140;
    0x1e2f0; 0x1e950; 0x1fbf0 ]%N.

(** The digits that are not decimal: superscripts, subscripts, circled
    digits and the like.  [str.isdigit] accepts them, [\d] and [int] do
    not. *)
Definition OTHER_DIGITS : list (N * N) :=
  [ (0xb2, 0xb3); (0xb9, 0xb9); (0x1369, 0x1371); (0x19da, 0x19da);
    (0x2070, 0x2070); (0x2074, 0x2079); (0x2080, 0x2089);
    (0x2460, 0x2468); (0x2474, 0x247c); (0x2488, 0x2490);
    (0x24ea, 0x24ea); (0x24f5, 0x24fd); (0x24ff, 0x24ff);
    (0x2776, 0x277e); (0x2780, 0x2788); (0x278a, 0x2792);
    (0x10a40, 0x10a43); (0x10e60, 0x10e68); (0x11052, 0x1105a);
    (0x1f100, 0x1f10a) ]%N.

(** The white space [str.strip()] removes. *)
Definition WHITE_SPACE : list (N * N) :=
  [ (0x9, 0xd); (0x1c, 0x20); (0x85, 0x85); (0xa0, 0xa0); (0x1680, 0x1680);
    (0x2000, 0x200a); (0x2028, 0x2029); (0x202f, 0x202f); (0x205f, 0x205f);
    (0x3000, 0x3000) ]%N.

Definition in_ranges (ranges : list (N * N)) (cp : N) : bool :=
  existsb (fun r => ((fst r <=? cp) && (cp <=? snd r))%N) ranges.

(** The zero of the run of decimal digits that holds the code point. *)
Definition decimal_zero (cp : N) : option N :=
  find (fun z => ((z <=? cp) && (cp <? z + 10))%N) DECIMAL_ZEROS.

(** [\d], [str.isdecimal] *)
Definition isdecimal_char (ch : string) : bool :=
  match code_point ch with
  | Some cp => match decimal_zero cp with Some _ => true | None => false end
  | None => false
  end.

(** The value of a decimal digit. *)
Definition decimal_value (ch : string) : N :=
  match code_point ch with
  | Some cp => match decimal_zero cp with Some z => (cp - z)%N | None => 0%N end
  | None => 0%N
  end.

(** [str.isdigit] on one character *)
Definition isdigit_char (ch : string) : bool :=
  isdecimal_char ch
  || match code_point ch with
     | Some cp => in_ranges OTHER_DIGITS cp
     | None => false
     end.

(** [str.isspace] on one character *)
Definition isspace_char (ch : string) : bool :=
  match code_point ch with
  | Some cp => in_ranges WHITE_SPACE cp
  | None => false
  end.

Fixpoint drop_space (l : list string) : list string :=
  match l with
  | [] => []
  | ch :: l' => if isspace_char ch then drop_space l' else l
  end.

(** [str.strip()] on the characters of a text *)
Definition strip_chars (l : list string) : list string :=
  rev (drop_space (rev (drop_space l))).

Definition lstrip (s : string) : string := join (drop_space (chars s)).

Definition strip (s : string) : string := join (strip_chars (chars s)).

Definition is_empty (s : string) : bool :=
  match s with EmptyString => true | _ => false end.

Definition nonempty {A : Type} (l : list A) : bool :=
  match l with [] => false | _ => true end.

(** [str.isdigit()]: not empty and made of digits only. *)
Definition isdigit_chars (l : list string) : bool :=
  nonempty l && forallb isdigit_char l.

Definition isdigit (s : string) : bool := isdigit_chars (chars s).

(** [str.isdecimal()]: not empty and made of decimal digits only. *)
Definition isdecimal (s : string) : bool :=
  nonempty (chars s) && forallb isdecimal_char (chars s).

(** The value of a run of decimal digits (arbitrary precision). *)
Definition int_of_chars (l : list string) : N :=
  fold_left (fun acc ch => (10 * acc + decimal_value ch)%N) l 0%N.

Definition int_of_digits (s : string) : N := int_of_chars (chars s).

(** [int(part)] for a part that [str.isdigit] accepts: its value when
    its digits are decimal, [ValueError] when one of them is not. *)
Definition int_of_part (part : list string) : result N :=
  if forallb isdecimal_char part then Ok (int_of_chars part)
  else Raise ValueError.

(** The ASCII digits and the ASCII white space, byte by byte: the
    classes of the texts that the statements build from ASCII. *)
Definition is_digit (c : ascii) : bool :=
  let n := N_of_ascii c in ((48 <=? n) && (n <=? 57))%N.

Definition is_space (c : ascii) : bool :=
  let n := N_of_ascii c in
  (((9 <=? n) && (n <=? 13)) || ((28 <=? n) && (n <=? 32)))%N.

Fixpoint all_chars (p : ascii -> bool) (s : string) : bool :=
  match s with
  | EmptyString => true
  | String c s' => p c && all_chars p s'
  end.

Definition mem (x : string) (l : list string) : bool :=
  existsb (String.eqb x) l.

(* ================================================================= *)
(** ** [natural_sort_key] *)

(** One element of the key tuple: a text fragment or a parsed integer. *)
Inductive frag : Type :=
| FStr (s : string)
| FInt (n : N).

Definition key : Type := list frag.

(** [re.split(r'(\d+)', s)] over the characters of [s], scanned left to
    right.  [in_digits] tells whether [cur] is a run of decimal digits
    being read; the result alternates text, digits, text, ..., text,
    with possibly empty texts at both ends, as the [re] module returns
    it.  A part is kept as the list of its characters. *)
Fixpoint split_run (in_digits : bool) (cur : list string) (l : list string)
  : list (list string) :=
  match l with
  | [] => if in_digits then [cur; []] else [cur]
  | ch :: l' =>
      if isdecimal_char ch then
        if in_digits then split_run true (cur ++ [ch]) l'
        else cur :: split_run true [ch] l'
      else
        if in_digits then cur :: split_run false [ch] l'
        else split_run false (cur ++ [ch]) l'
  end.

Definition re_split_digits (s : string) : list (list string) :=
  split_run false [] (chars s).

(** The loop of [natural_sort_key] over the parts; [int(part)] raises
    [ValueError] on a part that [str.isdigit] accepts and that holds a
    digit that is not decimal. *)
Fixpoint key_of_parts (parts : list (list string)) : result key :=
  match parts with
  | [] => Ok []
  | part :: rest =>
      if isdigit_chars part then
        match int_of_part part with
        | Raise e => Raise e
        | Ok n =>
            match key_of_parts rest with
            | Raise e => Raise e
            | Ok k => Ok (FInt n :: k)
            end
        end
      else if nonempty part then
        match key_of_parts rest with
        | Raise e => Raise e
        | Ok k => Ok (FStr (join part) :: k)
        end
      else key_of_parts rest
  end.

Definition natural_sort_key (column_name : string) : result key :=
  key_of_parts (re_split_digits (strip column_name)).

(** *** Comparing keys as Python compares tuples *)

(** [a == b] on tuple elements: a text never equals an integer. *)
Definition frag_eq (a b : frag) : bool :=
  match a, b with
  | FStr s, FStr t => String.eqb s t
  | FInt n, FInt m => N.eqb n m
  | _, _ => false
  end.

(** [a < b] on tuple elements; [None] is the [TypeError] raised when a
    text meets an integer. *)
Definition frag_lt (a b : frag) : option bool :=
  match a, b with
  | FStr s, FStr t => Some (String.ltb s t)
  | FInt n, FInt m => Some (N.ltb n m)
  | _, _ => None
  end.

(** [k1 < k2] on tuples: the first position where the elements differ
    decides; when there is none the shorter tuple is the smaller. *)
Fixpoint tuple_lt (k1 k2 : key) : option bool :=
  match k1, k2 with
  | [], [] => Some false
  | [], _ :: _ => Some true
  | _ :: _, [] => Some false
  | a :: k1', b :: k2' => if frag_eq a b then tuple_lt k1' k2' else frag_lt a b
  end.

(* ================================================================= *)
(** ** Sorting *)

(** [sorted] and [list.sort] are stable and use only [<].  The model is
    the stable insertion sort, which raises as soon as a comparison it
    makes raises.  Where no comparison raises and [<] is a strict weak
    order, every stable sort returns the same list; on two elements the
    one comparison made, of the second against the first, is the one
    [list.sort] makes. *)
Section PartialSort.
Variable A : Type.
Variable lt : A -> A -> option bool.

Fixpoint insert_opt (x : A) (l : list A) : option (list A) :=
  match l with
  | [] => Some [x]
  | y :: l' =>
      match lt y x with
      | None => None
      | Some true =>
          match insert_opt x l' with
          | None => None
          | Some r => Some (y :: r)
          end
      | Some false => Some (x :: l)
      end
  end.

Fixpoint sort_opt (l : list A) : option (list A) :=
  match l with
  | [] => Some []
  | x :: l' =>
      match sort_opt l' with
      | None => None
      | Some r => insert_opt x r
      end
  end.
End PartialSort.

Arguments insert_opt {A} lt x l.
Arguments sort_opt {A} lt l.

Section TotalSort.
Variable A : Type.
Variable ltb : A -> A -> bool.

Fixpoint insert (x : A) (l : list A) : list A :=
  match l with
  | [] => [x]
  | y :: l' => if ltb y x then y :: insert x l' else x :: l
  end.

Fixpoint isort (l : list A) : list A :=
  match l with
  | [] => []
  | x :: l' => insert x (isort l')
  end.
End TotalSort.

Arguments insert {A} ltb x l.
Arguments isort {A} ltb l.

(** The keys of the names, computed in turn; the first key that raises
    ends the computation. *)
Fixpoint keys_of (cols : list string) : result (list (key * string)) :=
  match cols with
  | [] => Ok []
  | col :: rest =>
      match natural_sort_key col with
      | Raise e => Raise e
      | Ok k =>
          match keys_of rest with
          | Raise e => Raise e
          | Ok ks => Ok ((k, col) :: ks)
          end
      end
  end.

(** [sorted(cols, key=natural_sort_key)]: the key of every name is
    computed first, then the names are sorted by their keys; a
    comparison of a text with an integer raises [TypeError]. *)
Definition sorted_by_natural_key (cols : list string) : result (list string) :=
  match keys_of cols with
  | Raise e => Raise e
  | Ok decorated =>
      match sort_opt (fun a b => tuple_lt (fst a) (fst b)) decorated with
      | None => Raise TypeError
      | Some sorted => Ok (map snd sorted)
      end
  end.

(** [cols.sort()] on strings *)
Definition sort_strings (cols : list string) : list string :=
  isort String.ltb cols.

(* ================================================================= *)
(** ** [_build_intelligent_column_order] *)

Definition TEMPLATE_SCHEMA : list string :=
  [ "ID Coleta"; "ID Questionário"; "Autor"; "Data início"; "Data fim"; "Duração";
    "Latitude"; "Longitude"; "Revisão"; "Sincronizacao"; "Finalizada"; "PIN";
    "Enviada para Webhook"; "Número do WhatsApp"; "ramal"; "P1"; "P2"; "P3"; "P4";
    "P5"; "P6"; "P7"; "P7_1"; "P7_2"; "P7_3"; "P7_4"; "P7_5"; "P7_6"; "P7_7"; "P7_8";
    "P8"; "P9"; "P9_2"; "P9_3"; "P9_4"; "P9_1"; "P9_5"; "P9_6"; "P9_7"; "P9_8"; "P9_9";
    "P9_10"; "P10"; "P10_2"; "P10_3"; "P10_4"; "P10_1"; "P10_5"; "P10_6"; "P10_7"; "P10_8";
    "P10_9"; "P10_10"; "P11"; "P12"; "P13"; "P14"; "P15"; "P16"; "P17"; "P18"; "P19";
    "P20"; "P21"; "P22"; "P23"; "P24"; "P25"; "P26"; "P27"; "P28"; "P29"; "P30";
    "P31"; "P32"; "P33"; "P34_1"; "P34_2"; "P34_3"; "P34_4"; "P34_5"; "P34_6";
    "P34_7"; "P35_2"; "P35_3"; "P35_4"; "P35_1"; "P35_5"; "P35_6"; "P36"; "P37_2";
    "P37_3"; "P37_1"; "P37_4"; "P37_5"; "P37_6"; "P38_1"; "P38_2"; "P38_3"; "P38_4";
    "P38_5"; "P38_6"; "P38_7"; "P39"; "P40"; "P41_1"; "P41_2"; "P41_3"; "P41_4";
    "P41_5"; "P41_6"; "P41_7"; "P41_8"; "P41_9"; "P41_10"; "P41_11"; "P42"; "IDADE";
    "P44"; "P45"; "P46"; "P47"; "P48"; "ID"; "EMP"; "FONE"; "P52"; "audios_urls" ].

Definition COL_FILE : string := "Nome do Arquivo de Origem".
Definition COL_SHEET : string := "Nome da Planilha de Origem".
Definition COL_INDEX : string := "Índice da Tabela na Planilha".

Definition traceability_cols : list string := [COL_FILE; COL_SHEET; COL_INDEX].

(** [re.match(r'^P\d+', col)]: an upper-case P followed by a decimal
    digit. *)
Definition is_p_column (col : string) : bool :=
  match chars col with
  | c :: d :: _ => String.eqb c "P" && isdecimal_char d
  | _ => false
  end.

(** Step 8: keep the first occurrence of every name. *)
Fixpoint dedupe (seen : list string) (l : list string) : list string :=
  match l with
  | [] => []
  | col :: l' =>
      if mem col seen then dedupe seen l' else col :: dedupe (col :: seen) l'
  end.

Section Planner.
(** The reference schema the walk of step 3 follows. *)
Variable template : list string.
Variable all_columns : list string.
Variable p_columns_sorted : list string.

(** One iteration of the loop over the template (step 3); the state is
    [(base_schema, p_inserted)]. *)
Definition template_step (st : list string * bool) (col : string)
  : list string * bool :=
  let '(base_schema, p_inserted) := st in
  if negb (is_p_column col) && mem col all_columns
     && negb (mem col traceability_cols)
  then (base_schema ++ [col], p_inserted)
  else if is_p_column col && negb p_inserted && nonempty p_columns_sorted
  then (base_schema ++ p_columns_sorted, true)
  else (base_schema, p_inserted).

(** Steps 3 and 4. *)
Definition build_base_schema : list string :=
  let '(base_schema, p_inserted) :=
    fold_left template_step template ([], false) in
  if negb p_inserted && nonempty p_columns_sorted
  then base_schema ++ p_columns_sorted
  else base_schema.
End Planner.

Definition build_order_with (template all_columns : list string)
  : result (list string) :=
  (* 1 *)
  let final_order := filter (fun col => mem col all_columns) traceability_cols in
  (* 2 *)
  let discovered_p_columns := filter is_p_column all_columns in
  match sorted_by_natural_key discovered_p_columns with
  | Raise e => Raise e
  | Ok p_columns_sorted =>
      (* 3, 4 *)
      let base_schema := build_base_schema template all_columns p_columns_sorted in
      (* 5 *)
      let final_order := final_order ++ base_schema in
      (* 6 *)
      let all_known_columns := traceability_cols ++ template in
      let unexpected_columns :=
        filter (fun col => negb (mem col all_known_columns)) all_columns in
      (* 7 *)
      let final_order := final_order ++ sort_strings unexpected_columns in
      (* 8 *)
      Ok (dedupe [] final_order)
  end.

(** The planner over [TEMPLATE_SCHEMA].  Its second parameter
    [base_order] is not used by the source and is left out.  It raises
    what the sort of the question columns raises. *)
Definition _build_intelligent_column_order (all_columns : list string)
  : result (list string) :=
  build_order_with TEMPLATE_SCHEMA all_columns.


(* ================================================================= *)
(** ** A total order that extends the comparison of keys *)

(** The comparison of tuples raises on a text against an integer.  To
    reason about the sort, the partial comparison is extended to a
    total one (an integer before a text); the two agree wherever the
    partial one is defined on keys of the same layout. *)

Definition frag_compare (a b : frag) : comparison :=
  match a, b with
  | FInt n, FInt m => N.compare n m
  | FStr s, FStr t => String.compare s t
  | FInt _, FStr _ => Lt
  | FStr _, FInt _ => Gt
  end.

Section Lex.
Variable A : Type.
Variable cmp : A -> A -> comparison.

Fixpoint lex_compare (l1 l2 : list A) : comparison :=
  match l1, l2 with
  | [], [] => Eq
  | [], _ :: _ => Lt
  | _ :: _, [] => Gt
  | a :: l1', b :: l2' =>
      match cmp a b with
      | Eq => lex_compare l1' l2'
      | c => c
      end
  end.
End Lex.

Arguments lex_compare {A} cmp l1 l2.

Definition key_compare : key -> key -> comparison := lex_compare frag_compare.

Definition is_lt (c : comparison) : bool :=
  match c with Lt => true | _ => false end.

Definition key_ltb (k1 k2 : key) : bool := is_lt (key_compare k1 k2).

(** The key of a name; the empty tuple stands for the key of a name
    whose key raises. *)
Definition key_of (column_name : string) : key :=
  match natural_sort_key column_name with
  | Ok k => k
  | Raise _ => []
  end.

(** Whether [natural_sort_key] returns a key for the name. *)
Definition has_key (column_name : string) : bool :=
  match natural_sort_key column_name with
  | Ok _ => true
  | Raise _ => false
  end.

(** The total counterpart of the comparison [sorted] makes on two names. *)
Definition name_ltb (a b : string) : bool :=
  key_ltb (key_of a) (key_of b).

Definition name_le (a b : string) : Prop := name_ltb b a = false.

(** Layout of a key: texts and integers alternate; [want_str] tells which
    kind the first element has. *)
Fixpoint alt (want_str : bool) (k : key) : bool :=
  match k with
  | [] => true
  | FStr _ :: k' => want_str && alt false k'
  | FInt _ :: k' => negb want_str && alt true k'
  end.

(** A comparison function that is a total order. *)
Class TotalOrder {A : Type} (cmp : A -> A -> comparison) : Prop := {
  cmp_eq : forall a b, cmp a b = Eq <-> a = b;
  cmp_opp : forall a b, cmp b a = CompOpp (cmp a b);
  cmp_lt_trans : forall a b c, cmp a b = Lt -> cmp b c = Lt -> cmp a c = Lt
}.

(** [a] may stand before [b] in a list sorted by natural key: both
    names have a key, and the comparison [key(b) < key(a)] is defined
    and false. *)
Definition natural_le (a b : string) : Prop :=
  exists ka kb,
    natural_sort_key a = Ok ka /\ natural_sort_key b = Ok kb
    /\ tuple_lt kb ka = Some false.

(** A decidable test that a list enumerates a set. *)
Fixpoint nodupb (l : list string) : bool :=
  match l with
  | [] => true
  | x :: l' => negb (mem x l') && nodupb l'
  end.

(* ================================================================= *)
(** ** Data frames *)

(** A cell of a data frame.  [CNaN] is the missing value of a sheet (a
    blank cell), [CNone] is Python's [None] (an SQL NULL read back).
    Numbers are integers.  A floating-point cell other than NaN is not
    part of the model: a sheet column that holds numbers and blanks
    only, which pandas reads as floats ([7.0] for [7]), is outside
    it. *)
Inductive cell : Type :=
| CNaN
| CNone
| CStr (s : string)
| CInt (z : Z).

(** A column label: the position given by [read_excel(header=None)], or
    a name. *)
Inductive label : Type :=
| LInt (n : nat)
| LStr (s : string).

Record frame : Type := {
  columns : list label;
  rows : list (list cell)
}.

Definition str_of_Z (z : Z) : string := NilZero.string_of_int (Z.to_int z).
Definition str_of_nat (n : nat) : string := str_of_Z (Z.of_nat n).

(** [isnull] *)
Definition is_null (c : cell) : bool :=
  match c with
  | CNaN | CNone => true
  | _ => false
  end.

(** [str(value)], the element-wise function of [astype(str)] *)
Definition str_of_cell (c : cell) : string :=
  match c with
  | CNaN => "nan"
  | CNone => "None"
  | CStr s => s
  | CInt z => str_of_Z z
  end.

Definition str_of_label (l : label) : string :=
  match l with
  | LInt n => str_of_nat n
  | LStr s => s
  end.

Definition label_eqb (a b : label) : bool :=
  match a, b with
  | LInt n, LInt m => Nat.eqb n m
  | LStr s, LStr t => String.eqb s t
  | _, _ => false
  end.

(** [df.empty]: no row or no column. *)
Definition df_empty (df : frame) : bool :=
  match columns df, rows df with
  | [], _ => true
  | _, [] => true
  | _, _ => false
  end.

(** [pd.DataFrame()] *)
Definition empty_frame : frame := {| columns := []; rows := [] |}.

Fixpoint index_of (x : string) (l : list string) : option nat :=
  match l with
  | [] => None
  | y :: l' =>
      if String.eqb x y then Some 0
      else match index_of x l' with
           | Some i => Some (S i)
           | None => None
           end
  end.

Fixpoint count_mem (x : string) (l : list string) : nat :=
  match l with
  | [] => 0
  | y :: l' => (if String.eqb x y then 1 else 0) + count_mem x l'
  end.

(** The value of the row under the column called [name]; [None] when the
    frame has no such column. *)
Definition cell_at (cols : list string) (row : list cell) (name : string)
  : option cell :=
  match index_of name cols with
  | Some i => Some (nth i row CNaN)
  | None => None
  end.

(* ================================================================= *)
(** ** [consolidate_data] *)

(** [df.columns = [str(col).strip() for col in df.columns]] *)
Definition clean_columns (df : frame) : list string :=
  map (fun col => strip (str_of_label col)) (columns df).

(** [series.astype(str).replace('nan', None)], element by element. *)
Definition normalise (c : cell) : cell :=
  let s := str_of_cell c in
  if String.eqb s "nan" then CNone else CStr s.

Definition NO_DATA : string := "No data found in any tables".
Definition NO_ANOMALY : string := "Nenhuma anomalia detectada.".

(** [str(list_of_names)] for names whose [repr] is the name between
    single quotes: names without apostrophe, backslash or character
    that [repr] escapes. *)
Definition repr_list (names : list string) : string :=
  ("[" ++ String.concat ", " (map (fun s => "'" ++ s ++ "'") names) ++ "]")%string.

Definition newline : string := String (ascii_of_nat 10) EmptyString.

Section Consolidation.
(** The order in which Python iterates the set that received the given
    names in the given order.  The program does not control it. *)
Variable set_iteration : list string -> list string.

(** Whether SQLite creates the table with these columns and takes the
    rows.  The store is outside the program. *)
Variable store_accepts : list string -> bool.

(** Phase 1: the tables kept, with their position in the input and
    their cleaned column names. *)
Definition retained (dataframes : list frame) : list (nat * frame) :=
  filter (fun p => negb (df_empty (snd p)))
         (combine (seq 0 (length dataframes)) dataframes).

Definition discovered (tables : list (nat * frame)) : list string :=
  dedupe [] (flat_map (fun p => clean_columns (snd p)) tables).

(** The value of the first row under [name], or the default. *)
Definition first_value (df : frame) (name : string) (default : string) : string :=
  match cell_at (clean_columns df) (hd [] (rows df)) name with
  | Some c => str_of_cell c
  | None => default
  end.

(** The anomaly line of one table, when it lacks a column of the plan
    that is not a provenance column. *)
Definition anomaly (master_columns : list string) (table_idx : nat) (df : frame)
  : list string :=
  let file_name := first_value df COL_FILE "Unknown" in
  let sheet_name := first_value df COL_SHEET "Unknown" in
  let table_idx_in_sheet := first_value df COL_INDEX (str_of_nat (table_idx + 1)) in
  let missing_cols :=
    filter (fun col => negb (mem col (clean_columns df))) master_columns in
  let missing_cols_list :=
    sort_strings (filter (fun col => negb (mem col traceability_cols)) missing_cols) in
  if nonempty missing_cols_list then
    [(file_name ++ " -> " ++ sheet_name ++ " -> Tabela " ++ table_idx_in_sheet
      ++ ": " ++ repr_list missing_cols_list)%string]
  else [].

(** One row of [aligned_df]: the columns of the plan, with the values
    of the table where it has the column and null elsewhere. *)
Definition align_row (master_columns cols : list string) (row : list cell)
  : list cell :=
  map (fun col => match cell_at cols row col with
                  | Some c => normalise c
                  | None => CNone
                  end) master_columns.

(** Assigning [df[col]] to one column raises when [col] names several
    columns of the table. *)
Definition ambiguous_column (master_columns cols : list string) : bool :=
  existsb (fun col => mem col master_columns && Nat.ltb 1 (count_mem col cols)) cols.

Definition load_table (master_columns : list string) (df : frame)
  : result (list (list cell)) :=
  let cols := clean_columns df in
  if ambiguous_column master_columns cols then Raise ValueError
  else Ok (map (align_row master_columns cols) (rows df)).

(** Phase 3 *)
Fixpoint load_tables (master_columns : list string) (tables : list (nat * frame))
  : result (list (list cell) * list string) :=
  match tables with
  | [] => Ok ([], [])
  | (table_idx, df) :: rest =>
      match load_table master_columns df with
      | Raise e => Raise e
      | Ok aligned =>
          match load_tables master_columns rest with
          | Raise e => Raise e
          | Ok (stored, anomaly_reports) =>
              Ok (aligned ++ stored,
                  anomaly master_columns table_idx df ++ anomaly_reports)
          end
      end
  end.

Definition consolidate_data (dataframes : list frame) : result (frame * string) :=
  let dataframes_list := retained dataframes in
  match discovered dataframes_list with
  | [] => Ok (empty_frame, NO_DATA)
  | all_columns =>
      match _build_intelligent_column_order (set_iteration all_columns) with
      | Raise e => Raise e
      | Ok master_columns =>
          if negb (store_accepts master_columns) then Raise OperationalError
          else
            match load_tables master_columns dataframes_list with
            | Raise e => Raise e
            | Ok (stored, anomaly_reports) =>
                let report_text :=
                  if nonempty anomaly_reports
                  then String.concat newline anomaly_reports
                  else NO_ANOMALY in
                Ok ({| columns := map LStr master_columns; rows := stored |},
                    report_text)
            end
      end
  end.
End Consolidation.

(* ================================================================= *)
(** ** [parse_excel_files] *)

(** What [pd.read_excel(..., header=None)] gives for a sheet: the rows
    of a rectangular grid of cells. *)
Definition grid : Type := list (list cell).

(** A sheet of a workbook; [sheet_cells] is [None] when reading the
    sheet raises. *)
Record sheet : Type := {
  sheet_title : string;
  sheet_cells : option grid
}.

(** An uploaded file; [workbook] is [None] when [pd.ExcelFile] raises. *)
Record uploaded_file : Type := {
  name : string;
  workbook : option (list sheet)
}.

(** One dictionary of [source_manifest]. *)
Record manifest_entry : Type := {
  file_name : string;
  sheet_name : string;
  table_index : Z;
  row_count : Z
}.

Definition width (g : grid) : nat :=
  match g with
  | [] => 0
  | r :: _ => length r
  end.

(** [row.isnull().all()] *)
Definition row_is_blank (r : list cell) : bool := forallb is_null r.

(** [df_sheet[empty_rows].index.tolist()], counting from [i]. *)
Fixpoint blank_indices (i : nat) (g : grid) : list nat :=
  match g with
  | [] => []
  | r :: g' =>
      if row_is_blank r then i :: blank_indices (S i) g'
      else blank_indices (S i) g'
  end.

(** The pairs [(boundaries[i], boundaries[i + 1])]. *)
Fixpoint consecutive (bs : list nat) : list (nat * nat) :=
  match bs with
  | a :: ((b :: _) as rest) => (a, b) :: consecutive rest
  | _ => []
  end.

(** [iloc[start:end]] *)
Definition slice {A : Type} (start stop : nat) (l : list A) : list A :=
  firstn (stop - start) (skipn start l).

(** Keep the positions whose flag is set. *)
Fixpoint select {A : Type} (mask : list bool) (l : list A) : list A :=
  match mask, l with
  | b :: mask', x :: l' => if b then x :: select mask' l' else select mask' l'
  | _, _ => []
  end.

(** [dropna(how='all', axis=0)] then [dropna(how='all', axis=1)] on a
    slice of a sheet of width [w]; the columns keep their positions as
    labels. *)
Definition drop_blank (w : nat) (rws : list (list cell)) : frame :=
  let kept := filter (fun r => negb (row_is_blank r)) rws in
  let mask :=
    map (fun j => existsb (fun r => negb (is_null (nth j r CNaN))) kept) (seq 0 w) in
  {| columns := select mask (map LInt (seq 0 w));
     rows := map (select mask) kept |}.

(** [[col if col != 'nan' else f'Column_{i}' for i, col in enumerate(cols)]],
    counting from [i]. *)
Fixpoint clean_names (i : nat) (cols : list string) : list string :=
  match cols with
  | [] => []
  | col :: cols' =>
      (if String.eqb col "nan" then ("Column_" ++ str_of_nat i)%string else col)
      :: clean_names (S i) cols'
  end.

(** The header promotion: the first row, when it has a value, gives the
    column names and leaves the data. *)
Definition promote_header (table_data : frame) : frame :=
  match rows table_data with
  | first :: rest =>
      if negb (df_empty table_data) && negb (row_is_blank first) then
        {| columns := map LStr (clean_names 0 (map str_of_cell first));
           rows := rest |}
      else table_data
  | [] => table_data
  end.

(** [df.insert(loc, column, value)] with a scalar value: raises when the
    frame already has a column of that label. *)
Definition insert_column (loc : nat) (column : string) (value : cell) (df : frame)
  : result frame :=
  if existsb (label_eqb (LStr column)) (columns df) then Raise ValueError
  else Ok {| columns := firstn loc (columns df) ++ LStr column :: skipn loc (columns df);
             rows := map (fun r => firstn loc r ++ value :: skipn loc r) (rows df) |}.

Definition add_traceability (file sheet_nm : string) (table_idx : nat) (df : frame)
  : result frame :=
  match insert_column 0 COL_FILE (CStr file) df with
  | Raise e => Raise e
  | Ok df1 =>
      match insert_column 1 COL_SHEET (CStr sheet_nm) df1 with
      | Raise e => Raise e
      | Ok df2 => insert_column 2 COL_INDEX (CInt (Z.of_nat table_idx)) df2
      end
  end.

Section Sheet.
Variables (file sheet_nm : string) (g : grid).

Let empty_row_indices : list nat := blank_indices 0 g.

(** The loop over the boundaries of one sheet.  The result holds the
    tables emitted with their manifest entries, and tells whether the
    loop ended without raising. *)
Fixpoint extract_tables (pairs : list (nat * nat)) (table_idx : nat)
  : list (frame * manifest_entry) * bool :=
  match pairs with
  | [] => ([], true)
  | (start_idx, end_idx) :: rest =>
      let start_idx :=
        if existsb (Nat.eqb start_idx) empty_row_indices
        then S start_idx else start_idx in
      if Nat.ltb start_idx end_idx then
        let table_data := drop_blank (width g) (slice start_idx end_idx g) in
        if df_empty table_data then extract_tables rest table_idx
        else
          let table_data := promote_header table_data in
          let data_row_count := length (rows table_data) in
          if df_empty table_data then extract_tables rest table_idx
          else
            match add_traceability file sheet_nm table_idx table_data with
            | Raise _ => ([], false)
            | Ok table_data =>
                let entry := {| file_name := file;
                                sheet_name := sheet_nm;
                                table_index := Z.of_nat table_idx;
                                row_count := Z.of_nat data_row_count |} in
                let '(out, ok) := extract_tables rest (S table_idx) in
                ((table_data, entry) :: out, ok)
            end
      else extract_tables rest table_idx
  end.

Definition sheet_tables : list (frame * manifest_entry) * bool :=
  if df_empty {| columns := map LInt (seq 0 (width g)); rows := g |}
  then ([], true)
  else
    let boundaries := 0 :: empty_row_indices ++ [length g] in
    extract_tables (consecutive boundaries) 1.
End Sheet.

(** The sheets of one file, in order; an exception ends the file and
    keeps what was emitted before. *)
Fixpoint sheets_tables (file : string) (sheets : list sheet)
  : list (frame * manifest_entry) :=
  match sheets with
  | [] => []
  | sh :: rest =>
      match sheet_cells sh with
      | None => []
      | Some g =>
          let '(out, ok) := sheet_tables file (sheet_title sh) g in
          if ok then out ++ sheets_tables file rest else out
      end
  end.

Definition file_tables (f : uploaded_file) : list (frame * manifest_entry) :=
  match workbook f with
  | None => []
  | Some sheets => sheets_tables (name f) sheets
  end.

(** The tables the generator yields, and the manifest. *)
Definition parse_excel_files (uploaded_files : list uploaded_file)
  : list frame * list manifest_entry :=
  let emitted := flat_map file_tables uploaded_files in
  (map fst emitted, map snd emitted).

(* ================================================================= *)
(** ** [validator.py] *)

Fixpoint find_label (lbl : label) (l : list label) : option nat :=
  match l with
  | [] => None
  | y :: l' =>
      if label_eqb lbl y then Some 0
      else match find_label lbl l' with
           | Some i => Some (S i)
           | None => None
           end
  end.

(** [df[name]] on a frame whose labels are unique: the values of the
    column, or [None] where the access raises [KeyError]. *)
Definition column_values (df : frame) (col : string) : option (list cell) :=
  match find_label (LStr col) (columns df) with
  | Some i => Some (map (fun r => nth i r CNaN) (rows df))
  | None => None
  end.

Definition digits_value (s : string) : option Z :=
  if isdecimal s then Some (Z.of_N (int_of_digits s)) else None.

(** [int(text)]: surrounding white space, an optional sign, decimal
    digits.  The grouping of digits with underscores is not modelled,
    and the integers are unbounded, where [astype(int)] overflows beyond
    64 bits. *)
Definition int_of_string (s : string) : option Z :=
  match strip s with
  | EmptyString => None
  | String c r =>
      if Ascii.eqb c "-" then option_map Z.opp (digits_value r)
      else if Ascii.eqb c "+" then digits_value r
      else digits_value (String c r)
  end.

(** [int(value)], the element-wise function of [astype(int)] *)
Definition int_of_cell (c : cell) : result Z :=
  match c with
  | CInt z => Ok z
  | CStr s => match int_of_string s with
              | Some z => Ok z
              | None => Raise ValueError
              end
  | CNaN => Raise ValueError
  | CNone => Raise TypeError
  end.

Fixpoint astype_int (col : list cell) : result (list Z) :=
  match col with
  | [] => Ok []
  | c :: col' =>
      match int_of_cell c with
      | Raise e => Raise e
      | Ok z =>
          match astype_int col' with
          | Raise e => Raise e
          | Ok zs => Ok (z :: zs)
          end
      end
  end.

(** The provenance of the rows after the correction of the types: file
    and sheet as text, index as integer.  A column the frame lacks is
    [None]; converting the index column may raise. *)
Record provenance : Type := {
  prov_file : option (list string);
  prov_sheet : option (list string);
  prov_index : option (list Z)
}.

Definition correct_types (df : frame) : result provenance :=
  let files := option_map (map str_of_cell) (column_values df COL_FILE) in
  let sheets := option_map (map str_of_cell) (column_values df COL_SHEET) in
  match column_values df COL_INDEX with
  | None => Ok {| prov_file := files; prov_sheet := sheets; prov_index := None |}
  | Some col =>
      match astype_int col with
      | Raise e => Raise e
      | Ok idxs =>
          Ok {| prov_file := files; prov_sheet := sheets; prov_index := Some idxs |}
      end
  end.

(** [mask.sum()] for the three comparisons joined by [&]. *)
Fixpoint count_mask (files sheets : list string) (idxs : list Z)
  (table_info : manifest_entry) : Z :=
  match files, sheets, idxs with
  | f :: files', s :: sheets', i :: idxs' =>
      ((if String.eqb f (file_name table_info)
           && String.eqb s (sheet_name table_info)
           && Z.eqb i (table_index table_info) then 1 else 0)
       + count_mask files' sheets' idxs' table_info)%Z
  | _, _, _ => 0%Z
  end.

(** The rows of the frame that carry the provenance of the entry; the
    access to a missing column raises. *)
Definition actual_rows (p : provenance) (table_info : manifest_entry) : result Z :=
  match prov_file p, prov_sheet p, prov_index p with
  | Some files, Some sheets, Some idxs => Ok (count_mask files sheets idxs table_info)
  | _, _, _ => Raise KeyError
  end.

(** The loop over the manifest: the actual count of every entry. *)
Fixpoint count_tables (p : provenance) (source_manifest : list manifest_entry)
  : result (list (manifest_entry * Z)) :=
  match source_manifest with
  | [] => Ok []
  | table_info :: rest =>
      match actual_rows p table_info with
      | Raise e => Raise e
      | Ok actual =>
          match count_tables p rest with
          | Raise e => Raise e
          | Ok counted => Ok ((table_info, actual) :: counted)
          end
      end
  end.

Definition sum_Z (l : list Z) : Z := fold_right Z.add 0%Z l.

Definition mismatch (c : manifest_entry * Z) : bool :=
  negb (Z.eqb (row_count (fst c)) (snd c)).

Record summary : Type := {
  is_valid : bool;
  total_source_rows : Z;
  total_consolidated_rows : Z;
  difference : Z;
  total_tables : nat;
  validation_errors : nat;
  totals_match : bool
}.

Definition get_validation_summary (consolidated_df : frame)
  (source_manifest : list manifest_entry) : result summary :=
  let total_source := sum_Z (map row_count source_manifest) in
  let total_consolidated := Z.of_nat (length (rows consolidated_df)) in
  let totals_ok := Z.eqb total_source total_consolidated in
  match correct_types consolidated_df with
  | Raise e => Raise e
  | Ok p =>
      match count_tables p source_manifest with
      | Raise e => Raise e
      | Ok counted =>
          let errors := length (filter mismatch counted) in
          Ok {| is_valid := totals_ok && Nat.eqb errors 0;
                total_source_rows := total_source;
                total_consolidated_rows := total_consolidated;
                difference := Z.abs (total_source - total_consolidated);
                total_tables := length source_manifest;
                validation_errors := errors;
                totals_match := totals_ok |}
      end
  end.

(** *** The text of the report *)

(** The digits of a number read from the right, with a comma after
    every third one that has a digit to its left. *)
Fixpoint group_digits (k : nat) (rev_digits : list ascii) : list ascii :=
  match rev_digits with
  | [] => []
  | c :: rest =>
      match rest with
      | [] => [c]
      | _ => if Nat.eqb k 2 then c :: ","%char :: group_digits 0 rest
             else c :: group_digits (S k) rest
      end
  end.

(** [f"{z:,}"] *)
Definition format_thousands (z : Z) : string :=
  let digits := list_ascii_of_string (str_of_Z (Z.abs z)) in
  let grouped := string_of_list_ascii (rev (group_digits 0 (rev digits))) in
  if (z <? 0)%Z then ("-" ++ grouped)%string else grouped.

Definition rule (c : string) : string := String.concat "" (repeat c 60).

Definition table_line (c : manifest_entry * Z) : string :=
  let '(table_info, actual) := c in
  ((if mismatch c then "❌ ERRO" else "✅ OK")
   ++ " " ++ file_name table_info ++ " → " ++ sheet_name table_info
   ++ " → Tabela " ++ str_of_Z (table_index table_info) ++ ": "
   ++ str_of_Z actual ++ "/" ++ str_of_Z (row_count table_info) ++ " linhas")%string.

Definition error_lines (c : manifest_entry * Z) : list string :=
  let '(table_info, actual) := c in
  [ ("❌ " ++ file_name table_info ++ " → " ++ sheet_name table_info
     ++ " → Tabela " ++ str_of_Z (table_index table_info) ++ ":")%string;
    ("   Esperado: " ++ str_of_Z (row_count table_info) ++ " linhas | "
     ++ "Encontrado: " ++ str_of_Z actual ++ " linhas | "
     ++ "Diferença: " ++ str_of_Z (Z.abs (row_count table_info - actual))
     ++ " linhas")%string;
    "" ].

Definition validate_consolidation (consolidated_df : frame)
  (source_manifest : list manifest_entry) : result string :=
  let total_source := sum_Z (map row_count source_manifest) in
  let total_consolidated := Z.of_nat (length (rows consolidated_df)) in
  let totals_ok := Z.eqb total_source total_consolidated in
  let header :=
    [ rule "="; "🔍 RELATÓRIO DE VALIDAÇÃO DE INTEGRIDADE"; rule "=" ] in
  let totals :=
    [ "";
      "📊 CONTAGENS TOTAIS:";
      ("   • Linhas nas tabelas de origem: " ++ format_thousands total_source)%string;
      ("   • Linhas no arquivo consolidado: "
       ++ format_thousands total_consolidated)%string;
      ("   • Diferença: "
       ++ format_thousands (Z.abs (total_source - total_consolidated)))%string;
      "";
      "📋 VALIDAÇÃO DETALHADA POR TABELA:";
      rule "-" ] in
  match correct_types consolidated_df with
  | Raise e => Raise e
  | Ok p =>
      match count_tables p source_manifest with
      | Raise e => Raise e
      | Ok counted =>
          let errors := filter mismatch counted in
          let details :=
            if nonempty errors then
              [ ""; "🚨 DETALHES DOS ERROS ENCONTRADOS:"; rule "-" ]
              ++ flat_map error_lines errors
            else [] in
          let overall_success := totals_ok && negb (nonempty errors) in
          let summary_line :=
            if overall_success
            then "✅ RESULTADO: SUCESSO - Integridade validada com sucesso!"
            else "❌ RESULTADO: FALHA - Discrepância encontrada na consolidação!" in
          let closing :=
            if overall_success then
              [ "🎉 VALIDAÇÃO CONCLUÍDA: Todos os dados foram preservados!";
                "   A consolidação manteve 100% da integridade dos dados." ]
            else
              [ "⚠️  ATENÇÃO: Foram encontradas discrepâncias!" ]
              ++ (if negb totals_ok
                  then [ "   • Totais de linhas não coincidem." ] else [])
              ++ (if nonempty errors
                  then [ ("   • " ++ str_of_nat (length errors)
                          ++ " tabela(s) com contagem incorreta.")%string ]
                  else [])
              ++ [ "   Recomenda-se revisar os dados antes de prosseguir." ] in
          Ok (String.concat newline
                (header ++ [summary_line] ++ totals ++ map table_line counted
                 ++ details ++ [rule "="] ++ closing ++ [rule "="]))
      end
  end.

(* ================================================================= *)
(** ** Vocabulary of the statements *)

(** Whether a text begins with a continuation byte. *)
Definition continues (s : string) : bool :=
  match s with
  | String b _ => is_continuation b
  | EmptyString => false
  end.

(** The shape of the characters [chars] returns: a byte that begins a
    character, followed by continuation bytes, or one other byte. *)
Definition group (ch : string) : bool :=
  match ch with
  | String a t => if is_lead a then all_continuation t else is_empty t
  | EmptyString => false
  end.

(** A continuation byte that stands alone. *)
Definition stray (ch : string) : bool :=
  match ch with
  | String a EmptyString => is_continuation a
  | _ => false
  end.

Definition opens (ch : string) : bool :=
  match ch with
  | String a _ => is_lead a
  | EmptyString => false
  end.

(** A list of characters that decodes to itself: every element has the
    shape of a character, and no stray continuation byte follows a
    character of several bytes. *)
Fixpoint wf_chars (prev_opens : bool) (l : list string) : bool :=
  match l with
  | [] => true
  | ch :: l' => group ch && negb (stray ch && prev_opens) && wf_chars (opens ch) l'
  end.

(** A byte of ASCII: a character of one byte. *)
Definition plain (b : ascii) : bool :=
  negb (is_continuation b) && negb (is_lead b).

(** [str.rstrip()] on the characters of a text *)
Definition rdrop_space (l : list string) : list string :=
  rev (drop_space (rev l)).

(** The text holds no decimal digit. *)
Definition no_decimal (s : string) : bool :=
  forallb (fun ch => negb (isdecimal_char ch)) (chars s).

Definition is_text_column (col : string) : Prop := is_p_column col = false.
Definition is_question (col : string) : Prop := is_p_column col = true.

(** The template entries the walk copies. *)
Definition copied (all_columns : list string) (col : string) : bool :=
  negb (is_p_column col) && mem col all_columns && negb (mem col traceability_cols).

Definition question_block (all_columns : list string) : list string :=
  isort name_ltb (filter is_p_column all_columns).

(** [natural_sort_key] returns a key for every question column of the
    list. *)
Definition keyed (all_columns : list string) : bool :=
  forallb has_key (filter is_p_column all_columns).

(** Equality of keys. *)
Fixpoint same_key (k1 k2 : key) : bool :=
  match k1, k2 with
  | [], [] => true
  | a :: k1', b :: k2' => frag_eq a b && same_key k1' k2'
  | _, _ => false
  end.

(** [col] is a question column that has the natural key of [a]. *)
Definition shares_key (a col : string) : bool :=
  is_p_column col && same_key (key_of a) (key_of col).

(** The list the planner holds before step 8. *)
Definition unexpected (template l : list string) : list string :=
  sort_strings (filter (fun col => negb (mem col (traceability_cols ++ template))) l).

(** Step 1: the provenance columns that are present. *)
Definition present_traceability (l : list string) : list string :=
  filter (fun col => mem col l) traceability_cols.

(** The digits of a non-negative number, most significant first. *)
Definition decimal_of (z : Z) : Decimal.uint :=
  match Z.to_int z with
  | Decimal.Pos d => d
  | Decimal.Neg d => d
  end.

(** A grid is rectangular, as every data frame is. *)
Definition rectangular (g : grid) : Prop :=
  Forall (fun r => length r = width g) g.

Definition well_formed (f : uploaded_file) : Prop :=
  forall sheets sh g,
    workbook f = Some sheets -> In sh sheets -> sheet_cells sh = Some g ->
    rectangular g.

(** The names a header row gives to the columns. *)
Definition header_names (header : list cell) : list string :=
  clean_names 0 (map str_of_cell header).

(** A data row behind the three provenance values. *)
Definition with_provenance (file sheet_nm : string) (table_idx : nat)
  (r : list cell) : list cell :=
  CStr file :: CStr sheet_nm :: CInt (Z.of_nat table_idx) :: r.

(** The provenance of a manifest entry. *)
Definition entry_key (e : manifest_entry) : string * string * Z :=
  (file_name e, sheet_name e, table_index e).

(** The provenance of the rows that the manifest announces: the key of
    each entry, once per row of its table. *)
Definition expected_keys (manifest : list manifest_entry)
  : list (string * string * Z) :=
  flat_map (fun e => repeat (entry_key e) (Z.to_nat (row_count e))) manifest.

Definition key_eqb (e : manifest_entry) (k : string * string * Z) : bool :=
  String.eqb (fst (fst k)) (file_name e)
  && String.eqb (snd (fst k)) (sheet_name e)
  && Z.eqb (snd k) (table_index e).

(** What ties an emitted table to its manifest entry. *)
Definition linked (p : frame * manifest_entry) : Prop :=
  exists cols data,
    columns (fst p) = map LStr traceability_cols ++ cols
    /\ rows (fst p)
       = map (with_provenance (file_name (snd p)) (sheet_name (snd p))
                              (Z.to_nat (table_index (snd p)))) data
    /\ data <> []
    /\ row_count (snd p) = Z.of_nat (length data)
    /\ (1 <= table_index (snd p))%Z.

(* ================================================================= *)
(** ** [_extract_question_number] *)

(** The longest run of decimal digits at the head of a list of
    characters, and what follows it. *)
Fixpoint span_digits (l : list string) : list string * list string :=
  match l with
  | [] => ([], [])
  | ch :: l' =>
      if isdecimal_char ch then
        let '(d, r) := span_digits l' in (ch :: d, r)
      else ([], l)
  end.

(** [re.match(r'^P(\d+)(?:_(\d+))?$', s, re.IGNORECASE)]: the two groups
    of the match, the second one being [None] when the optional part is
    absent.  The letters that match [P] without regard to case are [P]
    and [p].  The text [s] is a stripped one, so that [$] is its end. *)
Definition match_question (s : string)
  : option (list string * option (list string)) :=
  match chars s with
  | c :: r =>
      if String.eqb c "P" || String.eqb c "p" then
        let '(main, rest) := span_digits r in
        if nonempty main then
          match rest with
          | [] => Some (main, None)
          | u :: rest' =>
              if String.eqb u "_" then
                let '(sub, tail) := span_digits rest' in
                if nonempty sub && negb (nonempty tail)
                then Some (main, Some sub) else None
              else None
          end
        else None
      else None
  | [] => None
  end.

(** The triple [(is_question, main_num, sub_num)]. *)
Definition _extract_question_number (column_name : string) : bool * N * N :=
  match match_question (strip column_name) with
  | Some (main, sub) =>
      (true, int_of_chars main,
       match sub with
       | Some d => int_of_chars d
       | None => 0%N
       end)
  | None => (false, 0%N, 0%N)
  end.

(* ================================================================= *)
(** ** Vocabulary of the further statements *)

(** The text begins with a decimal digit. *)
Definition starts_with_decimal (s : string) : bool :=
  match chars s with
  | ch :: _ => isdecimal_char ch
  | [] => false
  end.

(** A text of a key is not empty, holds no decimal digit and is not
    made of digits only. *)
Definition text_fragment (f : frag) : Prop :=
  match f with
  | FStr t => is_empty t = false /\ no_decimal t = true /\ isdigit t = false
  | FInt _ => True
  end.

(** A part that [str.isdigit] accepts and [int] refuses. *)
Definition refused (part : list string) : bool :=
  isdigit_chars part && negb (forallb isdecimal_char part).

(** The names of the list that the set holds, in the order of the list. *)
Definition present (all_columns names : list string) : list string :=
  filter (fun col => mem col all_columns) names.

(** The entries of the reference schema before its first question
    column, and its entries that are not question columns after it. *)
Definition LEADING_COLUMNS : list string :=
  [ "ID Coleta"; "ID Questionário"; "Autor"; "Data início"; "Data fim"; "Duração";
    "Latitude"; "Longitude"; "Revisão"; "Sincronizacao"; "Finalizada"; "PIN";
    "Enviada para Webhook"; "Número do WhatsApp"; "ramal" ].

Definition TRAILING_COLUMNS : list string :=
  [ "IDADE"; "ID"; "EMP"; "FONE"; "audios_urls" ].

(** The names that are neither provenance columns, nor entries of the
    reference schema, nor question columns, in ascending order. *)
Definition other_columns (all_columns : list string) : list string :=
  sort_strings
    (filter (fun col => negb (mem col (traceability_cols ++ TEMPLATE_SCHEMA))
                        && negb (is_p_column col)) all_columns).

(** Whether a text holds a character. *)
Fixpoint contains_char (c : ascii) (s : string) : bool :=
  match s with
  | EmptyString => false
  | String x s' => Ascii.eqb x c || contains_char c s'
  end.

(** The rows a table brings to the consolidation: none when
    [df.empty]. *)
Definition rows_brought (df : frame) : nat :=
  if df_empty df then 0 else length (rows df).

(** The pieces of a sheet between its blank rows, in order.  A piece is
    empty where two blank rows follow each other and where the sheet
    begins or ends with a blank row. *)
Fixpoint pieces (g : grid) : list (list (list cell)) :=
  match g with
  | [] => [[]]
  | r :: g' =>
      if row_is_blank r then [] :: pieces g'
      else match pieces g' with
           | p :: ps => (r :: p) :: ps
           | [] => [[r]]
           end
  end.

(** The blocks of a sheet: its maximal runs of consecutive rows that
    are not blank. *)
Definition blocks (g : grid) : list (list (list cell)) :=
  filter nonempty (pieces g).

(** The blocks that have a row after their first one. *)
Definition data_blocks (g : grid) : list (list (list cell)) :=
  filter (fun b => Nat.leb 2 (length b)) (blocks g).

(** The start of a slice, after the adjustment
    [if start_idx in empty_row_indices: start_idx += 1]. *)
Definition slice_start (g : grid) (a : nat) : nat :=
  if existsb (Nat.eqb a) (blank_indices 0 g) then S a else a.

(** The rows between two boundaries of a sheet. *)
Definition slice_of (g : grid) (p : nat * nat) : list (list cell) :=
  slice (slice_start g (fst p)) (snd p) g.

Section Blocks.
Variables (file sheet_nm : string) (w : nat).

(** The body of the loop of [extract_tables], applied to the slices
    themselves instead of their boundaries. *)
Fixpoint tables_of_blocks (bs : list (list (list cell))) (table_idx : nat)
  : list (frame * manifest_entry) * bool :=
  match bs with
  | [] => ([], true)
  | b :: rest =>
      let table_data := drop_blank w b in
      if df_empty table_data then tables_of_blocks rest table_idx
      else
        let table_data := promote_header table_data in
        let data_row_count := length (rows table_data) in
        if df_empty table_data then tables_of_blocks rest table_idx
        else
          match add_traceability file sheet_nm table_idx table_data with
          | Raise _ => ([], false)
          | Ok table_data =>
              let entry := {| file_name := file;
                              sheet_name := sheet_nm;
                              table_index := Z.of_nat table_idx;
                              row_count := Z.of_nat data_row_count |} in
              let '(out, ok) := tables_of_blocks rest (S table_idx) in
              ((table_data, entry) :: out, ok)
          end
  end.
End Blocks.

(** A workbook of one sheet. *)
Definition one_sheet (file title : string) (g : grid) : uploaded_file :=
  {| name := file;
     workbook := Some [ {| sheet_title := title; sheet_cells := Some g |} ] |}.

(** The sheets of the uploaded files that open, in the order of the
    files and of their sheets, each with the name of its file. *)
Definition all_sheets (uploaded_files : list uploaded_file)
  : list (string * sheet) :=
  flat_map (fun f => match workbook f with
                     | Some sheets => map (pair (name f)) sheets
                     | None => []
                     end) uploaded_files.

(** The provenance of [n] tables of one sheet, numbered from 1. *)
Definition sheet_run (p : string * sheet * nat) : list (string * string * Z) :=
  map (fun k => (fst (fst p), sheet_title (snd (fst p)), Z.of_nat k))
      (seq 1 (snd p)).

(** The manifest entries of the blocks of one sheet, numbered from
    [table_idx]: the first row of a block is its header, the other rows
    are its data. *)
Fixpoint entries_of_blocks (file title : string) (table_idx : nat)
  (bs : list (list (list cell))) : list manifest_entry :=
  match bs with
  | [] => []
  | b :: bs' =>
      {| file_name := file;
         sheet_name := title;
         table_index := Z.of_nat table_idx;
         row_count := Z.of_nat (length b - 1) |}
      :: entries_of_blocks file title (S table_idx) bs'
  end.

(** No cell of the sheet holds the name of a provenance column. *)
Definition no_provenance_name (g : grid) : Prop :=
  forall r c, In r g -> In c r -> ~ In (str_of_cell c) traceability_cols.

(** The provenance of the rows of a frame after the correction of the
    types, row by row; the list is empty when a provenance column is
    absent. *)
Definition row_keys (p : provenance) : list (string * string * Z) :=
  match prov_file p, prov_sheet p, prov_index p with
  | Some files, Some sheets, Some idxs => combine (combine files sheets) idxs
  | _, _, _ => []
  end.

(** The verdict line of the report. *)
Definition verdict_line (success : bool) : string :=
  if success
  then "✅ RESULTADO: SUCESSO - Integridade validada com sucesso!"
  else "❌ RESULTADO: FALHA - Discrepância encontrada na consolidação!".

(* ================================================================= *)
(** ** [app.py] *)

(** A value that the loop of [consolidate_data] meets when it iterates
    its argument.  Python does not check that it is a data frame: the
    loop reads [df.empty], which raises [AttributeError] on a generator
    and on a list. *)
Inductive pyvalue : Type :=
| PyFrame (df : frame)
| PyGenerator (tables : list frame)
| PyList (entries : list manifest_entry).

Inductive app_error : Type :=
| AttributeError
| Propagated (e : exn).

(** The items of the argument as data frames; [None] when the discovery
    loop meets an item without the attribute [empty]. *)
Fixpoint frames_of (items : list pyvalue) : option (list frame) :=
  match items with
  | [] => Some []
  | PyFrame df :: rest =>
      match frames_of rest with
      | Some dfs => Some (df :: dfs)
      | None => None
      end
  | _ :: _ => None
  end.

Section App.
Variable set_iteration : list string -> list string.
Variable store_accepts : list string -> bool.

(** [consolidate_data] on an iterable of any values: the discovery loop
    runs over all the items before anything else is done. *)
Definition consolidate_items (items : list pyvalue)
  : (frame * string) + app_error :=
  match frames_of items with
  | None => inr AttributeError
  | Some dataframes =>
      match consolidate_data set_iteration store_accepts dataframes with
      | Ok r => inl r
      | Raise e => inr (Propagated e)
      end
  end.

(** The handler of the button of [app.py]: the pair that
    [parse_excel_files] returns is handed, as it is, to
    [consolidate_data]; the result is what the session keeps, [None]
    when an exception was caught and [processed] set to false. *)
Definition press_consolidate (uploaded_files : list uploaded_file)
  : option (frame * string) :=
  let dataframes_generator := parse_excel_files uploaded_files in
  match consolidate_items [ PyGenerator (fst dataframes_generator);
                            PyList (snd dataframes_generator) ] with
  | inl (final_df, report_log) => Some (final_df, report_log)
  | inr _ => None
  end.
End App.

(** The columns of a block that hold a value in one of its rows. *)
Definition block_mask (w : nat) (b : list (list cell)) : list bool :=
  map (fun j => existsb (fun r => negb (is_null (nth j r CNaN))) b) (seq 0 w).

(** The table of a block: its first row, without the columns that are
    blank in the whole block, names the columns; its other rows,
    without these columns, are the data; the provenance comes first. *)
Definition table_of_block (file title : string) (w table_idx : nat)
  (b : list (list cell)) : frame :=
  let mask := block_mask w b in
  {| columns :=
       map LStr (traceability_cols ++ header_names (select mask (hd [] b)));
     rows :=
       map (fun r => with_provenance file title table_idx (select mask r)) (tl b) |}.

Fixpoint tables_of_data_blocks (file title : string) (w table_idx : nat)
  (bs : list (list (list cell))) : list frame :=
  match bs with
  | [] => []
  | b :: bs' =>
      table_of_block file title w table_idx b
      :: tables_of_data_blocks file title w (S table_idx) bs'
  end.

(* ================================================================= *)
(** * Properties *)

(** ** Total orders *)

#[export] Instance N_total : TotalOrder N.compare.
Proof.
  split.
  - intros a b. apply N.compare_eq_iff.
  - intros a b. apply N.compare_antisym.
  - intros a b c. rewrite !N.compare_lt_iff. lia.
Qed.

#[export] Instance ascii_total : TotalOrder Ascii.compare.
Proof.
  split.
  - intros a b. split.
    + apply Ascii.compare_eq_iff.
    + intros ->. unfold Ascii.compare. apply N.compare_refl.
  - intros a b. apply Ascii.compare_antisym.
  - intros a b c. unfold Ascii.compare. rewrite !N.compare_lt_iff. lia.
Qed.

Lemma string_compare_refl (s : string) : String.compare s s = Eq.
Proof.
  induction s as [|c s IH]; simpl; [reflexivity|].
  now rewrite (proj2 (cmp_eq c c) eq_refl).
Qed.

Lemma string_compare_lt_trans (a b c : string) :
  String.compare a b = Lt -> String.compare b c = Lt -> String.compare a c = Lt.
Proof.
  revert b c. induction a as [|x a IH]; intros [|y b] [|z c]; simpl; try congruence.
  destruct (Ascii.compare x y) eqn:Hxy; try discriminate.
  - apply cmp_eq in Hxy. subst y.
    destruct (Ascii.compare x z); try congruence. apply IH.
  - intros _. destruct (Ascii.compare y z) eqn:Hyz; try discriminate.
    + apply cmp_eq in Hyz. subst z. now rewrite Hxy.
    + now rewrite (cmp_lt_trans _ _ _ Hxy Hyz).
Qed.

#[export] Instance string_total : TotalOrder String.compare.
Proof.
  split.
  - intros a b. split.
    + apply String.compare_eq_iff.
    + intros ->. apply string_compare_refl.
  - intros a b. rewrite (String.compare_antisym a b).
    now destruct (String.compare b a).
  - apply string_compare_lt_trans.
Qed.

#[export] Instance frag_total : TotalOrder frag_compare.
Proof.
  split.
  - intros [s|n] [t|m]; simpl; try (split; discriminate).
    + rewrite cmp_eq. split; congruence.
    + rewrite cmp_eq. split; congruence.
  - intros [s|n] [t|m]; simpl; try reflexivity; apply cmp_opp.
  - intros [s|n] [t|m] [u|p]; simpl; try discriminate; try reflexivity;
      apply cmp_lt_trans.
Qed.

Section LexOrder.
Context {A : Type} (cmp : A -> A -> comparison) `{!TotalOrder cmp}.

Lemma lex_compare_eq (l1 l2 : list A) : lex_compare cmp l1 l2 = Eq <-> l1 = l2.
Proof.
  revert l2. induction l1 as [|a l1 IH]; intros [|b l2]; simpl;
    try (split; discriminate); [tauto|].
  destruct (cmp a b) eqn:Hab.
  - apply cmp_eq in Hab. subst b. rewrite IH. split; congruence.
  - split; [discriminate|]. intros [= -> _].
    rewrite (proj2 (cmp_eq b b) eq_refl) in Hab. discriminate.
  - split; [discriminate|]. intros [= -> _].
    rewrite (proj2 (cmp_eq b b) eq_refl) in Hab. discriminate.
Qed.

Lemma lex_compare_opp (l1 l2 : list A) :
  lex_compare cmp l2 l1 = CompOpp (lex_compare cmp l1 l2).
Proof.
  revert l2. induction l1 as [|a l1 IH]; intros [|b l2]; simpl; try reflexivity.
  rewrite (cmp_opp (cmp:=cmp) a b). destruct (cmp a b); simpl; auto.
Qed.

Lemma lex_compare_lt_trans (l1 l2 l3 : list A) :
  lex_compare cmp l1 l2 = Lt -> lex_compare cmp l2 l3 = Lt ->
  lex_compare cmp l1 l3 = Lt.
Proof.
  revert l2 l3.
  induction l1 as [|x l1 IH]; intros [|y l2] [|z l3]; simpl; try congruence.
  destruct (cmp x y) eqn:Hxy; try discriminate.
  - apply cmp_eq in Hxy. subst y.
    destruct (cmp x z); try congruence. apply IH.
  - intros _. destruct (cmp y z) eqn:Hyz; try discriminate.
    + apply cmp_eq in Hyz. subst z. now rewrite Hxy.
    + now rewrite (cmp_lt_trans _ _ _ Hxy Hyz).
Qed.

#[export] Instance lex_total : TotalOrder (lex_compare cmp).
Proof.
  split.
  - apply lex_compare_eq.
  - apply lex_compare_opp.
  - apply lex_compare_lt_trans.
Qed.
End LexOrder.

#[export] Instance key_total : TotalOrder key_compare.
Proof. unfold key_compare. apply lex_total. exact frag_total. Qed.

(** Consequences used by the sort: "not greater" is a total preorder. *)
Section OrderFacts.
Context {A : Type} (cmp : A -> A -> comparison) `{!TotalOrder cmp}.

Lemma cmp_refl (a : A) : cmp a a = Eq.
Proof. now apply cmp_eq. Qed.

Lemma cmp_gt_lt (a b : A) : cmp a b = Gt <-> cmp b a = Lt.
Proof.
  rewrite (cmp_opp (cmp:=cmp) a b).
  destruct (cmp a b); simpl; split; congruence.
Qed.

Lemma is_lt_asym (a b : A) : is_lt (cmp a b) = true -> is_lt (cmp b a) = false.
Proof. rewrite (cmp_opp (cmp:=cmp) a b). now destruct (cmp a b). Qed.

(** [a <= b] and [b <= c] give [a <= c], with [x <= y] read as
    "[y < x] is false". *)
Lemma is_lt_le_trans (a b c : A) :
  is_lt (cmp b a) = false -> is_lt (cmp c b) = false -> is_lt (cmp c a) = false.
Proof.
  intros Hab Hbc.
  destruct (cmp c a) eqn:Hca; try reflexivity. exfalso.
  destruct (cmp b a) eqn:Hba; try discriminate.
  - apply cmp_eq in Hba. subst b. now rewrite Hca in Hbc.
  - apply cmp_gt_lt in Hba.
    rewrite (cmp_lt_trans _ _ _ Hca Hba) in Hbc. discriminate.
Qed.

Lemma is_lt_antisym (a b : A) :
  is_lt (cmp b a) = false -> is_lt (cmp a b) = false -> a = b.
Proof.
  intros H1 H2. apply cmp_eq.
  destruct (cmp a b) eqn:Hab; try reflexivity; try discriminate.
  apply cmp_gt_lt in Hab. now rewrite Hab in H1.
Qed.
End OrderFacts.

(** ** The insertion sort *)

Section SortFacts.
Context {A : Type} (ltb : A -> A -> bool).

Let le (a b : A) : Prop := ltb b a = false.

Hypothesis ltb_asym : forall a b, ltb a b = true -> ltb b a = false.
Hypothesis le_trans : forall a b c, le a b -> le b c -> le a c.

Lemma insert_perm (x : A) (l : list A) : Permutation (insert ltb x l) (x :: l).
Proof.
  induction l as [|y l IH]; simpl; [reflexivity|].
  destruct (ltb y x); [|reflexivity].
  rewrite IH. apply perm_swap.
Qed.

Lemma isort_perm (l : list A) : Permutation (isort ltb l) l.
Proof.
  induction l as [|x l IH]; simpl; [reflexivity|].
  rewrite insert_perm. now constructor.
Qed.

Lemma insert_sorted (x : A) (l : list A) :
  StronglySorted le l -> StronglySorted le (insert ltb x l).
Proof.
  induction 1 as [|y l Hl IH Hy]; simpl.
  - repeat constructor.
  - destruct (ltb y x) eqn:Hyx.
    + constructor; [exact IH|].
      rewrite Forall_forall. intros z Hz.
      apply (Permutation_in _ (insert_perm x l)) in Hz.
      destruct Hz as [<-|Hz].
      * now apply ltb_asym.
      * rewrite Forall_forall in Hy. now apply Hy.
    + constructor; [now constructor|].
      constructor; [exact Hyx|].
      rewrite Forall_forall in *. intros z Hz.
      apply le_trans with y; [exact Hyx|now apply Hy].
Qed.

Lemma isort_sorted (l : list A) : StronglySorted le (isort ltb l).
Proof.
  induction l as [|x l IH]; simpl; [constructor|now apply insert_sorted].
Qed.

(** A sorted arrangement is unique when the members that the order
    ties are equal. *)
Lemma sorted_perm_unique (l1 l2 : list A) :
  (forall a b, In a l1 -> In b l1 -> le a b -> le b a -> a = b) ->
  StronglySorted le l1 -> StronglySorted le l2 -> Permutation l1 l2 ->
  l1 = l2.
Proof.
  revert l2. induction l1 as [|a l1 IH]; intros l2 Hanti H1 H2 HP.
  - apply Permutation_nil in HP. now subst.
  - destruct l2 as [|b l2].
    { apply Permutation_sym, Permutation_nil in HP. discriminate. }
    inversion H1 as [|? ? H1' Ha]; subst.
    inversion H2 as [|? ? H2' Hb]; subst.
    rewrite Forall_forall in Ha, Hb.
    assert (a = b) as ->.
    { assert (Hin : In a (b :: l2)) by (apply (Permutation_in _ HP); now left).
      assert (Hin' : In b (a :: l1))
        by (apply (Permutation_in _ (Permutation_sym HP)); now left).
      destruct Hin as [->|Hin]; [reflexivity|].
      destruct Hin' as [->|Hin']; [reflexivity|].
      apply Hanti; [now left|now right|now apply Ha|now apply Hb]. }
    f_equal. apply IH.
    + intros x y Hx Hy. apply Hanti; now right.
    + exact H1'.
    + exact H2'.
    + now apply Permutation_cons_inv in HP.
Qed.

(** The sort is a function of the set it is given, under the same
    condition. *)
Lemma isort_perm_invariant (l1 l2 : list A) :
  (forall a b, In a l1 -> In b l1 -> le a b -> le b a -> a = b) ->
  Permutation l1 l2 -> isort ltb l1 = isort ltb l2.
Proof.
  intros Hanti HP. apply sorted_perm_unique.
  - intros a b Ha Hb. apply Hanti; now apply (Permutation_in _ (isort_perm l1)).
  - apply isort_sorted.
  - apply isort_sorted.
  - rewrite !isort_perm. exact HP.
Qed.
End SortFacts.

(** Where no comparison raises, the sort that may raise is the total one. *)
Section SortAgree.
Context {A : Type} (lt : A -> A -> option bool) (ltb : A -> A -> bool).

Lemma insert_opt_total (x : A) (l : list A) :
  (forall y, In y l -> lt y x = Some (ltb y x)) ->
  insert_opt lt x l = Some (insert ltb x l).
Proof.
  induction l as [|y l IH]; intros H; simpl; [reflexivity|].
  rewrite (H y) by now left.
  destruct (ltb y x); [|reflexivity].
  rewrite IH; [reflexivity|]. intros z Hz. apply H. now right.
Qed.

Lemma sort_opt_total (l : list A) :
  (forall a b, In a l -> In b l -> lt a b = Some (ltb a b)) ->
  sort_opt lt l = Some (isort ltb l).
Proof.
  induction l as [|x l IH]; intros H; simpl; [reflexivity|].
  rewrite IH by (intros a b Ha Hb; apply H; now right).
  apply insert_opt_total. intros y Hy. apply H; [right|now left].
  revert Hy. clear. revert y.
  induction l as [|z l IHl]; simpl; [tauto|].
  intros y Hy.
  assert (Hins : forall w t, In y (insert ltb w t) -> y = w \/ In y t).
  { clear. intros w t. induction t as [|u t IHt]; simpl.
    - intros [->|[]]; now left.
    - destruct (ltb u w); simpl.
      + intros [->|Hy]; [right; now left|].
        destruct (IHt Hy) as [->|Hy']; [now left|right; now right].
      + intros [->|[->|Hy]]; [now left|right; now left|right; now right]. }
  destruct (Hins _ _ Hy) as [->|Hy']; [now left|right; now apply IHl].
Qed.
End SortAgree.

(** ** Filters and the insertion sort *)

Lemma filter_filter {A : Type} (f g : A -> bool) (l : list A) :
  filter g (filter f l) = filter (fun x => f x && g x) l.
Proof.
  induction l as [|x l IH]; simpl; [reflexivity|].
  destruct (f x); simpl; [destruct (g x)|]; now rewrite IH.
Qed.

Lemma filter_all {A : Type} (f : A -> bool) (l : list A) :
  (forall x, In x l -> f x = true) -> filter f l = l.
Proof.
  intros H. apply forallb_filter_id. now apply forallb_forall.
Qed.

Lemma filter_none {A : Type} (f : A -> bool) (l : list A) :
  (forall x, In x l -> f x = false) -> filter f l = [].
Proof.
  induction l as [|x l IH]; intros H; simpl; [reflexivity|].
  rewrite (H x) by now left. apply IH. intros y Hy. apply H. now right.
Qed.

Section FilterSort.
Context {A : Type} (ltb : A -> A -> bool).

Let le (a b : A) : Prop := ltb b a = false.

Hypothesis ltb_asym : forall a b, ltb a b = true -> ltb b a = false.
Hypothesis le_trans : forall a b c, le a b -> le b c -> le a c.

Lemma insert_below (x : A) (l : list A) :
  Forall (le x) l -> insert ltb x l = x :: l.
Proof.
  destruct l as [|y l]; [reflexivity|]. intros H. simpl.
  inversion H as [|? ? Hy _]; subst. unfold le in Hy. now rewrite Hy.
Qed.

(** A sorted list is left as it is. *)
Lemma isort_sorted_id (l : list A) : StronglySorted le l -> isort ltb l = l.
Proof.
  induction 1 as [|x l _ IH Hx]; simpl; [reflexivity|].
  rewrite IH. now apply insert_below.
Qed.

Lemma filter_insert (f : A -> bool) (x : A) (l : list A) :
  StronglySorted le l ->
  filter f (insert ltb x l)
  = if f x then insert ltb x (filter f l) else filter f l.
Proof.
  induction 1 as [|y l Hl IH Hy]; simpl.
  - now destruct (f x).
  - destruct (ltb y x) eqn:Hyx; simpl.
    + rewrite IH. destruct (f y), (f x); simpl; try reflexivity.
      now rewrite Hyx.
    + destruct (f x) eqn:Hfx; [|reflexivity].
      symmetry. apply (insert_below x (filter f (y :: l))).
      rewrite Forall_forall. intros z Hz. apply filter_In in Hz as [Hz _].
      destruct Hz as [<-|Hz]; [exact Hyx|].
      rewrite Forall_forall in Hy. apply le_trans with y; [exact Hyx|now apply Hy].
Qed.

(** Sorting and then dropping members is dropping them and then
    sorting: the sort is stable. *)
Lemma filter_isort (f : A -> bool) (l : list A) :
  filter f (isort ltb l) = isort ltb (filter f l).
Proof.
  induction l as [|x l IH]; simpl; [reflexivity|].
  rewrite filter_insert by now apply isort_sorted.
  destruct (f x); simpl; now rewrite IH.
Qed.
End FilterSort.

(** ** Characters *)

Lemma join_app (l1 l2 : list string) : join (l1 ++ l2) = (join l1 ++ join l2)%string.
Proof.
  induction l1 as [|x l1 IH]; simpl; [reflexivity|].
  rewrite IH. clear. induction x as [|c x IH]; simpl; [reflexivity|now rewrite IH].
Qed.

Lemma join_singles (s : string) : join (singles s) = s.
Proof. induction s as [|b s IH]; simpl; [reflexivity|now rewrite IH]. Qed.

Lemma append_assoc (a b c : string) : ((a ++ b) ++ c = a ++ (b ++ c))%string.
Proof. induction a as [|x a IH]; simpl; [reflexivity|now rewrite IH]. Qed.

Lemma append_nil_r (a : string) : (a ++ "")%string = a.
Proof. induction a as [|x a IH]; simpl; [reflexivity|now rewrite IH]. Qed.

Lemma split_chars_join (s : string) :
  (fst (split_chars s) ++ join (snd (split_chars s)))%string = s.
Proof.
  induction s as [|b s IH]; simpl; [reflexivity|].
  destruct (split_chars s) as [pre cs]. simpl in IH.
  destruct (is_continuation b); [simpl; now rewrite IH|].
  destruct (is_lead b); simpl.
  - now rewrite IH.
  - now rewrite join_app, join_singles, IH.
Qed.

(** The characters of a text, put together, are the text. *)
Lemma join_chars (s : string) : join (chars s) = s.
Proof.
  unfold chars. assert (H := split_chars_join s).
  destruct (split_chars s) as [pre cs]. simpl in H.
  now rewrite join_app, join_singles.
Qed.

Lemma lead_not_continuation (b : ascii) :
  is_lead b = true -> is_continuation b = false.
Proof.
  unfold is_lead, is_continuation. cbv zeta. intros H.
  apply N.leb_le in H.
  destruct (N.ltb_spec (N_of_ascii b) 192); [lia|]. now rewrite andb_false_r.
Qed.

Lemma split_chars_continuation (s : string) :
  all_continuation (fst (split_chars s)) = true.
Proof.
  induction s as [|b s IH]; simpl; [reflexivity|].
  destruct (split_chars s) as [pre cs]. simpl in IH.
  destruct (is_continuation b) eqn:Hb; [simpl; now rewrite Hb|].
  now destruct (is_lead b).
Qed.

Lemma split_chars_fresh (t : string) :
  continues t = false -> split_chars t = (EmptyString, chars t).
Proof.
  unfold chars. destruct t as [|b t]; simpl; [reflexivity|].
  intros ->. destruct (split_chars t) as [pre cs]. now destruct (is_lead b).
Qed.

Lemma split_chars_app (s t : string) :
  continues t = false ->
  split_chars (s ++ t) = (fst (split_chars s), snd (split_chars s) ++ chars t).
Proof.
  intros Ht. induction s as [|b s IH]; simpl.
  - now apply split_chars_fresh.
  - rewrite IH. destruct (split_chars s) as [pre cs]. simpl.
    destruct (is_continuation b); [reflexivity|].
    destruct (is_lead b); [reflexivity|]. simpl. now rewrite app_assoc.
Qed.

(** The characters of two texts put together are the characters of the
    one followed by those of the other, when the second does not begin
    in the middle of a character. *)
Lemma chars_app (s t : string) :
  continues t = false -> chars (s ++ t) = chars s ++ chars t.
Proof.
  intros Ht. unfold chars at 1 2. rewrite (split_chars_app s t Ht).
  destruct (split_chars s) as [pre cs]. simpl. now rewrite app_assoc.
Qed.

Lemma chars_cons_plain (b : ascii) (s : string) :
  is_continuation b = false -> is_lead b = false ->
  chars (String b s) = String b EmptyString :: chars s.
Proof.
  intros Hc Hl. unfold chars. simpl. rewrite Hc, Hl.
  now destruct (split_chars s) as [pre cs].
Qed.

Lemma wf_chars_weaken (b : bool) (l : list string) :
  wf_chars b l = true -> wf_chars false l = true.
Proof.
  destruct l as [|ch l]; simpl; [reflexivity|].
  intros H. apply andb_prop in H as [H H2]. apply andb_prop in H as [H1 _].
  now rewrite H1, H2, andb_false_r.
Qed.

Lemma wf_chars_app (b : bool) (l1 l2 : list string) :
  wf_chars b (l1 ++ l2) = true ->
  wf_chars b l1 = true /\ wf_chars false l2 = true.
Proof.
  revert b. induction l1 as [|ch l1 IH]; intros b; simpl.
  - intros H. split; [reflexivity|]. now apply wf_chars_weaken in H.
  - intros H. apply andb_prop in H as [H H2]. rewrite H. simpl.
    now apply IH.
Qed.

Lemma wf_chars_singles (pre : string) (cs : list string) :
  all_continuation pre = true -> wf_chars true cs = true ->
  wf_chars false (singles pre ++ cs) = true.
Proof.
  induction pre as [|b pre IH]; simpl; intros Hp Hcs.
  - now apply wf_chars_weaken in Hcs.
  - apply andb_prop in Hp as [Hb Hp].
    assert (Hl : is_lead b = false).
    { destruct (is_lead b) eqn:E; [|reflexivity].
      apply lead_not_continuation in E. congruence. }
    rewrite Hl, andb_false_r. simpl. now apply IH.
Qed.

Lemma wf_chars_split (s : string) : wf_chars true (snd (split_chars s)) = true.
Proof.
  induction s as [|b s IH]; simpl; [reflexivity|].
  assert (Hp := split_chars_continuation s).
  destruct (split_chars s) as [pre cs]. simpl in *.
  destruct (is_continuation b) eqn:Hb; [exact IH|].
  destruct (is_lead b) eqn:Hl.
  - assert (Hs : stray (String b pre) = false).
    { destruct pre; simpl; [exact Hb|reflexivity]. }
    cbn [snd wf_chars group opens]. now rewrite Hl, Hp, Hs, IH.
  - cbn [snd wf_chars group opens stray is_empty]. rewrite Hl, Hb. simpl.
    now apply wf_chars_singles.
Qed.

Lemma wf_chars_chars (s : string) : wf_chars false (chars s) = true.
Proof.
  unfold chars. assert (Hp := split_chars_continuation s).
  assert (Hw := wf_chars_split s).
  destruct (split_chars s) as [pre cs]. now apply wf_chars_singles.
Qed.

Lemma split_chars_continued (t r : string) :
  all_continuation t = true ->
  split_chars (t ++ r)
  = ((t ++ fst (split_chars r))%string, snd (split_chars r)).
Proof.
  induction t as [|b t IH]; simpl; intros H.
  - now destruct (split_chars r).
  - apply andb_prop in H as [Hb Ht]. rewrite (IH Ht), Hb. reflexivity.
Qed.

(** A well-formed list of characters is the list of the characters of
    its text. *)
Lemma chars_join (l : list string) : wf_chars false l = true -> chars (join l) = l.
Proof.
  induction l as [|ch l IH]; [reflexivity|].
  cbn [wf_chars join fold_right]. intros H.
  apply andb_prop in H as [H Hw]. apply andb_prop in H as [Hg _].
  assert (IH' := IH (wf_chars_weaken _ _ Hw)).
  fold (join l) in *.
  destruct ch as [|a t]; [discriminate|]. cbn [group opens] in Hg, Hw.
  destruct (is_lead a) eqn:Hl.
  - unfold chars. cbn [append split_chars].
    rewrite (split_chars_continued t (join l) Hg).
    assert (Hp := split_chars_continuation (join l)).
    unfold chars in IH'.
    destruct (split_chars (join l)) as [pre cs]. cbn [fst snd] in *.
    rewrite (lead_not_continuation a Hl), Hl.
    destruct pre as [|c pre].
    + simpl in IH'. subst cs. now rewrite append_nil_r.
    + exfalso. simpl in IH'. subst l. simpl in Hp, Hw.
      apply andb_prop in Hp as [Hc _]. rewrite Hc in Hw.
      rewrite andb_true_r in Hw. simpl in Hw.
      destruct (is_lead c) eqn:E; simpl in Hw; try discriminate.
      all: try (apply lead_not_continuation in E; congruence).
  - destruct t; [|discriminate]. cbn [append].
    unfold chars in *. cbn [split_chars].
    destruct (split_chars (join l)) as [pre cs].
    rewrite Hl. destruct (is_continuation a); simpl; now rewrite IH'.
Qed.

(** ** Classes of characters *)

(** On a character of one byte the classes are the ASCII ones. *)
Lemma isdecimal_char_byte (a : ascii) :
  isdecimal_char (String a EmptyString) = is_digit a.
Proof. destruct a as [[] [] [] [] [] [] [] []]; vm_compute; reflexivity. Qed.

Lemma isdigit_char_byte (a : ascii) :
  isdigit_char (String a EmptyString) = is_digit a.
Proof. destruct a as [[] [] [] [] [] [] [] []]; vm_compute; reflexivity. Qed.

Lemma isspace_char_byte (a : ascii) :
  isspace_char (String a EmptyString) = is_space a.
Proof. destruct a as [[] [] [] [] [] [] [] []]; vm_compute; reflexivity. Qed.

Lemma decimal_value_byte (a : ascii) :
  is_digit a = true -> decimal_value (String a EmptyString) = (N_of_ascii a - 48)%N.
Proof.
  destruct a as [[] [] [] [] [] [] [] []]; vm_compute; reflexivity || discriminate.
Qed.

Lemma digit_plain (a : ascii) : is_digit a = true -> plain a = true.
Proof. destruct a as [[] [] [] [] [] [] [] []]; vm_compute; reflexivity || discriminate. Qed.


Lemma digit_not_space (c : ascii) : is_digit c = true -> is_space c = false.
Proof. destruct c as [[] [] [] [] [] [] [] []]; vm_compute; reflexivity || discriminate. Qed.

Lemma decimal_digit (ch : string) : isdecimal_char ch = true -> isdigit_char ch = true.
Proof. unfold isdigit_char. now intros ->. Qed.

(** No run of decimal digits meets the white space, and no other digit
    does. *)
Lemma decimal_runs_clear_of_space :
  forallb (fun z => forallb (fun r => ((z + 9 <? fst r) || (snd r <? z))%N) WHITE_SPACE)
          DECIMAL_ZEROS = true.
Proof. vm_compute. reflexivity. Qed.

Lemma other_digits_clear_of_space :
  forallb (fun d => forallb (fun r => ((snd d <? fst r) || (snd r <? fst d))%N) WHITE_SPACE)
          OTHER_DIGITS = true.
Proof. vm_compute. reflexivity. Qed.

Lemma other_digits_clear_of_decimal :
  forallb (fun z => forallb (fun r => ((z + 9 <? fst r) || (snd r <? z))%N) OTHER_DIGITS)
          DECIMAL_ZEROS = true.
Proof. vm_compute. reflexivity. Qed.

Lemma decimal_zero_spec (cp z : N) :
  decimal_zero cp = Some z -> In z DECIMAL_ZEROS /\ (z <= cp < z + 10)%N.
Proof.
  unfold decimal_zero. intros H. apply find_some in H as [Hin H].
  apply andb_prop in H as [H1 H2].
  apply N.leb_le in H1. apply N.ltb_lt in H2. now split.
Qed.

Lemma in_ranges_spec (ranges : list (N * N)) (cp : N) :
  in_ranges ranges cp = true ->
  exists r, In r ranges /\ (fst r <= cp <= snd r)%N.
Proof.
  unfold in_ranges. intros H. apply existsb_exists in H as (r & Hr & H).
  apply andb_prop in H as [H1 H2].
  apply N.leb_le in H1. apply N.leb_le in H2. now exists r.
Qed.

Lemma decimal_not_space (ch : string) :
  isdecimal_char ch = true -> isspace_char ch = false.
Proof.
  unfold isdecimal_char, isspace_char.
  destruct (code_point ch) as [cp|]; [|discriminate].
  destruct (decimal_zero cp) as [z|] eqn:Hz; [|discriminate]. intros _.
  apply decimal_zero_spec in Hz as [Hin Hz].
  destruct (in_ranges WHITE_SPACE cp) eqn:Hs; [|reflexivity]. exfalso.
  apply in_ranges_spec in Hs as (r & Hr & Hs).
  assert (H := decimal_runs_clear_of_space).
  rewrite forallb_forall in H. specialize (H z Hin).
  rewrite forallb_forall in H. specialize (H r Hr).
  apply orb_prop in H as [H|H]; apply N.ltb_lt in H; lia.
Qed.

Lemma digit_char_not_space (ch : string) :
  isdigit_char ch = true -> isspace_char ch = false.
Proof.
  unfold isdigit_char. intros H. apply orb_prop in H as [H|H].
  - now apply decimal_not_space.
  - unfold isspace_char. destruct (code_point ch) as [cp|]; [|reflexivity].
    destruct (in_ranges WHITE_SPACE cp) eqn:Hs; [|reflexivity]. exfalso.
    apply in_ranges_spec in H as (d & Hd & H).
    apply in_ranges_spec in Hs as (r & Hr & Hs).
    assert (Hc := other_digits_clear_of_space).
    rewrite forallb_forall in Hc. specialize (Hc d Hd).
    rewrite forallb_forall in Hc. specialize (Hc r Hr).
    apply orb_prop in Hc as [Hc|Hc]; apply N.ltb_lt in Hc; lia.
Qed.

(** A text of ASCII bytes has one character for each byte. *)
Lemma chars_plain (s : string) : all_chars plain s = true -> chars s = singles s.
Proof.
  induction s as [|b s IH]; [reflexivity|]. simpl. intros H.
  apply andb_prop in H as [Hb Hs]. unfold plain in Hb.
  apply andb_prop in Hb as [Hc Hl].
  apply negb_true_iff in Hc. apply negb_true_iff in Hl.
  rewrite (chars_cons_plain b s Hc Hl). now rewrite IH.
Qed.

Lemma all_chars_weaken (p q : ascii -> bool) (s : string) :
  (forall c, p c = true -> q c = true) ->
  all_chars p s = true -> all_chars q s = true.
Proof.
  intros Hpq. induction s as [|c s IH]; simpl; [reflexivity|].
  intros H. apply andb_prop in H as [Hc Hs]. now rewrite (Hpq c Hc), IH.
Qed.

Lemma forallb_singles (p : ascii -> bool) (q : string -> bool) (s : string) :
  (forall c, q (String c EmptyString) = p c) ->
  forallb q (singles s) = all_chars p s.
Proof.
  intros H. induction s as [|c s IH]; simpl; [reflexivity|]. now rewrite H, IH.
Qed.

Lemma plain_continues (s : string) (c : ascii) :
  plain c = true -> continues (String c s) = false.
Proof.
  unfold plain. simpl. intros H. apply andb_prop in H as [H _].
  now apply negb_true_iff in H.
Qed.

Lemma all_plain_continues (s : string) : all_chars plain s = true -> continues s = false.
Proof.
  destruct s as [|c s]; [reflexivity|]. simpl. intros H.
  apply andb_prop in H as [H _]. now apply (plain_continues s).
Qed.

(** ** Stripping *)


Lemma drop_space_snoc (m : list string) (ch : string) :
  isspace_char ch = false -> drop_space (m ++ [ch]) = drop_space m ++ [ch].
Proof.
  intros Hc. induction m as [|x m IH]; simpl; [now rewrite Hc|].
  destruct (isspace_char x); [exact IH|reflexivity].
Qed.

Lemma drop_space_suffix (l : list string) :
  exists u, l = u ++ drop_space l /\ forallb isspace_char u = true.
Proof.
  induction l as [|ch l (u & Hu & Hs)]; simpl.
  - now exists [].
  - destruct (isspace_char ch) eqn:Hc.
    + exists (ch :: u). simpl. rewrite Hc, Hs. split; [now f_equal|reflexivity].
    + now exists [].
Qed.


Lemma rdrop_space_cons (ch : string) (l : list string) :
  isspace_char ch = false -> rdrop_space (ch :: l) = ch :: rdrop_space l.
Proof.
  intros H. unfold rdrop_space. simpl.
  rewrite (drop_space_snoc _ _ H), rev_app_distr. reflexivity.
Qed.

Lemma rdrop_space_prefix (l : list string) :
  exists v, l = rdrop_space l ++ v /\ forallb isspace_char v = true.
Proof.
  unfold rdrop_space. destruct (drop_space_suffix (rev l)) as (u & Hu & Hs).
  exists (rev u). split.
  - rewrite <- rev_app_distr, <- Hu. now rewrite rev_involutive.
  - rewrite forallb_forall in *. intros x Hx. apply Hs. now apply in_rev.
Qed.

Lemma strip_chars_eq (l : list string) : strip_chars l = rdrop_space (drop_space l).
Proof. reflexivity. Qed.

(** What is left of the characters of a text after stripping. *)
Lemma strip_chars_split (l : list string) :
  exists u v, l = u ++ strip_chars l ++ v
              /\ forallb isspace_char u = true /\ forallb isspace_char v = true.
Proof.
  destruct (drop_space_suffix l) as (u & Hu & Hsu).
  destruct (rdrop_space_prefix (drop_space l)) as (v & Hv & Hsv).
  exists u, v. rewrite strip_chars_eq. now rewrite <- Hv.
Qed.

Lemma wf_chars_strip (l : list string) :
  wf_chars false l = true -> wf_chars false (strip_chars l) = true.
Proof.
  intros H. destruct (strip_chars_split l) as (u & v & Hl & _).
  rewrite Hl in H. apply wf_chars_app in H as [_ H].
  now apply wf_chars_app in H as [H _].
Qed.

(** The characters of a stripped text. *)
Lemma chars_strip (s : string) : chars (strip s) = strip_chars (chars s).
Proof. apply chars_join, wf_chars_strip, wf_chars_chars. Qed.


Lemma strip_chars_keep (ch : string) (l : list string) :
  isspace_char ch = false ->
  strip_chars (ch :: l) = ch :: rdrop_space l.
Proof.
  intros H. rewrite strip_chars_eq. simpl. rewrite H.
  now apply rdrop_space_cons.
Qed.

Lemma rdrop_space_id (l : list string) :
  forallb (fun ch => negb (isspace_char ch)) l = true -> rdrop_space l = l.
Proof.
  induction l as [|ch l IH]; [reflexivity|]. simpl. intros H.
  apply andb_prop in H as [Hc Hl]. apply negb_true_iff in Hc.
  now rewrite (rdrop_space_cons ch l Hc), IH.
Qed.

Lemma strip_chars_id (l : list string) :
  forallb (fun ch => negb (isspace_char ch)) l = true -> strip_chars l = l.
Proof.
  intros H. destruct l as [|ch l]; [reflexivity|].
  assert (H' := H). simpl in H'. apply andb_prop in H' as [Hc Hl].
  apply negb_true_iff in Hc.
  rewrite (strip_chars_keep ch l Hc). f_equal. now apply rdrop_space_id.
Qed.

(** ** Layout of natural keys *)

Lemma isdigit_chars_decimal (part : list string) :
  nonempty part = true -> forallb isdecimal_char part = true ->
  isdigit_chars part = true.
Proof.
  unfold isdigit_chars. intros -> H. simpl.
  rewrite forallb_forall in *. intros x Hx. now apply decimal_digit, H.
Qed.

Lemma text_not_decimal (part : list string) :
  nonempty part = true ->
  forallb (fun ch => negb (isdecimal_char ch)) part = true ->
  forallb isdecimal_char part = false.
Proof.
  destruct part as [|ch part]; [discriminate|]. simpl. intros _ H.
  apply andb_prop in H as [H _]. apply negb_true_iff in H. now rewrite H.
Qed.

Lemma forallb_snoc {A : Type} (p : A -> bool) (l : list A) (x : A) :
  forallb p (l ++ [x]) = forallb p l && p x.
Proof. rewrite forallb_app. simpl. now rewrite andb_true_r. Qed.

Lemma nonempty_snoc {A : Type} (l : list A) (x : A) : nonempty (l ++ [x]) = true.
Proof. now destruct l. Qed.

(** The key of one part, when the rest has a key. *)
Lemma key_of_parts_text (part : list string) (rest : list (list string)) :
  nonempty part = true ->
  forallb (fun ch => negb (isdecimal_char ch)) part = true ->
  key_of_parts (part :: rest)
  = if isdigit_chars part then Raise ValueError
    else match key_of_parts rest with
         | Raise e => Raise e
         | Ok k => Ok (FStr (join part) :: k)
         end.
Proof.
  intros Hne Hall. cbn [key_of_parts]. unfold int_of_part.
  rewrite (text_not_decimal part Hne Hall), Hne.
  now destruct (isdigit_chars part).
Qed.

Lemma key_of_parts_digits (part : list string) (rest : list (list string)) :
  nonempty part = true -> forallb isdecimal_char part = true ->
  key_of_parts (part :: rest)
  = match key_of_parts rest with
    | Raise e => Raise e
    | Ok k => Ok (FInt (int_of_chars part) :: k)
    end.
Proof.
  intros Hne Hall. cbn [key_of_parts]. unfold int_of_part.
  now rewrite (isdigit_chars_decimal part Hne Hall), Hall.
Qed.

(** [natural_sort_key] raises nothing but [ValueError]. *)
Lemma key_of_parts_error (parts : list (list string)) (e : exn) :
  key_of_parts parts = Raise e -> e = ValueError.
Proof.
  induction parts as [|part rest IH]; simpl; [discriminate|].
  unfold int_of_part.
  destruct (isdigit_chars part).
  - destruct (forallb isdecimal_char part); [|now intros [= <-]].
    destruct (key_of_parts rest); [discriminate|]. intros [= <-]. now apply IH.
  - destruct (nonempty part); [|exact IH].
    destruct (key_of_parts rest); [discriminate|]. intros [= <-]. now apply IH.
Qed.

Lemma natural_sort_key_error (column_name : string) (e : exn) :
  natural_sort_key column_name = Raise e -> e = ValueError.
Proof. apply key_of_parts_error. Qed.

(** The key of a text being read, and the key of a run of digits being
    read: the fragments alternate from there on. *)
Lemma split_run_alt (l : list string) :
  (forall cur k, nonempty cur = true ->
     forallb (fun ch => negb (isdecimal_char ch)) cur = true ->
     key_of_parts (split_run false cur l) = Ok k -> alt true k = true) /\
  (forall cur k, nonempty cur = true -> forallb isdecimal_char cur = true ->
     key_of_parts (split_run true cur l) = Ok k -> alt false k = true).
Proof.
  induction l as [|ch l [IHt IHd]]; split; intros cur k Hne Hall.
  - cbn [split_run]. rewrite (key_of_parts_text cur [] Hne Hall).
    destruct (isdigit_chars cur); [discriminate|]. simpl. now intros [= <-].
  - cbn [split_run]. rewrite (key_of_parts_digits cur _ Hne Hall).
    simpl. now intros [= <-].
  - cbn [split_run]. destruct (isdecimal_char ch) eqn:Hc.
    + rewrite (key_of_parts_text cur _ Hne Hall).
      destruct (isdigit_chars cur); [discriminate|].
      destruct (key_of_parts (split_run true [ch] l)) as [k'|] eqn:Hk; [|discriminate].
      intros [= <-]. simpl. apply (IHd [ch] k'); [reflexivity| |exact Hk].
      simpl. now rewrite Hc.
    + apply IHt; [apply nonempty_snoc|].
      now rewrite forallb_snoc, Hall, Hc.
  - cbn [split_run]. destruct (isdecimal_char ch) eqn:Hc.
    + apply IHd; [apply nonempty_snoc|]. now rewrite forallb_snoc, Hall, Hc.
    + rewrite (key_of_parts_digits cur _ Hne Hall).
      destruct (key_of_parts (split_run false [ch] l)) as [k'|] eqn:Hk; [|discriminate].
      intros [= <-]. simpl. apply (IHt [ch] k'); [reflexivity| |exact Hk].
      simpl. now rewrite Hc.
Qed.

(** Stripping a question column leaves the leading [P] and digit alone. *)
Lemma strip_p_column (col : string) :
  is_p_column col = true ->
  exists d r, chars (strip col) = "P" :: d :: r /\ isdecimal_char d = true.
Proof.
  unfold is_p_column. rewrite chars_strip.
  destruct (chars col) as [|c [|d r]]; try discriminate.
  intros H. apply andb_prop in H as [Hc Hd].
  apply String.eqb_eq in Hc. subst c.
  rewrite strip_chars_keep by reflexivity.
  rewrite rdrop_space_cons by now apply decimal_not_space.
  now exists d, (rdrop_space r).
Qed.

(** The key of a question column starts with a text. *)
Lemma p_column_key_alt (col : string) (k : key) :
  is_p_column col = true -> natural_sort_key col = Ok k -> alt true k = true.
Proof.
  intros H. destruct (strip_p_column col H) as (d & r & Hs & Hd).
  unfold natural_sort_key, re_split_digits. rewrite Hs.
  change (split_run false [] ("P" :: d :: r))
    with (split_run false ["P"] (d :: r)).
  now apply (proj1 (split_run_alt (d :: r))).
Qed.

Lemma has_key_of (col : string) :
  has_key col = true -> natural_sort_key col = Ok (key_of col).
Proof.
  unfold has_key, key_of. now destruct (natural_sort_key col).
Qed.

Lemma has_key_iff (col : string) :
  has_key col = true <-> exists k, natural_sort_key col = Ok k.
Proof.
  unfold has_key. destruct (natural_sort_key col) as [k|e]; split;
    try reflexivity; try discriminate.
  - intros _. now exists k.
  - intros [k [=]].
Qed.

Lemma has_key_false (col : string) :
  has_key col = false <-> natural_sort_key col = Raise ValueError.
Proof.
  unfold has_key. destruct (natural_sort_key col) as [k|e] eqn:H; split;
    try discriminate; try reflexivity.
  intros _. now rewrite (natural_sort_key_error col e H).
Qed.

(** ** The comparison of tuples on keys of one layout *)

Lemma frag_eq_compare (a b : frag) : frag_eq a b = true <-> frag_compare a b = Eq.
Proof.
  destruct a as [s|n], b as [t|m]; simpl; try (split; discriminate).
  - rewrite String.eqb_eq. symmetry. apply (cmp_eq (cmp:=String.compare)).
  - rewrite N.eqb_eq. symmetry. apply N.compare_eq_iff.
Qed.

Lemma tuple_lt_total (w : bool) (k1 k2 : key) :
  alt w k1 = true -> alt w k2 = true -> tuple_lt k1 k2 = Some (key_ltb k1 k2).
Proof.
  unfold key_ltb, key_compare. revert w k2.
  induction k1 as [|a k1 IH]; intros w [|b k2] H1 H2; simpl; try reflexivity.
  destruct (frag_eq a b) eqn:Hab.
  - rewrite (proj1 (frag_eq_compare a b) Hab).
    destruct a, b; simpl in *; try discriminate;
      destruct w; simpl in *; try discriminate; now apply IH with (w := negb _) + eapply IH; eauto.
  - assert (Hne : frag_compare a b <> Eq).
    { intros He. apply frag_eq_compare in He. congruence. }
    destruct a as [s|n], b as [t|m]; simpl in *.
    + unfold String.ltb. now destruct (String.compare s t).
    + destruct w; simpl in *; discriminate.
    + destruct w; simpl in *; discriminate.
    + unfold N.ltb. now destruct (N.compare n m).
Qed.

(** Two question columns that have a key are always comparable ... *)
Lemma p_columns_comparable (a b : string) :
  is_p_column a = true -> is_p_column b = true ->
  has_key a = true -> has_key b = true ->
  tuple_lt (key_of a) (key_of b) = Some (name_ltb a b).
Proof.
  intros Ha Hb Ka Kb. apply tuple_lt_total with (w := true).
  - apply (p_column_key_alt a); [exact Ha|now apply has_key_of].
  - apply (p_column_key_alt b); [exact Hb|now apply has_key_of].
Qed.

Lemma keys_of_ok (cols : list string) :
  Forall (fun c => has_key c = true) cols ->
  keys_of cols = Ok (map (fun c => (key_of c, c)) cols).
Proof.
  induction 1 as [|c cols Hc _ IH]; simpl; [reflexivity|].
  now rewrite (has_key_of c Hc), IH.
Qed.

Lemma keys_of_raise (cols : list string) :
  Exists (fun c => has_key c = false) cols -> keys_of cols = Raise ValueError.
Proof.
  induction cols as [|c cols IH]; intros H; [inversion H|].
  simpl. destruct (natural_sort_key c) as [k|e] eqn:Hk.
  - rewrite IH; [reflexivity|].
    inversion H as [? ? Hc|]; subst; [|assumption].
    apply has_key_false in Hc. congruence.
  - now rewrite (natural_sort_key_error c e Hk).
Qed.

Lemma keys_of_cases (cols : list string) :
  Forall (fun c => has_key c = true) cols
  \/ Exists (fun c => has_key c = false) cols.
Proof.
  induction cols as [|c cols [IH|IH]].
  - left. constructor.
  - destruct (has_key c) eqn:Hc.
    + left. now constructor.
    + right. now left.
  - right. now right.
Qed.

Lemma insert_opt_map {A B : Type} (f : A -> B) (lt : B -> B -> option bool)
  (x : A) (l : list A) :
  insert_opt lt (f x) (map f l)
  = option_map (map f) (insert_opt (fun a b => lt (f a) (f b)) x l).
Proof.
  induction l as [|y l IH]; simpl; [reflexivity|].
  destruct (lt (f y) (f x)) as [[|]|]; try reflexivity.
  rewrite IH. now destruct (insert_opt _ x l).
Qed.

Lemma sort_opt_map {A B : Type} (f : A -> B) (lt : B -> B -> option bool)
  (l : list A) :
  sort_opt lt (map f l)
  = option_map (map f) (sort_opt (fun a b => lt (f a) (f b)) l).
Proof.
  induction l as [|x l IH]; simpl; [reflexivity|].
  rewrite IH. destruct (sort_opt _ l) as [r|]; simpl; [|reflexivity].
  apply insert_opt_map.
Qed.

(** Sorting names that have a key is sorting them by the comparison of
    their keys. *)
Lemma sorted_by_key_of (cols : list string) :
  Forall (fun c => has_key c = true) cols ->
  sorted_by_natural_key cols
  = match sort_opt (fun a b => tuple_lt (key_of a) (key_of b)) cols with
    | Some r => Ok r
    | None => Raise TypeError
    end.
Proof.
  intros H. unfold sorted_by_natural_key. rewrite (keys_of_ok cols H).
  rewrite (sort_opt_map (fun c => (key_of c, c))
             (fun a b => tuple_lt (fst a) (fst b))). simpl.
  destruct (sort_opt _ cols) as [r|]; simpl; [|reflexivity].
  rewrite map_map. simpl. now rewrite map_id.
Qed.

(** ... so sorting question columns that have a key never raises. *)
Lemma sorted_p_columns (cols : list string) :
  Forall (fun c => is_p_column c = true) cols ->
  Forall (fun c => has_key c = true) cols ->
  sorted_by_natural_key cols = Ok (isort name_ltb cols).
Proof.
  intros H K. rewrite (sorted_by_key_of cols K).
  rewrite (sort_opt_total _ name_ltb); [reflexivity|].
  rewrite Forall_forall in H, K. intros a b Ha Hb.
  apply p_columns_comparable; auto.
Qed.

Lemma sorted_raises (cols : list string) :
  Exists (fun c => has_key c = false) cols ->
  sorted_by_natural_key cols = Raise ValueError.
Proof.
  intros H. unfold sorted_by_natural_key. now rewrite (keys_of_raise cols H).
Qed.

Lemma name_ltb_asym (a b : string) : name_ltb a b = true -> name_ltb b a = false.
Proof. apply (is_lt_asym key_compare). Qed.

Lemma name_le_trans (a b c : string) : name_le a b -> name_le b c -> name_le a c.
Proof. unfold name_le, name_ltb, key_ltb. apply (is_lt_le_trans key_compare). Qed.

Lemma name_le_antisym (a b : string) :
  name_le a b -> name_le b a -> key_of a = key_of b.
Proof. unfold name_le, name_ltb, key_ltb. apply (is_lt_antisym key_compare). Qed.

Lemma string_ltb_asym (a b : string) : String.ltb a b = true -> String.ltb b a = false.
Proof. apply (is_lt_asym String.compare). Qed.

Lemma string_le_trans (a b c : string) :
  String.ltb b a = false -> String.ltb c b = false -> String.ltb c a = false.
Proof. apply (is_lt_le_trans String.compare). Qed.

Lemma string_le_antisym (a b : string) :
  String.ltb b a = false -> String.ltb a b = false -> a = b.
Proof. apply (is_lt_antisym String.compare). Qed.

(** ** Membership and de-duplication *)

Lemma filter_perm {A : Type} (f : A -> bool) (l1 l2 : list A) :
  Permutation l1 l2 -> Permutation (filter f l1) (filter f l2).
Proof.
  induction 1 as [|x l1 l2 _ IH|x y l|l1 l2 l3 _ IH1 _ IH2]; simpl.
  - constructor.
  - destruct (f x); auto.
  - destruct (f x), (f y); auto. apply perm_swap.
  - now rewrite IH1.
Qed.

Lemma mem_In (x : string) (l : list string) : mem x l = true <-> In x l.
Proof.
  unfold mem. rewrite existsb_exists. split.
  - intros (y & Hy & Hxy). apply String.eqb_eq in Hxy. now subst.
  - intros H. exists x. split; [exact H|apply String.eqb_refl].
Qed.

Lemma mem_false (x : string) (l : list string) : mem x l = false <-> ~ In x l.
Proof.
  rewrite <- mem_In. destruct (mem x l); split; congruence.
Qed.

Lemma mem_perm (x : string) (l1 l2 : list string) :
  Permutation l1 l2 -> mem x l1 = mem x l2.
Proof.
  intros HP. destruct (mem x l2) eqn:H2.
  - apply mem_In. apply mem_In in H2.
    now apply (Permutation_in _ (Permutation_sym HP)).
  - apply mem_false. apply mem_false in H2. intros H. apply H2.
    now apply (Permutation_in _ HP).
Qed.

Lemma mem_app (x : string) (l1 l2 : list string) :
  mem x (l1 ++ l2) = mem x l1 || mem x l2.
Proof. unfold mem. apply existsb_app. Qed.

Lemma dedupe_ext (s1 s2 l : list string) :
  (forall x, mem x s1 = mem x s2) -> dedupe s1 l = dedupe s2 l.
Proof.
  revert s1 s2. induction l as [|c l IH]; intros s1 s2 H; simpl; [reflexivity|].
  rewrite <- (H c). destruct (mem c s1); [now apply IH|].
  f_equal. apply IH. intros x. simpl. now rewrite (H x).
Qed.

Lemma dedupe_In (x : string) (seen l : list string) :
  In x (dedupe seen l) <-> In x l /\ mem x seen = false.
Proof.
  revert seen. induction l as [|c l IH]; intros seen; simpl; [tauto|].
  destruct (mem c seen) eqn:Hc.
  - rewrite IH. split; [tauto|]. intros [[->|H] Hx]; [congruence|tauto].
  - simpl. rewrite IH. simpl. split.
    + intros [->|[H Hx]]; [tauto|].
      apply orb_false_elim in Hx. tauto.
    + intros [[->|H] Hx]; [tauto|].
      destruct (String.eqb x c) eqn:Hxc.
      * apply String.eqb_eq in Hxc. subst. tauto.
      * right. rewrite Hx. tauto.
Qed.

Lemma dedupe_NoDup (seen l : list string) : NoDup (dedupe seen l).
Proof.
  revert seen. induction l as [|c l IH]; intros seen; simpl; [constructor|].
  destruct (mem c seen); [apply IH|].
  constructor; [|apply IH].
  rewrite dedupe_In. simpl. rewrite String.eqb_refl. intros [_ H]. discriminate.
Qed.

Lemma dedupe_app (seen l1 l2 : list string) :
  dedupe seen (l1 ++ l2) = dedupe seen l1 ++ dedupe (l1 ++ seen) l2.
Proof.
  revert seen. induction l1 as [|c l1 IH]; intros seen; simpl; [reflexivity|].
  destruct (mem c seen) eqn:Hc.
  - rewrite IH. f_equal. apply dedupe_ext. intros x.
    rewrite mem_app. simpl. rewrite mem_app.
    destruct (String.eqb x c) eqn:Hxc; [|reflexivity].
    apply String.eqb_eq in Hxc. subst. rewrite Hc. now rewrite orb_true_r.
  - simpl. f_equal. rewrite IH. f_equal. apply dedupe_ext. intros x.
    rewrite mem_app. simpl. rewrite mem_app. simpl.
    now destruct (String.eqb x c), (mem x l1).
Qed.

Lemma dedupe_id (seen l : list string) :
  NoDup l -> (forall x, In x l -> mem x seen = false) -> dedupe seen l = l.
Proof.
  revert seen. induction l as [|c l IH]; intros seen Hnd H; simpl; [reflexivity|].
  inversion Hnd as [|? ? Hc Hl]; subst.
  rewrite (H c) by now left. f_equal. apply IH; [exact Hl|].
  intros x Hx. simpl. rewrite (H x) by now right.
  destruct (String.eqb x c) eqn:Hxc; [|reflexivity].
  apply String.eqb_eq in Hxc. now subst.
Qed.

(** ** The walk over the template *)

Section Walk.
Variables all_columns ps : list string.

Let finish (st : list string * bool) : list string :=
  if negb (snd st) && nonempty ps then fst st ++ ps else fst st.

Lemma template_walk (t : list string) :
  forall base ins,
  exists A B,
    finish (fold_left (template_step all_columns ps) t (base, ins))
    = base ++ A ++ (if ins then [] else ps) ++ B
    /\ A ++ B = filter (copied all_columns) t.
Proof.
  induction t as [|col t IH]; intros base ins.
  - exists [], []. split; [|reflexivity]. unfold finish. simpl.
    destruct ins; simpl; [now rewrite app_nil_r|].
    destruct ps; simpl; now rewrite ?app_nil_r.
  - cbn [fold_left filter]. unfold template_step at 2. fold (copied all_columns col).
    destruct (copied all_columns col) eqn:Hc.
    + destruct (IH (base ++ [col]) ins) as (A & B & HE & HF).
      exists (col :: A), B. split; [|simpl; now rewrite HF].
      rewrite HE. now rewrite <- app_assoc.
    + destruct (is_p_column col && negb ins && nonempty ps) eqn:Hp.
      * apply andb_prop in Hp as [Hp _]. apply andb_prop in Hp as [_ Hi].
        destruct ins; [discriminate|].
        destruct (IH (base ++ ps) true) as (A & B & HE & HF).
        exists [], (A ++ B). split; [|simpl; exact HF].
        rewrite HE. simpl. now rewrite <- !app_assoc.
      * apply IH.
Qed.

Lemma build_base_schema_shape (template : list string) :
  exists A B,
    build_base_schema template all_columns ps = A ++ ps ++ B
    /\ A ++ B = filter (copied all_columns) template.
Proof.
  destruct (template_walk template [] false) as (A & B & HE & HF).
  exists A, B. split; [|exact HF].
  unfold build_base_schema. unfold finish in HE.
  destruct (fold_left _ template ([], false)) as [b i]. exact HE.
Qed.
End Walk.

Lemma traceability_not_question (col : string) :
  In col traceability_cols -> is_p_column col = false.
Proof. intros [<-|[<-|[<-|[]]]]; vm_compute; reflexivity. Qed.

(** ** Shape of the planner's result *)

Lemma question_block_perm (l : list string) :
  Permutation (question_block l) (filter is_p_column l).
Proof. apply isort_perm. Qed.

Lemma question_block_In (l : list string) (x : string) :
  In x (question_block l) <-> In x l /\ is_p_column x = true.
Proof.
  rewrite <- filter_In. split; apply Permutation_in;
    [|apply Permutation_sym]; apply question_block_perm.
Qed.

Lemma question_block_sorted (l : list string) :
  StronglySorted name_le (question_block l).
Proof.
  apply (isort_sorted name_ltb).
  - apply name_ltb_asym.
  - apply name_le_trans.
Qed.

Lemma keyed_Forall (l : list string) :
  keyed l = true <-> Forall (fun c => has_key c = true) (filter is_p_column l).
Proof. unfold keyed. now rewrite forallb_forall, Forall_forall. Qed.

Lemma keyed_In (l : list string) :
  keyed l = true <->
  forall c, In c l -> is_p_column c = true -> has_key c = true.
Proof.
  unfold keyed. rewrite forallb_forall. split.
  - intros H c Hc Hp. apply H. now apply filter_In.
  - intros H c Hc. apply filter_In in Hc as [Hc Hp]. now apply H.
Qed.

Lemma keyed_false (l : list string) :
  keyed l = false <->
  exists c, In c l /\ is_p_column c = true
            /\ natural_sort_key c = Raise ValueError.
Proof.
  split.
  - intros H. destruct (keys_of_cases (filter is_p_column l)) as [K|K].
    + apply keyed_Forall in K. congruence.
    + apply Exists_exists in K as (c & Hc & K). apply filter_In in Hc as [Hc Hp].
      exists c. split; [exact Hc|]. split; [exact Hp|]. now apply has_key_false.
  - intros (c & Hc & Hp & K). destruct (keyed l) eqn:E; [|reflexivity].
    rewrite keyed_In in E. specialize (E c Hc Hp).
    rewrite (proj2 (has_key_false c) K) in E. discriminate.
Qed.

Lemma keyed_perm (l1 l2 : list string) :
  Permutation l1 l2 -> keyed l1 = keyed l2.
Proof.
  intros HP. destruct (keyed l2) eqn:E.
  - rewrite keyed_In in *. intros c Hc. apply E.
    now apply (Permutation_in _ HP).
  - rewrite keyed_false in *. destruct E as (c & Hc & H). exists c.
    split; [|exact H]. now apply (Permutation_in _ (Permutation_sym HP)).
Qed.

Lemma sorted_question_columns (l : list string) :
  keyed l = true ->
  sorted_by_natural_key (filter is_p_column l) = Ok (question_block l).
Proof.
  intros K. apply sorted_p_columns; [|now apply keyed_Forall].
  rewrite Forall_forall. intros x Hx. now apply filter_In in Hx.
Qed.

Lemma unsorted_question_columns (l : list string) :
  keyed l = false ->
  sorted_by_natural_key (filter is_p_column l) = Raise ValueError.
Proof.
  intros K. apply sorted_raises.
  destruct (keys_of_cases (filter is_p_column l)) as [H|H]; [|exact H].
  apply keyed_Forall in H. congruence.
Qed.

Lemma unexpected_In (template l : list string) (x : string) :
  In x (unexpected template l) <->
  In x l /\ mem x (traceability_cols ++ template) = false.
Proof.
  unfold unexpected, sort_strings.
  assert (HP := isort_perm String.ltb
    (filter (fun col => negb (mem col (traceability_cols ++ template))) l)).
  split.
  - intros H. apply (Permutation_in _ HP) in H. apply filter_In in H.
    destruct H as [H1 H2]. split; [exact H1|]. now apply negb_true_iff.
  - intros [H1 H2]. apply (Permutation_in _ (Permutation_sym HP)).
    apply filter_In. split; [exact H1|]. now apply negb_true_iff.
Qed.

Lemma present_traceability_In (l : list string) (x : string) :
  In x (present_traceability l) <-> In x traceability_cols /\ In x l.
Proof. unfold present_traceability. now rewrite filter_In, mem_In. Qed.

Lemma planner_unfold (template l : list string) :
  keyed l = true ->
  exists A B,
    A ++ B = filter (copied l) template /\
    build_order_with template l =
    Ok (dedupe []
            ((present_traceability l ++ A)
             ++ question_block l ++ (B ++ unexpected template l))).
Proof.
  intros K.
  destruct (build_base_schema_shape l (question_block l) template)
    as (A & B & HE & HF).
  exists A, B. split; [exact HF|].
  unfold build_order_with. rewrite (sorted_question_columns l K). cbv zeta.
  rewrite HE. unfold unexpected, present_traceability.
  now rewrite <- !app_assoc.
Qed.

(** The planner returns when every question column has a key, and
    raises [ValueError] when one has none. *)
Lemma planner_total (template l : list string) :
  keyed l = true -> exists out, build_order_with template l = Ok out.
Proof.
  intros K. destruct (planner_unfold template l K) as (A & B & _ & H). eauto.
Qed.

Lemma planner_raises (template l : list string) :
  keyed l = false -> build_order_with template l = Raise ValueError.
Proof.
  intros K. unfold build_order_with. now rewrite (unsorted_question_columns l K).
Qed.

Lemma planner_keyed (template l out : list string) :
  build_order_with template l = Ok out -> keyed l = true.
Proof.
  intros H. destruct (keyed l) eqn:K; [reflexivity|].
  rewrite (planner_raises template l K) in H. discriminate.
Qed.

Lemma planner_error (template l : list string) (e : exn) :
  build_order_with template l = Raise e -> e = ValueError /\ keyed l = false.
Proof.
  intros H. destruct (keyed l) eqn:K.
  - destruct (planner_total template l K) as [out Ho]. congruence.
  - rewrite (planner_raises template l K) in H. now injection H as <-.
Qed.

(** The result holds exactly the names it was given. *)
Lemma planner_In (template l out : list string) (x : string) :
  build_order_with template l = Ok out -> (In x out <-> In x l).
Proof.
  intros Ho. assert (K := planner_keyed template l out Ho). revert Ho.
  destruct (planner_unfold template l K) as (A & B & HF & ->).
  intros [= <-]. rewrite dedupe_In.
  assert (HAB : forall y, In y A \/ In y B <-> In y template /\ copied l y = true).
  { intros y. rewrite <- in_app_iff, HF. apply filter_In. }
  rewrite !in_app_iff, present_traceability_In, question_block_In, unexpected_In.
  split.
  - intros [[[[_ H]|H]|[[H _]|[H|[H _]]]] _]; try exact H.
    + assert (HA : In x A \/ In x B) by tauto. apply HAB in HA as [_ Hc].
      unfold copied in Hc. apply andb_prop in Hc as [Hc _].
      apply andb_prop in Hc as [_ Hc]. now apply mem_In.
    + assert (HA : In x A \/ In x B) by tauto. apply HAB in HA as [_ Hc].
      unfold copied in Hc. apply andb_prop in Hc as [Hc _].
      apply andb_prop in Hc as [_ Hc]. now apply mem_In.
  - intros Hx. split; [|reflexivity].
    destruct (mem x traceability_cols) eqn:Ht.
    { left. left. split; [now apply mem_In|exact Hx]. }
    destruct (is_p_column x) eqn:Hp.
    { right. left. tauto. }
    destruct (mem x template) eqn:Hm.
    + assert (HA : In x A \/ In x B).
      { apply HAB. split; [now apply mem_In|].
        unfold copied. rewrite Hp, Ht. simpl.
        rewrite andb_true_r. now apply mem_In. }
      tauto.
    + right. right. right. split; [exact Hx|].
      rewrite mem_app, Ht, Hm. reflexivity.
Qed.

Lemma planner_NoDup (template l out : list string) :
  build_order_with template l = Ok out -> NoDup out.
Proof.
  intros Ho. assert (K := planner_keyed template l out Ho). revert Ho.
  destruct (planner_unfold template l K) as (A & B & _ & ->).
  intros [= <-]. apply dedupe_NoDup.
Qed.

(** The result is: names that are not questions, the block of the
    questions in sorted order, names that are not questions. *)
Lemma planner_shape (template l : list string) :
  NoDup l -> keyed l = true ->
  exists pre post,
    build_order_with template l = Ok (pre ++ question_block l ++ post)
    /\ Forall is_text_column pre /\ Forall is_text_column post.
Proof.
  intros Hnd K.
  destruct (planner_unfold template l K) as (A & B & HF & ->).
  set (T := present_traceability l).
  assert (HAB : forall y, In y (A ++ B) -> is_p_column y = false).
  { intros y Hy. rewrite HF in Hy. apply filter_In in Hy as [_ Hc].
    unfold copied in Hc. apply andb_prop in Hc as [Hc _].
    apply andb_prop in Hc as [Hc _]. now apply negb_true_iff. }
  assert (HX : forall y, In y (T ++ A) -> is_p_column y = false).
  { intros y Hy. apply in_app_iff in Hy as [Hy|Hy].
    - apply present_traceability_In in Hy as [Hy _].
      now apply traceability_not_question.
    - apply HAB. apply in_app_iff. now left. }
  rewrite dedupe_app, (dedupe_app _ (question_block l)).
  rewrite (dedupe_id _ (question_block l)).
  - eexists _, _. split; [reflexivity|]. split.
    + rewrite Forall_forall. intros y Hy. apply dedupe_In in Hy as [Hy _].
      now apply HX.
    + rewrite Forall_forall. intros y Hy. apply dedupe_In in Hy as [Hy Hs].
      unfold is_text_column. destruct (is_p_column y) eqn:Hp; [|reflexivity].
      exfalso. rewrite mem_app in Hs. apply orb_false_elim in Hs as [Hs _].
      apply mem_false in Hs. apply Hs. apply question_block_In.
      split; [|exact Hp].
      apply in_app_iff in Hy as [Hy|Hy].
      * rewrite HAB in Hp; [discriminate|]. apply in_app_iff. now right.
      * now apply unexpected_In in Hy.
  - apply (Permutation_NoDup (Permutation_sym (question_block_perm l))).
    now apply NoDup_filter.
  - intros y Hy. apply question_block_In in Hy as [_ Hp].
    apply mem_false. intros Hin. rewrite app_nil_r in Hin.
    rewrite (HX y Hin) in Hp. discriminate.
Qed.

(** The planner reads the set it is given only through membership and
    through the two sorts. *)
Lemma planner_order_independent (template l1 l2 : list string) :
  Permutation l1 l2 ->
  (forall a b k, In a l1 -> In b l1 -> is_p_column a = true ->
     is_p_column b = true ->
     natural_sort_key a = Ok k -> natural_sort_key b = Ok k -> a = b) ->
  build_order_with template l1 = build_order_with template l2.
Proof.
  intros HP Hinj.
  destruct (keyed l1) eqn:K1.
  2:{ rewrite (planner_raises template l1 K1).
      rewrite (keyed_perm l1 l2 HP) in K1.
      now rewrite (planner_raises template l2 K1). }
  assert (K2 : keyed l2 = true) by now rewrite <- (keyed_perm l1 l2 HP).
  assert (Hmem : forall x, mem x l1 = mem x l2) by (intros; now apply mem_perm).
  assert (HQ : question_block l1 = question_block l2).
  { apply (isort_perm_invariant name_ltb).
    - apply name_ltb_asym.
    - apply name_le_trans.
    - intros a b Ha Hb Hab Hba.
      apply filter_In in Ha as [Ha Hpa]. apply filter_In in Hb as [Hb Hpb].
      rewrite keyed_In in K1.
      apply (Hinj a b (key_of a)); try assumption.
      + apply has_key_of. now apply K1.
      + rewrite (name_le_antisym a b Hab Hba). apply has_key_of. now apply K1.
    - now apply filter_perm. }
  assert (HU : unexpected template l1 = unexpected template l2).
  { apply (isort_perm_invariant String.ltb).
    - apply string_ltb_asym.
    - intros a b c. apply string_le_trans.
    - intros a b _ _. apply string_le_antisym.
    - now apply filter_perm. }
  unfold build_order_with.
  rewrite (sorted_question_columns l1 K1), (sorted_question_columns l2 K2).
  cbv zeta.
  fold (unexpected template l1). fold (unexpected template l2).
  rewrite HQ, HU.
  rewrite (filter_ext (fun col => mem col l1) (fun col => mem col l2) Hmem).
  assert (HB : build_base_schema template l1 (question_block l2)
               = build_base_schema template l2 (question_block l2));
    [|now rewrite HB].
  unfold build_base_schema.
  assert (Hstep : forall st col,
      template_step l1 (question_block l2) st col
      = template_step l2 (question_block l2) st col).
  { intros [b i] col. unfold template_step. now rewrite Hmem. }
  assert (Hfold : forall t st,
      fold_left (template_step l1 (question_block l2)) t st
      = fold_left (template_step l2 (question_block l2)) t st).
    { induction t as [|c t IH]; intros st; simpl; [reflexivity|].
      now rewrite Hstep, IH. }
  now rewrite Hfold.
Qed.

(* ================================================================= *)
(** ** Lists, positions and names *)

Lemma index_of_Some (x : string) (l : list string) (i : nat) :
  index_of x l = Some i -> i < length l /\ nth i l EmptyString = x.
Proof.
  revert i. induction l as [|y l IH]; intros i; simpl; [discriminate|].
  destruct (String.eqb x y) eqn:Hxy.
  - intros [= <-]. apply String.eqb_eq in Hxy. split; [lia|now subst].
  - destruct (index_of x l) as [k|]; [|discriminate].
    intros [= <-]. destruct (IH k eq_refl) as [H1 H2]. split; [lia|exact H2].
Qed.

Lemma index_of_In (x : string) (l : list string) :
  In x l -> exists i, index_of x l = Some i.
Proof.
  induction l as [|y l IH]; simpl; [tauto|].
  intros H. destruct (String.eqb x y) eqn:Hxy; [eauto|].
  destruct H as [->|H]; [rewrite String.eqb_refl in Hxy; discriminate|].
  destruct (IH H) as [i ->]. eauto.
Qed.

Lemma index_of_None (x : string) (l : list string) :
  index_of x l = None -> ~ In x l.
Proof.
  intros H Hin. destruct (index_of_In x l Hin) as [i Hi]. congruence.
Qed.

Lemma index_of_nth (l : list string) (j : nat) :
  NoDup l -> j < length l -> index_of (nth j l EmptyString) l = Some j.
Proof.
  revert j. induction l as [|y l IH]; intros j Hnd Hj; simpl in *; [lia|].
  inversion Hnd as [|? ? Hy Hl]; subst.
  destruct j as [|j].
  - now rewrite String.eqb_refl.
  - destruct (String.eqb (nth j l EmptyString) y) eqn:He.
    + apply String.eqb_eq in He. exfalso. apply Hy. rewrite <- He.
      apply nth_In. lia.
    + rewrite IH; [reflexivity|exact Hl|lia].
Qed.

Lemma nth_map_in {A B : Type} (f : A -> B) (l : list A) (k : nat) (d : A) (d' : B) :
  k < length l -> nth k (map f l) d' = f (nth k l d).
Proof.
  revert k. induction l as [|x l IH]; intros k Hk; simpl in *; [lia|].
  destruct k; [reflexivity|]. apply IH. lia.
Qed.

Lemma count_mem_In (x : string) (l : list string) :
  In x l -> 1 <= count_mem x l.
Proof.
  induction l as [|y l IH]; simpl; [tauto|].
  intros [->|H]; [rewrite String.eqb_refl; lia|].
  specialize (IH H). lia.
Qed.

Lemma count_mem_NoDup (l : list string) :
  (forall x, In x l -> count_mem x l <= 1) -> NoDup l.
Proof.
  induction l as [|y l IH]; intros H; constructor.
  - intros Hy. specialize (H y (or_introl eq_refl)). simpl in H.
    rewrite String.eqb_refl in H. apply count_mem_In in Hy. lia.
  - apply IH. intros x Hx. specialize (H x (or_intror Hx)). simpl in H.
    destruct (String.eqb x y); lia.
Qed.

(* ================================================================= *)
(** ** The consolidation *)

Lemma combine_seq_In {A : Type} (l : list A) (x : A) (s : nat) :
  In x l -> exists i, In (i, x) (combine (seq s (length l)) l).
Proof.
  revert s. induction l as [|y l IH]; intros s; simpl; [tauto|].
  intros [->|H]; [exists s; now left|].
  destruct (IH (S s) H) as [i Hi]. exists i. now right.
Qed.

Lemma combine_seq_snd {A : Type} (l : list A) (p : nat * A) (s : nat) :
  In p (combine (seq s (length l)) l) -> In (snd p) l.
Proof.
  destruct p as [i x]. intros H. now apply in_combine_r in H.
Qed.

Section ConsolidationFacts.
Variable set_iteration : list string -> list string.
Variable store_accepts : list string -> bool.

(** The iteration of a set visits exactly its elements. *)
Hypothesis set_iteration_perm :
  forall l, NoDup l -> Permutation l (set_iteration l).

Lemma retained_In (dataframes : list frame) (df : frame) :
  In df dataframes -> df_empty df = false ->
  exists i, In (i, df) (retained dataframes).
Proof.
  intros Hin He. destruct (combine_seq_In dataframes df 0 Hin) as [i Hi].
  exists i. unfold retained. apply filter_In. split; [exact Hi|].
  simpl. now rewrite He.
Qed.

Lemma retained_nonempty (dataframes : list frame) (p : nat * frame) :
  In p (retained dataframes) ->
  In (snd p) dataframes /\ df_empty (snd p) = false.
Proof.
  unfold retained. intros H. apply filter_In in H as [H1 H2]. split.
  - now apply combine_seq_snd in H1.
  - now apply negb_true_iff.
Qed.

Lemma retained_all_empty (dataframes : list frame) :
  Forall (fun df => df_empty df = true) dataframes -> retained dataframes = [].
Proof.
  intros H. unfold retained.
  destruct (filter _ _) as [|p l] eqn:Hf; [reflexivity|].
  assert (Hp : In p (retained dataframes)) by (unfold retained; rewrite Hf; now left).
  apply retained_nonempty in Hp as [Hin He].
  rewrite Forall_forall in H. rewrite (H _ Hin) in He. discriminate.
Qed.

Lemma discovered_In (tables : list (nat * frame)) (x : string) :
  In x (discovered tables) <->
  exists p, In p tables /\ In x (clean_columns (snd p)).
Proof.
  unfold discovered. rewrite dedupe_In, in_flat_map. simpl. tauto.
Qed.

Lemma load_tables_ok (master : list string) (tables : list (nat * frame))
  (stored : list (list cell)) (reports : list string) :
  load_tables master tables = Ok (stored, reports) ->
  stored = flat_map (fun p => map (align_row master (clean_columns (snd p)))
                                  (rows (snd p))) tables
  /\ Forall (fun p => ambiguous_column master (clean_columns (snd p)) = false)
            tables.
Proof.
  revert stored reports.
  induction tables as [|[i df] tables IH]; intros stored reports; simpl.
  - intros [= <- <-]. split; [reflexivity|constructor].
  - unfold load_table.
    destruct (ambiguous_column master (clean_columns df)) eqn:Ha; [discriminate|].
    destruct (load_tables master tables) as [[st an]|e]; [|discriminate].
    intros [= <- <-]. destruct (IH st an eq_refl) as [-> HF].
    split; [reflexivity|]. constructor; [exact Ha|exact HF].
Qed.

(** What a successful consolidation of at least one column returns. *)
Lemma consolidate_ok (dataframes : list frame) (out : frame) (report : string) :
  consolidate_data set_iteration store_accepts dataframes = Ok (out, report) ->
  discovered (retained dataframes) <> [] ->
  exists master,
    _build_intelligent_column_order
      (set_iteration (discovered (retained dataframes))) = Ok master
    /\ store_accepts master = true
    /\ columns out = map LStr master
    /\ rows out = flat_map (fun p => map (align_row master (clean_columns (snd p)))
                                         (rows (snd p))) (retained dataframes)
    /\ Forall (fun p => ambiguous_column master (clean_columns (snd p)) = false)
              (retained dataframes).
Proof.
  unfold consolidate_data. intros H Hne.
  destruct (discovered (retained dataframes)) as [|c cs] eqn:Hd; [congruence|].
  destruct (_build_intelligent_column_order _) as [master|]; [|discriminate].
  exists master. split; [reflexivity|].
  destruct (store_accepts master); [|discriminate]. simpl in H.
  destruct (load_tables master (retained dataframes)) as [[st an]|e] eqn:Hl;
    [|discriminate].
  injection H as <- _. simpl.
  destruct (load_tables_ok _ _ _ _ Hl) as [-> HF]. auto.
Qed.

Lemma master_In (tables : list (nat * frame)) (master : list string) (x : string) :
  _build_intelligent_column_order (set_iteration (discovered tables)) = Ok master ->
  (In x master <-> In x (discovered tables)).
Proof.
  intros H. unfold _build_intelligent_column_order in H.
  rewrite (planner_In _ _ _ x H).
  assert (HP := set_iteration_perm (discovered tables) (dedupe_NoDup _ _)).
  split; apply Permutation_in; [now apply Permutation_sym|exact HP].
Qed.

Lemma master_NoDup (tables : list (nat * frame)) (master : list string) :
  _build_intelligent_column_order (set_iteration (discovered tables)) = Ok master ->
  NoDup master.
Proof. apply planner_NoDup. Qed.

(** A table that was loaded has no two columns of one name. *)
Lemma loaded_columns_NoDup (tables : list (nat * frame)) (master : list string)
  (p : nat * frame) :
  _build_intelligent_column_order (set_iteration (discovered tables)) = Ok master ->
  In p tables ->
  ambiguous_column master (clean_columns (snd p)) = false ->
  NoDup (clean_columns (snd p)).
Proof.
  intros Hm Hp Ha. apply count_mem_NoDup. intros x Hx.
  unfold ambiguous_column in Ha.
  assert (Hf : mem x master && Nat.ltb 1 (count_mem x (clean_columns (snd p))) = false).
  { destruct (mem x master && _) eqn:Hb; [|reflexivity].
    rewrite <- Ha. symmetry. apply existsb_exists. eauto. }
  assert (Hin : mem x master = true).
  { apply mem_In. apply (master_In _ _ _ Hm). apply discovered_In. eauto. }
  rewrite Hin in Hf. simpl in Hf. apply Nat.ltb_ge in Hf. exact Hf.
Qed.

(** The value stored under a column of the table is the normalised
    value of the table. *)
Lemma stored_cell (tables : list (nat * frame)) (master : list string)
  (p : nat * frame) (row : list cell) (j : nat) :
  _build_intelligent_column_order (set_iteration (discovered tables)) = Ok master ->
  In p tables ->
  ambiguous_column master (clean_columns (snd p)) = false ->
  j < length (columns (snd p)) ->
  cell_at master (align_row master (clean_columns (snd p)) row)
          (nth j (clean_columns (snd p)) EmptyString)
  = Some (normalise (nth j row CNaN)).
Proof.
  intros Hm Hp Ha Hj.
  set (cols := clean_columns (snd p)).
  assert (Hlen : j < length cols) by (unfold cols, clean_columns; now rewrite length_map).
  assert (Hnd : NoDup cols) by (eapply loaded_columns_NoDup; eauto).
  assert (Hin : In (nth j cols EmptyString) master).
  { apply (master_In _ _ _ Hm). apply discovered_In. exists p.
    split; [exact Hp|]. now apply nth_In. }
  destruct (index_of_In _ _ Hin) as [k Hk].
  destruct (index_of_Some _ _ _ Hk) as [Hk1 Hk2].
  unfold cell_at at 1. rewrite Hk. f_equal. unfold align_row.
  rewrite (nth_map_in _ master k EmptyString CNaN Hk1), Hk2.
  unfold cell_at. now rewrite (index_of_nth cols j Hnd Hlen).
Qed.

Lemma normalise_spec (c : cell) :
  (str_of_cell c = "nan" -> normalise c = CNone)
  /\ (str_of_cell c <> "nan" -> normalise c = CStr (str_of_cell c)).
Proof.
  unfold normalise. cbv zeta.
  destruct (String.eqb_spec (str_of_cell c) "nan") as [->|Hn]; split;
    intros; congruence.
Qed.

(** A stored value is null or a text other than [nan]. *)
Lemma aligned_cells (master cols : list string) (row : list cell) (c : cell) :
  In c (align_row master cols row) ->
  c = CNone \/ exists s, c = CStr s /\ s <> "nan".
Proof.
  unfold align_row. intros H. apply in_map_iff in H as (x & <- & _).
  destruct (cell_at cols row x) as [v|]; [|now left].
  unfold normalise. cbv zeta.
  destruct (String.eqb_spec (str_of_cell v) "nan") as [|Hn]; [now left|].
  right. eauto.
Qed.
End ConsolidationFacts.
(* ================================================================= *)
(** ** Decimal texts *)

Lemma decimal_of_nonnil (z : Z) : decimal_of z <> Decimal.Nil.
Proof.
  destruct z; simpl; try discriminate; apply DecimalPos.Unsigned.to_uint_nonnil.
Qed.

Lemma str_of_Z_nonneg (z : Z) :
  (0 <= z)%Z -> str_of_Z z = NilEmpty.string_of_uint (decimal_of z).
Proof.
  intros Hz. unfold str_of_Z, decimal_of.
  destruct z as [|p|p]; [reflexivity| |lia].
  simpl. unfold NilZero.string_of_uint.
  assert (H := DecimalPos.Unsigned.to_uint_nonnil p).
  now destruct (Pos.to_uint p).
Qed.

Lemma uint_digits (d : Decimal.uint) :
  all_chars is_digit (NilEmpty.string_of_uint d) = true.
Proof. induction d; simpl; auto. Qed.

Lemma uint_nonempty (d : Decimal.uint) :
  d <> Decimal.Nil -> is_empty (NilEmpty.string_of_uint d) = false.
Proof. destruct d; simpl; congruence. Qed.

Lemma digits_plain (s : string) :
  all_chars is_digit s = true -> all_chars plain s = true.
Proof. apply all_chars_weaken, digit_plain. Qed.

(** A text of ASCII digits: its characters are its bytes, and they are
    decimal digits. *)
Lemma chars_digits (s : string) :
  all_chars is_digit s = true ->
  chars s = singles s /\ forallb isdecimal_char (singles s) = true.
Proof.
  intros H. split; [now apply chars_plain, digits_plain|].
  now rewrite (forallb_singles is_digit) by apply isdecimal_char_byte.
Qed.

Lemma nonempty_singles (s : string) : nonempty (singles s) = negb (is_empty s).
Proof. now destruct s. Qed.

Lemma digits_isdecimal (s : string) :
  is_empty s = false -> all_chars is_digit s = true -> isdecimal s = true.
Proof.
  intros Hne H. unfold isdecimal. destruct (chars_digits s H) as [-> ->].
  now rewrite nonempty_singles, Hne.
Qed.

Lemma digits_no_space (s : string) :
  all_chars is_digit s = true -> all_chars (fun c => negb (is_space c)) s = true.
Proof.
  apply all_chars_weaken. intros c Hc. now rewrite (digit_not_space c Hc).
Qed.

(** Stripping leaves a text of ASCII bytes that holds no blank alone. *)
Lemma strip_no_space (s : string) :
  all_chars plain s = true ->
  all_chars (fun c => negb (is_space c)) s = true -> strip s = s.
Proof.
  intros Hp Hs. unfold strip. rewrite (chars_plain s Hp).
  rewrite strip_chars_id; [apply join_singles|].
  now rewrite (forallb_singles (fun c => negb (is_space c)))
    by (intros c; now rewrite isspace_char_byte).
Qed.

Lemma strip_digits (s : string) : all_chars is_digit s = true -> strip s = s.
Proof.
  intros H. apply strip_no_space; [now apply digits_plain|now apply digits_no_space].
Qed.

(** ** The number a decimal text stands for *)

Lemma int_of_chars_pos (d : Decimal.uint) (acc : positive) :
  fold_left (fun a ch => (10 * a + decimal_value ch)%N)
            (singles (NilEmpty.string_of_uint d)) (N.pos acc)
  = N.pos (Pos.of_uint_acc d acc).
Proof.
  revert acc.
  induction d; intros acc;
    cbn [NilEmpty.string_of_uint singles fold_left Pos.of_uint_acc];
    [reflexivity|..];
    rewrite <- IHd; f_equal;
    match goal with
    | |- context [decimal_value ?c] =>
        let v := eval vm_compute in (decimal_value c) in
        change (decimal_value c) with v
    end; lia.
Qed.

Lemma int_of_digits_uint (d : Decimal.uint) :
  int_of_digits (NilEmpty.string_of_uint d) = N.of_uint d.
Proof.
  unfold int_of_digits, int_of_chars, N.of_uint.
  rewrite (proj1 (chars_digits _ (uint_digits d))).
  induction d; cbn [NilEmpty.string_of_uint singles fold_left Pos.of_uint];
    [reflexivity| |..];
    match goal with
    | |- context [decimal_value ?c] =>
        let v := eval vm_compute in (decimal_value c) in
        change (decimal_value c) with v
    end; change (10 * 0 + 0)%N with 0%N; [exact IHd|..];
    apply (int_of_chars_pos d).
Qed.

(** [int(str(n)) == n] *)
Lemma int_of_digits_str_of_nat (n : nat) :
  int_of_digits (str_of_nat n) = N.of_nat n.
Proof.
  unfold str_of_nat. rewrite str_of_Z_nonneg by lia.
  rewrite int_of_digits_uint. unfold decimal_of, N.of_uint.
  destruct n as [|n]; [reflexivity|]. simpl.
  rewrite DecimalPos.Unsigned.of_to. now rewrite <- positive_nat_N, SuccNat2Pos.id_succ.
Qed.

Lemma str_of_nat_digits (n : nat) :
  is_empty (str_of_nat n) = false /\ all_chars is_digit (str_of_nat n) = true.
Proof.
  unfold str_of_nat. rewrite str_of_Z_nonneg by lia. split.
  - apply uint_nonempty, decimal_of_nonnil.
  - apply uint_digits.
Qed.

Lemma digit_not_sign (c : ascii) :
  is_digit c = true -> Ascii.eqb c "-" = false /\ Ascii.eqb c "+" = false.
Proof.
  intros H. split.
  - destruct (Ascii.eqb_spec c "-") as [->|]; [discriminate|reflexivity].
  - destruct (Ascii.eqb_spec c "+") as [->|]; [discriminate|reflexivity].
Qed.

(** [int(str(z)) == z] for a non-negative integer. *)
Lemma int_of_string_str_of_Z (z : Z) :
  (0 <= z)%Z -> int_of_string (str_of_Z z) = Some z.
Proof.
  intros Hz. rewrite (str_of_Z_nonneg z Hz).
  set (d := decimal_of z).
  assert (Hd := uint_digits d).
  assert (Hne := uint_nonempty d (decimal_of_nonnil z)).
  unfold int_of_string. rewrite (strip_digits _ Hd).
  destruct (NilEmpty.string_of_uint d) as [|c r] eqn:Hs; [discriminate|].
  assert (Hc : is_digit c = true) by (simpl in Hd; now apply andb_prop in Hd as [? _]).
  destruct (digit_not_sign c Hc) as [-> ->].
  unfold digits_value. rewrite (digits_isdecimal _ Hne Hd).
  rewrite <- Hs, int_of_digits_uint. f_equal.
  unfold d, decimal_of, N.of_uint. destruct z as [|p|p]; [reflexivity| |lia].
  simpl. now rewrite DecimalPos.Unsigned.of_to.
Qed.

Lemma str_of_Z_not_nan (z : Z) : String.eqb (str_of_Z z) "nan" = false.
Proof.
  destruct (String.eqb_spec (str_of_Z z) "nan") as [H|]; [|reflexivity].
  exfalso. unfold str_of_Z in H. destruct z as [|p|p]; simpl in H.
  - discriminate.
  - unfold NilZero.string_of_uint in H.
    assert (Hd := uint_digits (Pos.to_uint p)).
    destruct (Pos.to_uint p); try discriminate;
      rewrite H in Hd; discriminate.
  - discriminate.
Qed.

(* ================================================================= *)
(** ** The table segmenter *)

Lemma insert_column_ok (loc : nat) (column : string) (value : cell) (df t : frame) :
  insert_column loc column value df = Ok t ->
  ~ In (LStr column) (columns df)
  /\ columns t = firstn loc (columns df) ++ LStr column :: skipn loc (columns df)
  /\ rows t = map (fun r => firstn loc r ++ value :: skipn loc r) (rows df).
Proof.
  unfold insert_column.
  destruct (existsb (label_eqb (LStr column)) (columns df)) eqn:He; [discriminate|].
  intros [= <-]. simpl. split; [|split; reflexivity].
  intros Hin.
  assert (Ht : existsb (label_eqb (LStr column)) (columns df) = true).
  { apply existsb_exists. exists (LStr column). split; [exact Hin|].
    simpl. apply String.eqb_refl. }
  congruence.
Qed.

Lemma add_traceability_ok (file sheet_nm : string) (k : nat) (df t : frame) :
  add_traceability file sheet_nm k df = Ok t ->
  columns t = map LStr traceability_cols ++ columns df
  /\ rows t = map (with_provenance file sheet_nm k) (rows df)
  /\ (forall c, In c traceability_cols -> ~ In (LStr c) (columns df)).
Proof.
  unfold add_traceability.
  destruct (insert_column 0 COL_FILE (CStr file) df) as [df1|] eqn:H1; [|discriminate].
  destruct (insert_column 1 COL_SHEET (CStr sheet_nm) df1) as [df2|] eqn:H2;
    [|discriminate].
  intros H3.
  apply insert_column_ok in H1 as (N1 & C1 & R1).
  apply insert_column_ok in H2 as (N2 & C2 & R2).
  apply insert_column_ok in H3 as (N3 & C3 & R3).
  simpl in C1, R1. rewrite C1 in C2, N2. simpl in C2.
  rewrite C2 in C3, N3. simpl in C3.
  rewrite R1, map_map in R2. simpl in R2.
  rewrite R2, map_map in R3. simpl in R3.
  split; [exact C3|]. split; [exact R3|].
  intros c [<-|[<-|[<-|[]]]]; [exact N1| |].
  - intros H. apply N2. now right.
  - intros H. apply N3. right. now right.
Qed.

(** Every emitted table comes from one slice of the sheet. *)
Lemma extract_tables_emitted (file sheet_nm : string) (g : grid)
  (pairs : list (nat * nat)) (idx : nat) (t : frame) (e : manifest_entry) :
  In (t, e) (fst (extract_tables file sheet_nm g pairs idx)) ->
  exists start stop k,
    let raw := drop_blank (width g) (slice start stop g) in
    let td := promote_header raw in
    df_empty raw = false /\ df_empty td = false
    /\ add_traceability file sheet_nm k td = Ok t
    /\ e = {| file_name := file; sheet_name := sheet_nm;
              table_index := Z.of_nat k;
              row_count := Z.of_nat (length (rows td)) |}
    /\ idx <= k.
Proof.
  revert idx. induction pairs as [|[a b] pairs IH]; intros idx; simpl; [tauto|].
  set (start := if existsb (Nat.eqb a) (blank_indices 0 g) then S a else a).
  destruct (Nat.ltb start b); [|apply IH].
  destruct (df_empty (drop_blank (width g) (slice start b g))) eqn:He1; [apply IH|].
  destruct (df_empty (promote_header _)) eqn:He2; [apply IH|].
  destruct (add_traceability _ _ _ _) as [t'|] eqn:Ha; [|simpl; tauto].
  destruct (extract_tables file sheet_nm g pairs (S idx)) as [out ok] eqn:Hrest.
  simpl. intros [[= <- <-]|Hin].
  - exists start, b, idx. cbv zeta. auto.
  - specialize (IH (S idx)). rewrite Hrest in IH. simpl in IH.
    destruct (IH Hin) as (s & st & k & H). exists s, st, k. cbv zeta in *.
    intuition lia.
Qed.

(** The entries of one sheet carry its file, its title and consecutive
    table indices. *)
Lemma extract_tables_keys (file sheet_nm : string) (g : grid)
  (pairs : list (nat * nat)) (idx : nat) :
  let out := fst (extract_tables file sheet_nm g pairs idx) in
  map (fun p => entry_key (snd p)) out
  = map (fun k => (file, sheet_nm, Z.of_nat k)) (seq idx (length out)).
Proof.
  cbv zeta. revert idx.
  induction pairs as [|[a b] pairs IH]; intros idx; simpl; [reflexivity|].
  set (start := if existsb (Nat.eqb a) (blank_indices 0 g) then S a else a).
  destruct (Nat.ltb start b); [|apply IH].
  destruct (df_empty (drop_blank (width g) (slice start b g))); [apply IH|].
  destruct (df_empty (promote_header _)); [apply IH|].
  destruct (add_traceability _ _ _ _) as [t'|]; [|reflexivity].
  specialize (IH (S idx)).
  destruct (extract_tables file sheet_nm g pairs (S idx)) as [out ok].
  simpl in *. now rewrite IH.
Qed.

Lemma sheet_tables_emitted (file sheet_nm : string) (g : grid)
  (t : frame) (e : manifest_entry) :
  In (t, e) (fst (sheet_tables file sheet_nm g)) ->
  exists start stop k,
    let raw := drop_blank (width g) (slice start stop g) in
    let td := promote_header raw in
    df_empty raw = false /\ df_empty td = false
    /\ add_traceability file sheet_nm k td = Ok t
    /\ e = {| file_name := file; sheet_name := sheet_nm;
              table_index := Z.of_nat k;
              row_count := Z.of_nat (length (rows td)) |}
    /\ 1 <= k.
Proof.
  unfold sheet_tables. destruct (df_empty _); [simpl; tauto|].
  apply extract_tables_emitted.
Qed.

Lemma sheet_tables_keys (file sheet_nm : string) (g : grid) :
  exists n,
    map (fun p => entry_key (snd p)) (fst (sheet_tables file sheet_nm g))
    = map (fun k => (file, sheet_nm, Z.of_nat k)) (seq 1 n).
Proof.
  unfold sheet_tables. destruct (df_empty _); [now exists 0|].
  eexists. apply extract_tables_keys.
Qed.

Lemma sheets_tables_In (file : string) (sheets : list sheet)
  (p : frame * manifest_entry) :
  In p (sheets_tables file sheets) ->
  exists sh g, In sh sheets /\ sheet_cells sh = Some g
               /\ In p (fst (sheet_tables file (sheet_title sh) g)).
Proof.
  induction sheets as [|sh sheets IH]; simpl; [tauto|].
  destruct (sheet_cells sh) as [g|] eqn:Hc; [|simpl; tauto].
  destruct (sheet_tables file (sheet_title sh) g) as [out ok] eqn:Hs.
  assert (Hout : In p out -> exists sh' g', (sh = sh' \/ In sh' sheets)
            /\ sheet_cells sh' = Some g'
            /\ In p (fst (sheet_tables file (sheet_title sh') g'))).
  { intros H. exists sh, g. rewrite Hs. auto. }
  destruct ok; [|exact Hout].
  intros H. apply in_app_iff in H as [H|H]; [now apply Hout|].
  destruct (IH H) as (sh' & g' & H1 & H2 & H3). exists sh', g'. auto.
Qed.

Lemma parse_emitted (files : list uploaded_file) (p : frame * manifest_entry) :
  In p (flat_map file_tables files) ->
  exists f sheets sh g,
    In f files /\ workbook f = Some sheets /\ In sh sheets
    /\ sheet_cells sh = Some g
    /\ In p (fst (sheet_tables (name f) (sheet_title sh) g)).
Proof.
  intros H. apply in_flat_map in H as (f & Hf & Hp).
  unfold file_tables in Hp. destruct (workbook f) as [sheets|] eqn:Hw; [|destruct Hp].
  destruct (sheets_tables_In _ _ _ Hp) as (sh & g & H1 & H2 & H3).
  exists f, sheets, sh, g. auto.
Qed.

(** *** Blank rows and columns *)

Lemma slice_In {A : Type} (a b : nat) (l : list A) (x : A) :
  In x (slice a b l) -> In x l.
Proof.
  unfold slice. intros H.
  rewrite <- (firstn_skipn a l). apply in_or_app. right.
  rewrite <- (firstn_skipn (b - a) (skipn a l)). apply in_or_app. now left.
Qed.

Lemma select_nth {A : Type} (mask : list bool) (l : list A) (j : nat) (d : A) :
  j < length l -> nth j mask false = true -> In (nth j l d) (select mask l).
Proof.
  revert l j. induction mask as [|b mask IH]; intros l j Hj Hm.
  - destruct j; discriminate.
  - destruct l as [|x l]; [simpl in Hj; lia|].
    destruct j as [|j]; simpl in *.
    + subst b. now left.
    + assert (H : In (nth j l d) (select mask l)) by (apply IH; [lia|exact Hm]).
      destruct b; [now right|exact H].
Qed.

Lemma row_not_blank (r : list cell) :
  row_is_blank r = false <-> exists c, In c r /\ is_null c = false.
Proof.
  unfold row_is_blank. split.
  - intros H. induction r as [|c r IH]; simpl in H; [discriminate|].
    destruct (is_null c) eqn:Hc.
    + destruct (IH H) as (c' & H1 & H2). exists c'. split; [now right|exact H2].
    + exists c. split; [now left|exact Hc].
  - intros (c & Hin & Hc). destruct (forallb is_null r) eqn:Hf; [|reflexivity].
    rewrite forallb_forall in Hf. rewrite (Hf c Hin) in Hc. discriminate.
Qed.

(** In a rectangular slice, dropping the blank columns leaves no row
    blank. *)
Lemma drop_blank_rows (w : nat) (rws : list (list cell)) (r : list cell) :
  Forall (fun r => length r = w) rws ->
  In r (rows (drop_blank w rws)) -> row_is_blank r = false.
Proof.
  intros Hrect Hr. unfold drop_blank in Hr. simpl in Hr.
  apply in_map_iff in Hr as (r0 & <- & Hr0).
  apply filter_In in Hr0 as [Hin Hnb]. apply negb_true_iff in Hnb.
  apply row_not_blank in Hnb as (c & Hc & Hnull).
  apply row_not_blank. exists c. split; [|exact Hnull].
  destruct (In_nth _ _ CNaN Hc) as (j & Hj & Hnth).
  rewrite Forall_forall in Hrect. rewrite (Hrect r0 Hin) in Hj.
  rewrite <- Hnth. apply select_nth; [now rewrite (Hrect r0 Hin)|].
  set (kept := filter (fun r => negb (row_is_blank r)) rws).
  rewrite (nth_map_in _ (seq 0 w) j 0 false) by now rewrite length_seq.
  rewrite seq_nth by exact Hj. simpl.
  apply existsb_exists. exists r0. split.
  - apply filter_In. split; [exact Hin|]. apply negb_true_iff.
    apply row_not_blank. exists c. auto.
  - rewrite Hnth. now rewrite Hnull.
Qed.

Lemma clean_names_length (i : nat) (cols : list string) :
  length (clean_names i cols) = length cols.
Proof.
  revert i. induction cols as [|c cols IH]; intros i; simpl; [reflexivity|].
  now rewrite IH.
Qed.

Lemma clean_names_nth (s i : nat) (cols : list string) :
  i < length cols ->
  nth i (clean_names s cols) EmptyString
  = if String.eqb (nth i cols EmptyString) "nan"
    then ("Column_" ++ str_of_nat (s + i))%string
    else nth i cols EmptyString.
Proof.
  revert s i. induction cols as [|c cols IH]; intros s i Hi; simpl in *; [lia|].
  destruct i as [|i].
  - now rewrite Nat.add_0_r.
  - rewrite IH by lia. now rewrite Nat.add_succ_r.
Qed.

(** A table cut from a rectangular sheet always has its header
    promoted. *)
Lemma promoted_header (w : nat) (rws : list (list cell)) :
  Forall (fun r => length r = w) rws ->
  df_empty (drop_blank w rws) = false ->
  exists header data,
    rows (drop_blank w rws) = header :: data
    /\ row_is_blank header = false
    /\ promote_header (drop_blank w rws)
       = {| columns := map LStr (header_names header); rows := data |}.
Proof.
  intros Hrect He.
  destruct (rows (drop_blank w rws)) as [|header data] eqn:Hr.
  { unfold df_empty in He. rewrite Hr in He. now destruct (columns _). }
  exists header, data. split; [reflexivity|].
  assert (Hb : row_is_blank header = false).
  { apply (drop_blank_rows w rws header Hrect). rewrite Hr. now left. }
  split; [exact Hb|].
  unfold promote_header. now rewrite Hr, He, Hb.
Qed.

(* ================================================================= *)
(** ** From the segmenter to the unified table *)

Lemma emitted_linked (files : list uploaded_file) (p : frame * manifest_entry) :
  In p (flat_map file_tables files) -> linked p.
Proof.
  intros Hin. destruct p as [t e].
  destruct (parse_emitted files (t, e) Hin) as (f & sheets & sh & g & _ & _ & _ & _ & Hp).
  destruct (sheet_tables_emitted _ _ _ _ _ Hp) as (a & b & k & _ & He2 & Hadd & -> & Hk).
  apply add_traceability_ok in Hadd as (Hc & Hr & _).
  set (td := promote_header (drop_blank (width g) (slice a b g))) in *.
  exists (columns td), (rows td). simpl. rewrite Nat2Z.id.
  repeat split; try assumption; try lia.
  intros H. unfold df_empty in He2. rewrite H in He2. now destruct (columns td).
Qed.

Lemma linked_nonempty (p : frame * manifest_entry) :
  linked p -> df_empty (fst p) = false.
Proof.
  intros (cols & data & Hc & Hr & Hd & _). unfold df_empty. rewrite Hc, Hr.
  simpl. destruct data; [congruence|reflexivity].
Qed.

Lemma linked_columns (p : frame * manifest_entry) :
  linked p ->
  exists rest, clean_columns (fst p) = COL_FILE :: COL_SHEET :: COL_INDEX :: rest.
Proof.
  intros (cols & data & Hc & _). unfold clean_columns. rewrite Hc.
  eexists. reflexivity.
Qed.

Lemma retained_flat_map {B : Type} (G : frame -> list B) (dfs : list frame) :
  Forall (fun df => df_empty df = false) dfs ->
  flat_map (fun p => G (snd p)) (retained dfs) = flat_map G dfs.
Proof.
  unfold retained. generalize 0 as s.
  induction dfs as [|df dfs IH]; intros s H; simpl; [reflexivity|].
  inversion H as [|? ? Hd Hr]; subst. rewrite Hd. simpl.
  f_equal. now apply IH.
Qed.

Lemma flat_map_map {A B C : Type} (f : A -> B) (g : B -> list C) (l : list A) :
  flat_map g (map f l) = flat_map (fun x => g (f x)) l.
Proof. induction l as [|x l IH]; simpl; [reflexivity|now rewrite IH]. Qed.

Lemma map_flat_map {A B C : Type} (h : B -> C) (g : A -> list B) (l : list A) :
  map h (flat_map g l) = flat_map (fun x => map h (g x)) l.
Proof.
  induction l as [|x l IH]; simpl; [reflexivity|]. now rewrite map_app, IH.
Qed.

Lemma flat_map_ext_In {A B : Type} (f g : A -> list B) (l : list A) :
  (forall x, In x l -> f x = g x) -> flat_map f l = flat_map g l.
Proof.
  induction l as [|x l IH]; intros H; simpl; [reflexivity|].
  rewrite (H x) by now left. f_equal. apply IH. intros y Hy. apply H. now right.
Qed.

Lemma find_label_names (c : string) (master : list string) :
  find_label (LStr c) (map LStr master) = index_of c master.
Proof.
  induction master as [|y master IH]; simpl; [reflexivity|].
  destruct (String.eqb c y); [reflexivity|]. now rewrite IH.
Qed.

(** The value an aligned row holds under a column of its table. *)
Lemma aligned_cell (master cols : list string) (row : list cell) (j : nat) :
  NoDup cols -> j < length cols -> In (nth j cols EmptyString) master ->
  exists i,
    index_of (nth j cols EmptyString) master = Some i
    /\ nth i (align_row master cols row) CNaN = normalise (nth j row CNaN).
Proof.
  intros Hnd Hj Hin.
  destruct (index_of_In _ _ Hin) as [i Hi]. exists i. split; [exact Hi|].
  destruct (index_of_Some _ _ _ Hi) as [Hi1 Hi2].
  unfold align_row.
  rewrite (nth_map_in _ master i EmptyString CNaN Hi1), Hi2.
  unfold cell_at. now rewrite (index_of_nth cols j Hnd Hj).
Qed.

Lemma nonempty_In {A : Type} (l : list A) : l <> [] -> exists x, In x l.
Proof. destruct l as [|x l]; [congruence|]. exists x. now left. Qed.

Lemma nil_or_not {A : Type} (l : list A) : l = [] \/ l <> [].
Proof. destruct l; [now left|right; discriminate]. Qed.

Section Pipeline.
Variable set_iteration : list string -> list string.
Variable store_accepts : list string -> bool.
Hypothesis set_iteration_perm :
  forall l, NoDup l -> Permutation l (set_iteration l).

Variable emitted : list (frame * manifest_entry).
Hypothesis emitted_are_linked : forall p, In p emitted -> linked p.

Variables (out : frame) (report : string).
Hypothesis consolidated :
  consolidate_data set_iteration store_accepts (map fst emitted) = Ok (out, report).

Lemma emitted_nonempty :
  Forall (fun df => df_empty df = false) (map fst emitted).
Proof.
  rewrite Forall_forall. intros df Hdf. apply in_map_iff in Hdf as (p & <- & Hp).
  apply linked_nonempty. now apply emitted_are_linked.
Qed.

Lemma emitted_discovered (p : frame * manifest_entry) (x : string) :
  In p emitted -> In x (clean_columns (fst p)) ->
  In x (discovered (retained (map fst emitted))).
Proof.
  intros Hp Hx.
  destruct (retained_In (map fst emitted) (fst p)) as [i Hi].
  - now apply in_map.
  - apply linked_nonempty. now apply emitted_are_linked.
  - apply discovered_In. exists (i, fst p). auto.
Qed.

(** The unified table of at least one emitted table. *)
Lemma consolidated_rows :
  emitted <> [] ->
  exists master,
    columns out = map LStr master
    /\ rows out
       = flat_map (fun p => map (align_row master (clean_columns (fst p)))
                                (rows (fst p))) emitted
    /\ forall p, In p emitted ->
         NoDup (clean_columns (fst p))
         /\ forall x, In x (clean_columns (fst p)) -> In x master.
Proof.
  intros Hne.
  assert (Hd : discovered (retained (map fst emitted)) <> []).
  { destruct (nonempty_In emitted Hne) as [p Hp].
    destruct (linked_columns p (emitted_are_linked p Hp)) as [rest Hc].
    assert (H : In COL_FILE (discovered (retained (map fst emitted)))).
    { apply (emitted_discovered p _ Hp). rewrite Hc. now left. }
    intros H0. rewrite H0 in H. destruct H. }
  destruct (consolidate_ok _ _ _ _ _ consolidated Hd)
    as (master & Hm & _ & Hcols & Hrows & Hamb).
  exists master. split; [exact Hcols|]. split.
  - rewrite Hrows.
    rewrite (retained_flat_map
               (fun df => map (align_row master (clean_columns df)) (rows df))
               (map fst emitted) emitted_nonempty).
    apply flat_map_map.
  - intros p Hp.
    destruct (retained_In (map fst emitted) (fst p)) as [i Hi];
      [now apply in_map|apply linked_nonempty; now apply emitted_are_linked|].
    rewrite Forall_forall in Hamb. split.
    + apply (loaded_columns_NoDup set_iteration set_iteration_perm
               _ master (i, fst p) Hm Hi (Hamb _ Hi)).
    + intros x Hx. apply (master_In set_iteration set_iteration_perm _ _ x Hm).
      now apply (emitted_discovered p x Hp).
Qed.

(** The totals agree whatever the names are. *)
Lemma consolidated_total :
  sum_Z (map row_count (map snd emitted)) = Z.of_nat (length (rows out)).
Proof.
  destruct (nil_or_not emitted) as [He|Hne].
  { assert (Hc := consolidated). rewrite He in Hc |- *.
    unfold consolidate_data in Hc. simpl in Hc. injection Hc as <- _. reflexivity. }
  destruct (consolidated_rows Hne) as (master & _ & Hrows & _).
  rewrite Hrows.
  assert (Hl : forall p, In p emitted -> linked p) by exact emitted_are_linked.
  clear -Hl. induction emitted as [|p l IH]; simpl; [reflexivity|].
  rewrite length_app, length_map, Nat2Z.inj_add, <- IH
    by (intros q Hq; apply Hl; now right).
  destruct (Hl p (or_introl eq_refl)) as (cols & data & _ & Hr & _ & Hc & _).
  rewrite Hr, length_map, Hc. reflexivity.
Qed.
End Pipeline.

(* ================================================================= *)
(** ** The provenance columns of the unified table *)

Section Provenance.
Variable set_iteration : list string -> list string.
Variable store_accepts : list string -> bool.
Hypothesis set_iteration_perm :
  forall l, NoDup l -> Permutation l (set_iteration l).

Variable emitted : list (frame * manifest_entry).
Hypothesis emitted_are_linked : forall p, In p emitted -> linked p.

Variables (out : frame) (report : string).
Hypothesis consolidated :
  consolidate_data set_iteration store_accepts (map fst emitted) = Ok (out, report).
Hypothesis emitted_some : emitted <> [].

(** The column of the unified table that stands at position [j] in every
    emitted table, when every row of the table of an entry holds there a
    value that [h] gives from the key of the entry. *)
Lemma provenance_column (j : nat) (c : string) (h : string * string * Z -> cell) :
  (forall p, In p emitted ->
     j < length (clean_columns (fst p))
     /\ nth j (clean_columns (fst p)) EmptyString = c) ->
  (forall p row, In p emitted -> In row (rows (fst p)) ->
     normalise (nth j row CNaN) = h (entry_key (snd p))) ->
  column_values out c = Some (map h (expected_keys (map snd emitted))).
Proof.
  intros Hpos Hval.
  destruct (consolidated_rows set_iteration store_accepts set_iteration_perm
              emitted emitted_are_linked out report consolidated emitted_some)
    as (master & Hcols & Hrows & Hall).
  destruct (nonempty_In emitted emitted_some) as [p0 Hp0].
  assert (Hin : In c master).
  { destruct (Hpos p0 Hp0) as [Hj Hc]. destruct (Hall p0 Hp0) as [_ Hm].
    apply Hm. rewrite <- Hc. now apply nth_In. }
  destruct (index_of_In c master Hin) as [i Hi].
  unfold column_values. rewrite Hcols, find_label_names, Hi. f_equal.
  rewrite Hrows. unfold expected_keys.
  rewrite map_flat_map, map_flat_map, flat_map_map.
  apply flat_map_ext_In. intros p Hp.
  destruct (Hpos p Hp) as [Hj Hc]. destruct (Hall p Hp) as [Hnd Hm].
  destruct (emitted_are_linked p Hp) as (cols & data & _ & Hr & _ & Hn & _).
  rewrite map_repeat, Hn, Nat2Z.id, <- (length_map
    (with_provenance (file_name (snd p)) (sheet_name (snd p))
                     (Z.to_nat (table_index (snd p)))) data), <- Hr.
  rewrite map_map, <- map_const. apply map_ext_in. intros row Hrow.
  destruct (aligned_cell master (clean_columns (fst p)) row j Hnd Hj) as (i' & Hi' & Hv).
  { apply Hm. now apply nth_In. }
  rewrite Hc, Hi in Hi'. injection Hi' as <-.
  rewrite Hv. now apply Hval.
Qed.
End Provenance.

(* ================================================================= *)
(** ** The validator on rows of known provenance *)

Lemma astype_int_texts (zs : list Z) :
  Forall (fun z => (0 <= z)%Z) zs ->
  astype_int (map (fun z => CStr (str_of_Z z)) zs) = Ok zs.
Proof.
  induction 1 as [|z zs Hz _ IH]; simpl; [reflexivity|].
  now rewrite (int_of_string_str_of_Z z Hz), IH.
Qed.

Lemma count_mask_keys (keys : list (string * string * Z)) (e : manifest_entry) :
  count_mask (map (fun k => fst (fst k)) keys) (map (fun k => snd (fst k)) keys)
             (map snd keys) e
  = Z.of_nat (length (filter (key_eqb e) keys)).
Proof.
  induction keys as [|k keys IH]; simpl; [reflexivity|].
  rewrite IH. unfold key_eqb at 2.
  destruct (_ && _ && _); simpl length; lia.
Qed.

Lemma key_eqb_spec (e : manifest_entry) (k : string * string * Z) :
  key_eqb e k = true <-> k = entry_key e.
Proof.
  destruct k as [[f s] i]. unfold key_eqb, entry_key. simpl.
  rewrite !andb_true_iff, !String.eqb_eq, Z.eqb_eq.
  split; [intros [[-> ->] ->]; reflexivity|intros [= -> -> ->]; auto].
Qed.

Lemma filter_repeat_key (e e' : manifest_entry) (n : nat) :
  filter (key_eqb e) (repeat (entry_key e') n)
  = if key_eqb e (entry_key e') then repeat (entry_key e') n else [].
Proof.
  induction n as [|n IH]; simpl; [now destruct (key_eqb _ _)|].
  rewrite IH. now destruct (key_eqb e (entry_key e')).
Qed.

Lemma expected_keys_absent (e : manifest_entry) (manifest : list manifest_entry) :
  ~ In (entry_key e) (map entry_key manifest) ->
  filter (key_eqb e) (expected_keys manifest) = [].
Proof.
  induction manifest as [|e' m IH]; simpl; [reflexivity|].
  intros H. unfold expected_keys in *. simpl.
  rewrite filter_app, filter_repeat_key, IH by tauto.
  destruct (key_eqb e (entry_key e')) eqn:Hk; [|reflexivity].
  apply key_eqb_spec in Hk. exfalso. apply H. now left.
Qed.

(** With distinct keys, the rows that carry the key of an entry are the
    rows of its table. *)
Lemma expected_keys_count (e : manifest_entry) (manifest : list manifest_entry) :
  NoDup (map entry_key manifest) -> In e manifest ->
  length (filter (key_eqb e) (expected_keys manifest)) = Z.to_nat (row_count e).
Proof.
  induction manifest as [|e' m IH]; simpl; [tauto|].
  intros Hnd Hin. inversion Hnd as [|? ? Hn Hm]; subst.
  unfold expected_keys in *. simpl. rewrite filter_app, filter_repeat_key, length_app.
  destruct Hin as [->|Hin].
  - rewrite (proj2 (key_eqb_spec e (entry_key e)) eq_refl), repeat_length.
    fold (expected_keys m). rewrite (expected_keys_absent e m Hn). simpl. lia.
  - destruct (key_eqb e (entry_key e')) eqn:Hk.
    + apply key_eqb_spec in Hk. exfalso. apply Hn. rewrite Hk.
      now apply in_map.
    + simpl. now apply IH.
Qed.

Lemma count_tables_exact (p : provenance) (manifest sub : list manifest_entry) :
  (forall e, In e sub -> actual_rows p e = Ok (row_count e)) ->
  count_tables p sub = Ok (map (fun e => (e, row_count e)) sub).
Proof.
  induction sub as [|e sub IH]; intros H; simpl; [reflexivity|].
  rewrite (H e) by now left. rewrite IH; [reflexivity|].
  intros e' He'. apply H. now right.
Qed.

Lemma no_mismatch (manifest : list manifest_entry) :
  filter mismatch (map (fun e => (e, row_count e)) manifest) = [].
Proof.
  induction manifest as [|e m IH]; simpl; [reflexivity|].
  unfold mismatch at 1. simpl. now rewrite Z.eqb_refl.
Qed.

(** The summary of a unified table whose provenance columns are what the
    manifest announces. *)
Lemma summary_of_expected (out : frame) (manifest : list manifest_entry) :
  let keys := expected_keys manifest in
  (manifest <> [] ->
   column_values out COL_FILE = Some (map (fun k => CStr (fst (fst k))) keys)
   /\ column_values out COL_SHEET = Some (map (fun k => CStr (snd (fst k))) keys)
   /\ column_values out COL_INDEX = Some (map (fun k => CStr (str_of_Z (snd k))) keys)) ->
  (manifest = [] -> out = empty_frame) ->
  sum_Z (map row_count manifest) = Z.of_nat (length (rows out)) ->
  (forall e, In e manifest -> (0 <= table_index e)%Z /\ (0 <= row_count e)%Z) ->
  NoDup (map entry_key manifest) ->
  get_validation_summary out manifest
  = Ok {| is_valid := true;
          total_source_rows := Z.of_nat (length (rows out));
          total_consolidated_rows := Z.of_nat (length (rows out));
          difference := 0;
          total_tables := length manifest;
          validation_errors := 0;
          totals_match := true |}.
Proof.
  intros keys Hcols Hnil Htot Hpos Hnd.
  unfold get_validation_summary. rewrite Htot, Z.eqb_refl, Z.sub_diag. simpl Z.abs.
  destruct (nil_or_not manifest) as [->|Hne].
  { rewrite (Hnil eq_refl). reflexivity. }
  destruct (Hcols Hne) as (HF & HS & HI).
  assert (Hidx : Forall (fun z => (0 <= z)%Z) (map snd keys)).
  { rewrite Forall_forall. intros z Hz. apply in_map_iff in Hz as (k & <- & Hk).
    unfold keys, expected_keys in Hk. apply in_flat_map in Hk as (e & He & Hk).
    apply repeat_spec in Hk. subst k. simpl. now apply Hpos. }
  unfold correct_types. rewrite HF, HS, HI. simpl option_map.
  rewrite !map_map. simpl.
  rewrite <- (map_map snd (fun z => CStr (str_of_Z z)) keys).
  rewrite (astype_int_texts _ Hidx).
  rewrite (count_tables_exact _ manifest manifest).
  - now rewrite no_mismatch.
  - intros e He. unfold actual_rows. simpl. f_equal.
    rewrite count_mask_keys. unfold keys.
    rewrite (expected_keys_count e manifest Hnd He).
    apply Z2Nat.id. now apply Hpos.
Qed.

(* ================================================================= *)
(** ** The keys of the manifest *)

Lemma sheet_keys (file sheet_nm : string) (g : grid) (e : manifest_entry) :
  In e (map snd (fst (sheet_tables file sheet_nm g))) ->
  file_name e = file /\ sheet_name e = sheet_nm.
Proof.
  intros H. apply in_map_iff in H as ([t e'] & <- & H).
  destruct (sheet_tables_emitted _ _ _ _ _ H) as (a & b & k & _ & _ & _ & -> & _).
  now split.
Qed.

Lemma sheet_keys_NoDup (file sheet_nm : string) (g : grid) :
  NoDup (map entry_key (map snd (fst (sheet_tables file sheet_nm g)))).
Proof.
  rewrite map_map. destruct (sheet_tables_keys file sheet_nm g) as [n ->].
  apply NoDup_map_NoDup_ForallPairs; [|apply seq_NoDup].
  intros x y _ _ [= H]. now apply Nat2Z.inj in H.
Qed.

Lemma sheets_keys (file : string) (sheets : list sheet) (e : manifest_entry) :
  In e (map snd (sheets_tables file sheets)) ->
  file_name e = file /\ In (sheet_name e) (map sheet_title sheets).
Proof.
  intros H. apply in_map_iff in H as (p & <- & H).
  destruct (sheets_tables_In _ _ _ H) as (sh & g & H1 & H2 & H3).
  destruct (sheet_keys file (sheet_title sh) g (snd p)) as [Hf Hs];
    [now apply in_map|].
  split; [exact Hf|]. rewrite Hs. now apply in_map.
Qed.

Lemma sheets_keys_NoDup (file : string) (sheets : list sheet) :
  NoDup (map sheet_title sheets) ->
  NoDup (map entry_key (map snd (sheets_tables file sheets))).
Proof.
  induction sheets as [|sh sheets IH]; simpl; [constructor|].
  intros Hnd. inversion Hnd as [|? ? Hn Hr]; subst.
  destruct (sheet_cells sh) as [g|]; [|constructor].
  assert (Hs := sheet_keys_NoDup file (sheet_title sh) g).
  assert (Hk := sheet_keys file (sheet_title sh) g).
  destruct (sheet_tables file (sheet_title sh) g) as [o ok].
  simpl in Hs, Hk. destruct ok; [|exact Hs].
  rewrite !map_app. apply NoDup_app; [exact Hs|now apply IH|].
  intros k Hk1 Hk2.
  apply in_map_iff in Hk1 as (e1 & <- & He1).
  apply in_map_iff in Hk2 as (e2 & Heq & He2).
  destruct (Hk e1 He1) as [_ Hs1].
  destruct (sheets_keys file sheets e2 He2) as [_ Hs2].
  apply Hn. unfold entry_key in Heq. injection Heq as _ Hsn _.
  rewrite <- Hs1, <- Hsn. exact Hs2.
Qed.

Lemma file_keys (f : uploaded_file) (e : manifest_entry) :
  In e (map snd (file_tables f)) -> file_name e = name f.
Proof.
  unfold file_tables. destruct (workbook f); [|simpl; tauto].
  intros H. now apply sheets_keys in H.
Qed.

(** Files of distinct names whose sheets have distinct titles give
    entries of distinct keys. *)
Lemma manifest_keys_NoDup (files : list uploaded_file) :
  NoDup (map name files) ->
  (forall f sheets, In f files -> workbook f = Some sheets ->
     NoDup (map sheet_title sheets)) ->
  NoDup (map entry_key (map snd (flat_map file_tables files))).
Proof.
  induction files as [|f files IH]; simpl; [constructor|].
  intros Hnd Hsh. inversion Hnd as [|? ? Hn Hr]; subst.
  rewrite !map_app. apply NoDup_app.
  - unfold file_tables. destruct (workbook f) as [sheets|] eqn:Hw; [|constructor].
    apply sheets_keys_NoDup. apply (Hsh f); auto.
  - apply IH; [exact Hr|]. intros f' sheets Hf'. apply Hsh. now right.
  - intros k Hk1 Hk2.
    apply in_map_iff in Hk1 as (e1 & <- & He1).
    apply in_map_iff in Hk2 as (e2 & Heq & He2).
    apply file_keys in He1.
    apply in_map_iff in He2 as (p & <- & Hp).
    apply in_flat_map in Hp as (f' & Hf' & Hp).
    assert (H2 : file_name (snd p) = name f').
    { apply file_keys. now apply in_map. }
    apply Hn. unfold entry_key in Heq. injection Heq as Hfn _ _.
    rewrite <- He1, <- Hfn, H2. now apply in_map.
Qed.

(* ================================================================= *)
(** * The blocks of a sheet *)

(** ** Boundaries and blocks *)

Lemma blank_indices_In (g : grid) (s i : nat) :
  In i (blank_indices s g)
  <-> s <= i < s + length g /\ row_is_blank (nth (i - s) g []) = true.
Proof.
  revert s. induction g as [|r g IH]; intros s; simpl.
  - split; [tauto|lia].
  - assert (Hrec : In i (blank_indices (S s) g)
                   <-> S s <= i < s + S (length g)
                       /\ row_is_blank (nth (i - s) (r :: g) []) = true).
    { rewrite IH. split.
      - intros [H1 H2]. split; [lia|].
        replace (i - s) with (S (i - S s)) by lia. exact H2.
      - intros [H1 H2]. split; [lia|].
        replace (i - s) with (S (i - S s)) in H2 by lia. exact H2. }
    destruct (row_is_blank r) eqn:Hr.
    + simpl. rewrite Hrec. split.
      * intros [<-|[H1 H2]].
        -- split; [lia|]. now rewrite Nat.sub_diag.
        -- split; [lia|exact H2].
      * intros [H1 H2]. destruct (Nat.eq_dec s i) as [->|Hne]; [now left|].
        right. split; [lia|exact H2].
    + rewrite Hrec. split.
      * intros [H1 H2]. split; [lia|exact H2].
      * intros [H1 H2]. split; [|exact H2].
        destruct (Nat.eq_dec s i) as [->|Hne]; [|lia].
        rewrite Nat.sub_diag in H2. simpl in H2. congruence.
Qed.

Lemma slice_start_blank (pre rest : grid) (r : list cell) :
  row_is_blank r = true ->
  slice_start (pre ++ r :: rest) (length pre) = S (length pre).
Proof.
  intros Hr. unfold slice_start.
  assert (H : existsb (Nat.eqb (length pre))
                (blank_indices 0 (pre ++ r :: rest)) = true).
  { apply existsb_exists. exists (length pre). split; [|apply Nat.eqb_refl].
    apply blank_indices_In. rewrite length_app. simpl. split; [lia|].
    rewrite Nat.sub_0_r, app_nth2, Nat.sub_diag by lia. exact Hr. }
  now rewrite H.
Qed.

Lemma slice_start_head (r : list cell) (g : grid) :
  slice_start (r :: g) 0 = if row_is_blank r then 1 else 0.
Proof.
  unfold slice_start. destruct (row_is_blank r) eqn:Hr.
  - exact (slice_start_blank [] g r Hr).
  - destruct (existsb (Nat.eqb 0) (blank_indices 0 (r :: g))) eqn:He; [|reflexivity].
    apply existsb_exists in He as (i & Hi & E). apply Nat.eqb_eq in E. subst i.
    apply blank_indices_In in Hi as [_ Hi]. simpl in Hi. congruence.
Qed.

Lemma slice_prefix {A : Type} (pre rest : list A) (st : nat) :
  st <= length pre -> slice st (length pre) (pre ++ rest) = skipn st pre.
Proof.
  intros H. unfold slice. rewrite skipn_app.
  replace (st - length pre) with 0 by lia. simpl.
  rewrite firstn_app, length_skipn.
  replace (length pre - st - (length pre - st)) with 0 by lia.
  rewrite firstn_O, app_nil_r. apply firstn_all2. rewrite length_skipn. lia.
Qed.

Lemma slice_to_end {A : Type} (l : list A) (st : nat) :
  slice st (length l) l = skipn st l.
Proof. unfold slice. apply firstn_all2. rewrite length_skipn. lia. Qed.

Lemma slice_empty {A : Type} (l : list A) (st stop : nat) :
  stop <= st -> slice st stop l = [].
Proof.
  intros H. unfold slice. replace (stop - st) with 0 by lia. reflexivity.
Qed.

Lemma consecutive_cons (a b : nat) (l : list nat) :
  consecutive (a :: b :: l) = (a, b) :: consecutive (b :: l).
Proof. reflexivity. Qed.

Lemma pieces_nonempty (g : grid) : pieces g <> [].
Proof.
  induction g as [|r g IH]; simpl; [discriminate|].
  destruct (row_is_blank r); [discriminate|].
  destruct (pieces g); discriminate.
Qed.

(** The slices cut between the boundaries that follow [a] are the
    pieces of the rest of the sheet, the first one behind the rows
    already read. *)
Lemma slices_pieces (g rest pre : grid) (a : nat) :
  g = pre ++ rest -> slice_start g a <= length pre ->
  map (slice_of g)
      (consecutive (a :: blank_indices (length pre) rest ++ [length g]))
  = match pieces rest with
    | p :: ps => (skipn (slice_start g a) pre ++ p) :: ps
    | [] => []
    end.
Proof.
  revert pre a. induction rest as [|r rest IH]; intros pre a Hg Ha.
  - rewrite app_nil_r in Hg. subst pre. simpl.
    unfold slice_of. simpl. now rewrite slice_to_end, app_nil_r.
  - assert (Hg' : g = (pre ++ [r]) ++ rest) by now rewrite <- app_assoc.
    assert (Hl : length (pre ++ [r]) = S (length pre))
      by (rewrite length_app; simpl; lia).
    cbn [blank_indices pieces]. destruct (row_is_blank r) eqn:Hr.
    + cbn [app]. rewrite consecutive_cons. cbn [map]. rewrite <- Hl.
      assert (Hs : slice_start g (length pre) = S (length pre)).
      { rewrite Hg. now apply slice_start_blank. }
      rewrite (IH (pre ++ [r]) (length pre) Hg') by (rewrite Hs, Hl; lia).
      rewrite Hs, <- Hl, skipn_all. simpl.
      unfold slice_of at 1. cbn [fst snd].
      rewrite Hg at 2. rewrite (slice_prefix pre (r :: rest) _ Ha), app_nil_r.
      destruct (pieces rest) eqn:Ep; [now elim (pieces_nonempty rest)|reflexivity].
    + rewrite <- Hl.
      rewrite (IH (pre ++ [r]) a Hg') by (rewrite Hl; lia).
      destruct (pieces rest) as [|p ps] eqn:Ep; [now elim (pieces_nonempty rest)|].
      rewrite skipn_app. replace (slice_start g a - length pre) with 0 by lia.
      simpl. now rewrite <- app_assoc.
Qed.

(** The slices of a sheet are its pieces. *)
Lemma sheet_slices (g : grid) :
  map (slice_of g) (consecutive (0 :: blank_indices 0 g ++ [length g]))
  = pieces g.
Proof.
  destruct g as [|r g].
  - reflexivity.
  - destruct (row_is_blank r) eqn:Hr.
    + cbn [blank_indices pieces]. rewrite Hr.
      cbn [app]. rewrite consecutive_cons.
      cbn [map]. unfold slice_of at 1. cbn [fst snd].
      rewrite (slice_empty (r :: g) _ 0) by lia. f_equal.
      assert (Hs : slice_start (r :: g) 0 = 1) by (rewrite slice_start_head; now rewrite Hr).
      change 1 with (length [r]) at 1.
      rewrite (slices_pieces (r :: g) g [r] 0 eq_refl) by (rewrite Hs; simpl; lia).
      rewrite Hs. simpl.
      destruct (pieces g) eqn:Ep; [now elim (pieces_nonempty g)|reflexivity].
    + assert (Hs : slice_start (r :: g) 0 = 0)
        by (rewrite slice_start_head; now rewrite Hr).
      change 0 with (length (@nil (list cell))) at 2.
      rewrite (slices_pieces (r :: g) (r :: g) [] 0 eq_refl)
        by (rewrite Hs; simpl; lia).
      rewrite Hs. simpl.
      destruct (row_is_blank r); [discriminate|].
      destruct (pieces g) eqn:Ep; [now elim (pieces_nonempty g)|reflexivity].
Qed.

Lemma drop_blank_nil (w : nat) : df_empty (drop_blank w []) = true.
Proof.
  unfold drop_blank, df_empty. simpl.
  now destruct (select _ _).
Qed.

(** The loop over the boundaries is the loop over the slices. *)
Lemma extract_tables_slices (file sheet_nm : string) (g : grid)
  (pairs : list (nat * nat)) (idx : nat) :
  extract_tables file sheet_nm g pairs idx
  = tables_of_blocks file sheet_nm (width g) (map (slice_of g) pairs) idx.
Proof.
  revert idx. induction pairs as [|[a b] pairs IH]; intros idx; [reflexivity|].
  cbn [extract_tables map tables_of_blocks].
  unfold slice_of at 1 2 3 4. cbn [fst snd]. fold (slice_start g a).
  destruct (Nat.ltb_spec (slice_start g a) b) as [Hlt|Hge].
  - rewrite !IH. reflexivity.
  - rewrite (slice_empty g _ b Hge), drop_blank_nil. apply IH.
Qed.

Lemma tables_of_blocks_skip (file sheet_nm : string) (w : nat)
  (ps : list (list (list cell))) (idx : nat) :
  tables_of_blocks file sheet_nm w (filter nonempty ps) idx
  = tables_of_blocks file sheet_nm w ps idx.
Proof.
  revert idx. induction ps as [|p ps IH]; intros idx; [reflexivity|].
  destruct p as [|r p]; cbn [filter nonempty].
  - cbn [tables_of_blocks]. rewrite drop_blank_nil. apply IH.
  - cbn [tables_of_blocks]. rewrite !IH. reflexivity.
Qed.

Lemma drop_blank_no_width (b : list (list cell)) : df_empty (drop_blank 0 b) = true.
Proof. reflexivity. Qed.

Lemma tables_of_blocks_no_width (file sheet_nm : string)
  (bs : list (list (list cell))) (idx : nat) :
  tables_of_blocks file sheet_nm 0 bs idx = ([], true).
Proof.
  induction bs as [|b bs IH]; [reflexivity|].
  cbn [tables_of_blocks]. now rewrite drop_blank_no_width.
Qed.

(** The tables of a sheet are read off its blocks, in order. *)
Lemma sheet_tables_blocks (file sheet_nm : string) (g : grid) :
  sheet_tables file sheet_nm g
  = tables_of_blocks file sheet_nm (width g) (blocks g) 1.
Proof.
  unfold sheet_tables, blocks. rewrite tables_of_blocks_skip.
  destruct (df_empty _) eqn:He.
  - unfold df_empty in He. simpl in He.
    destruct g as [|r g]; [reflexivity|].
    destruct (width (r :: g)) eqn:Hw.
    + now rewrite tables_of_blocks_no_width.
    + simpl in He. discriminate.
  - now rewrite extract_tables_slices, sheet_slices.
Qed.

Lemma one_sheet_tables (file title : string) (g : grid) :
  parse_excel_files [one_sheet file title g]
  = (map fst (fst (sheet_tables file title g)),
     map snd (fst (sheet_tables file title g))).
Proof.
  unfold parse_excel_files, one_sheet, file_tables. simpl.
  destruct (sheet_tables file title g) as [out [|]]; simpl;
    now rewrite ?app_nil_r.
Qed.

Lemma pieces_rows (g : grid) (p : list (list cell)) (r : list cell) :
  In p (pieces g) -> In r p -> In r g /\ row_is_blank r = false.
Proof.
  revert p. induction g as [|r0 g IH]; intros p; simpl.
  - intros [<-|[]] [].
  - destruct (row_is_blank r0) eqn:Hb.
    + intros [<-|Hp] Hr; [destruct Hr|].
      destruct (IH p Hp Hr). auto.
    + destruct (pieces g) as [|p0 ps] eqn:Ep.
      * intros [<-|[]] [<-|[]]. auto.
      * intros [<-|Hp] Hr.
        -- destruct Hr as [<-|Hr]; [auto|].
           destruct (IH p0 (or_introl eq_refl) Hr). auto.
        -- destruct (IH p (or_intror Hp) Hr). auto.
Qed.

Lemma select_In {A : Type} (mask : list bool) (l : list A) (x : A) :
  In x (select mask l) -> In x l.
Proof.
  revert l. induction mask as [|b mask IH]; intros [|y l]; simpl; try tauto.
  destruct b; simpl; intros H.
  - destruct H as [->|H]; [now left|right; now apply IH].
  - right. now apply IH.
Qed.

(** What the header promotion makes of a block whose rows are not
    blank. *)
Lemma block_table (w : nat) (r : list cell) (b : list (list cell)) :
  Forall (fun x => length x = w /\ row_is_blank x = false) (r :: b) ->
  exists header data,
    df_empty (drop_blank w (r :: b)) = false
    /\ promote_header (drop_blank w (r :: b))
       = {| columns := map LStr (header_names header); rows := data |}
    /\ length data = length b
    /\ header <> []
    /\ (forall x, In x header -> In x r)
    /\ (forall x, In x r -> is_null x = false -> In x header)
    /\ header = select (block_mask w (r :: b)) r
    /\ data = map (select (block_mask w (r :: b))) b.
Proof.
  intros HF.
  assert (Hlen : Forall (fun x => length x = w) (r :: b)).
  { eapply Forall_impl; [|exact HF]. now intros x [H _]. }
  assert (Hkeep : filter (fun x => negb (row_is_blank x)) (r :: b) = r :: b).
  { apply filter_all. intros x Hx. rewrite Forall_forall in HF.
    destruct (HF x Hx) as [_ ->]. reflexivity. }
  set (mask := map (fun j => existsb (fun x => negb (is_null (nth j x CNaN))) (r :: b))
                   (seq 0 w)).
  assert (Hd : drop_blank w (r :: b)
               = {| columns := select mask (map LInt (seq 0 w));
                    rows := map (select mask) (r :: b) |}).
  { unfold drop_blank. now rewrite Hkeep. }
  assert (Hr : length r = w /\ row_is_blank r = false).
  { rewrite Forall_forall in HF. apply HF. now left. }
  destruct Hr as [Hrw Hrb].
  assert (Hmask : forall x, In x r -> is_null x = false -> In x (select mask r)).
  { intros x Hx Hn. destruct (In_nth _ _ CNaN Hx) as (j & Hj & Hnth).
    rewrite <- Hnth. apply select_nth; [exact Hj|].
    unfold mask. rewrite (nth_map_in _ (seq 0 w) j 0 false)
      by (rewrite length_seq; lia).
    rewrite seq_nth by lia. simpl. now rewrite Hnth, Hn. }
  assert (Hcol : columns (drop_blank w (r :: b)) <> []).
  { rewrite Hd. simpl. apply row_not_blank in Hrb as (c & Hc & Hn).
    destruct (In_nth _ _ CNaN Hc) as (j & Hj & Hnth).
    assert (Hin : In (nth j (map LInt (seq 0 w)) (LInt 0))
                     (select mask (map LInt (seq 0 w)))).
    { apply select_nth; [rewrite length_map, length_seq; lia|].
      unfold mask. rewrite (nth_map_in _ (seq 0 w) j 0 false)
        by (rewrite length_seq; lia).
      rewrite seq_nth by lia. simpl. now rewrite Hnth, Hn. }
    intros E. rewrite E in Hin. contradiction. }
  assert (He : df_empty (drop_blank w (r :: b)) = false).
  { unfold df_empty. destruct (columns (drop_blank w (r :: b))); [congruence|].
    rewrite Hd. reflexivity. }
  destruct (promoted_header w (r :: b) Hlen He) as (header & data & Hrows & Hb & Hp).
  rewrite Hd in Hrows. simpl in Hrows. injection Hrows as Hh Hdata.
  exists header, data. split; [exact He|]. split; [exact Hp|].
  split; [rewrite <- Hdata; apply length_map|].
  split; [intros E; rewrite E in Hb; discriminate|].
  split; [intros x Hx; rewrite <- Hh in Hx; now apply select_In in Hx|].
  split; [intros x Hx Hn; rewrite <- Hh; now apply Hmask|].
  split; symmetry; assumption.
Qed.


(* ================================================================= *)
(** * The column order planner *)

Lemma nodupb_NoDup (l : list string) : nodupb l = true -> NoDup l.
Proof.
  induction l as [|x l IH]; simpl; [constructor|].
  intros H. apply andb_prop in H as [Hx Hl].
  constructor; [|now apply IH].
  apply mem_false. now apply negb_true_iff.
Qed.

Lemma StronglySorted_weaken {A : Type} (R R' : A -> A -> Prop) (l : list A) :
  (forall a b, In a l -> In b l -> R a b -> R' a b) ->
  StronglySorted R l -> StronglySorted R' l.
Proof.
  intros H HS. induction HS as [|a l HS IH Ha]; constructor.
  - apply IH. intros x y Hx Hy. apply H; now right.
  - rewrite Forall_forall in *. intros x Hx.
    apply H; [now left|now right|now apply Ha].
Qed.

Lemma natural_le_of_name_le (a b : string) :
  is_p_column a = true -> is_p_column b = true ->
  has_key a = true -> has_key b = true ->
  name_le a b -> natural_le a b.
Proof.
  intros Ha Hb Ka Kb Hab. exists (key_of a), (key_of b).
  split; [now apply has_key_of|]. split; [now apply has_key_of|].
  rewrite (p_columns_comparable b a Hb Ha Kb Ka). f_equal. exact Hab.
Qed.

(** On question columns that have a key the order of the sort is the
    comparison of the tuples itself. *)
Lemma question_block_natural_sorted (l : list string) :
  keyed l = true -> StronglySorted natural_le (question_block l).
Proof.
  intros K. apply (StronglySorted_weaken name_le); [|apply question_block_sorted].
  rewrite keyed_In in K. intros a b Ha Hb Hab.
  apply question_block_In in Ha as [Ha Pa]. apply question_block_In in Hb as [Hb Pb].
  apply natural_le_of_name_le; auto.
Qed.

Lemma question_block_all_questions (l : list string) :
  Forall is_question (question_block l).
Proof.
  rewrite Forall_forall. intros x Hx. now apply question_block_In in Hx.
Qed.

Lemma key_eqb_eq (k1 k2 : key) : same_key k1 k2 = true <-> k1 = k2.
Proof.
  revert k2. induction k1 as [|a k1 IH]; intros [|b k2]; simpl;
    try (split; [discriminate|congruence]); [tauto|].
  rewrite andb_true_iff, IH, frag_eq_compare.
  rewrite (cmp_eq (cmp := frag_compare)). split.
  - now intros [-> ->].
  - now intros [= -> ->].
Qed.

(** The question columns that have one key stand in the sorted block in
    the order of the enumeration. *)
Lemma question_block_stable (l : list string) (a : string) :
  filter (shares_key a) (question_block l) = filter (shares_key a) l.
Proof.
  unfold question_block.
  rewrite (filter_isort name_ltb name_ltb_asym name_le_trans).
  rewrite filter_filter.
  rewrite (filter_ext (fun x => is_p_column x && shares_key a x) (shares_key a)).
  2:{ intros x. unfold shares_key. now destruct (is_p_column x). }
  apply (isort_sorted_id name_ltb).
  assert (H : forall x, In x (filter (shares_key a) l) -> key_of x = key_of a).
  { intros x Hx. apply filter_In in Hx as [_ Hx]. unfold shares_key in Hx.
    apply andb_prop in Hx as [_ Hx]. symmetry. now apply key_eqb_eq. }
  induction (filter (shares_key a) l) as [|x m IH]; constructor.
  - apply IH. intros y Hy. apply H. now right.
  - rewrite Forall_forall. intros y Hy. unfold name_ltb, key_ltb, key_compare.
    rewrite (H x) by now left. rewrite (H y) by now right.
    now rewrite (cmp_refl (lex_compare frag_compare)).
Qed.

(** C1.  The claim holds of every set but those on which the planner
    raises.  The name [P1²] is a question column; [re.split] cuts it
    into [P], [1] and [²]; the part [²] is a digit for [str.isdigit]
    and no decimal digit, so that [int] raises [ValueError]: the key of
    the name raises, and so does the planner on the set that holds the
    name. *)
Theorem planner_raises_on_non_decimal_digit :
  is_p_column "P1²" = true
  /\ re_split_digits (strip "P1²") = [["P"]; ["1"]; ["²"]]
  /\ isdigit "²" = true
  /\ isdecimal "²" = false
  /\ natural_sort_key "P1²" = Raise ValueError
  /\ _build_intelligent_column_order ["P1²"] = Raise ValueError.
Proof. repeat split; vm_compute; reflexivity. Qed.

(** C3.  On a set that holds a question column whose key raises, the
    planner returns no sequence at all, whatever the enumeration: the
    question columns [P10] and [P2] of the set are not placed. *)
Theorem question_block_raises_on_non_decimal_digit :
  _build_intelligent_column_order ["P10"; "P2"; "P1²"] = Raise ValueError
  /\ _build_intelligent_column_order ["P1²"; "P10"; "P2"] = Raise ValueError
  /\ _build_intelligent_column_order ["P2"; "P1²"; "P10"] = Raise ValueError
  /\ _build_intelligent_column_order ["P10"; "P2"] = Ok ["P2"; "P10"].
Proof. repeat split; vm_compute; reflexivity. Qed.

(** C10.  The name [P5²] begins with an upper-case [P] followed by a
    digit and is not in the reference schema; the planner takes it for
    a question column, and raises when it sorts the question columns:
    the name is placed nowhere. *)
Theorem p_prefixed_column_raises_on_non_decimal_digit :
  is_p_column "P5²" = true
  /\ mem "P5²" TEMPLATE_SCHEMA = false
  /\ filter is_p_column ["Autor"; "P5²"; "P10"] = ["P5²"; "P10"]
  /\ sorted_by_natural_key ["P5²"; "P10"] = Raise ValueError
  /\ _build_intelligent_column_order ["Autor"; "P5²"; "P10"] = Raise ValueError.
Proof. repeat split; vm_compute; reflexivity. Qed.

(** C4, as stated, fails: the key of [P1] is a text followed by an
    integer and the key of [1P] an integer followed by a text, so their
    comparison meets a text against an integer and raises, in both
    directions, and so does sorting the two names by the key. *)
Lemma natural_key_P1_1P_not_comparable :
  natural_sort_key "P1" = Ok [FStr "P"; FInt 1]
  /\ natural_sort_key "1P" = Ok [FInt 1; FStr "P"]
  /\ tuple_lt [FStr "P"; FInt 1] [FInt 1; FStr "P"] = None
  /\ tuple_lt [FInt 1; FStr "P"] [FStr "P"; FInt 1] = None
  /\ sorted_by_natural_key ["P1"; "1P"] = Raise TypeError.
Proof. repeat split; vm_compute; reflexivity. Qed.

(** C4, amended.  The comparison of the natural keys of two question
    columns (names matching [^P\d+]) is always defined, and sorting by
    the key any list of question columns for which the key is returned
    succeeds; the planner, which sorts by this key only its question
    columns, never raises [TypeError]. *)
Theorem natural_key_total_on_question_columns :
  (forall a b ka kb, is_p_column a = true -> is_p_column b = true ->
     natural_sort_key a = Ok ka -> natural_sort_key b = Ok kb ->
     exists r, tuple_lt ka kb = Some r)
  /\ (forall cols,
        Forall (fun c => is_p_column c = true) cols ->
        Forall (fun c => exists k, natural_sort_key c = Ok k) cols ->
        exists sorted, sorted_by_natural_key cols = Ok sorted
                       /\ Permutation sorted cols
                       /\ StronglySorted natural_le sorted)
  /\ (forall all_columns,
        _build_intelligent_column_order all_columns <> Raise TypeError).
Proof.
  split; [|split].
  - intros a b ka kb Ha Hb Ka Kb.
    assert (Ha' : has_key a = true) by (apply has_key_iff; eauto).
    assert (Hb' : has_key b = true) by (apply has_key_iff; eauto).
    assert (H := p_columns_comparable a b Ha Hb Ha' Hb').
    unfold key_of in H. rewrite Ka, Kb in H. eauto.
  - intros cols Hc Hk.
    assert (Hk' : Forall (fun c => has_key c = true) cols).
    { rewrite Forall_forall in *. intros c Hin. apply has_key_iff. now apply Hk. }
    exists (isort name_ltb cols).
    split; [now apply sorted_p_columns|]. split; [apply isort_perm|].
    apply (StronglySorted_weaken name_le).
    + intros a b Ha Hb Hab. rewrite Forall_forall in Hc, Hk'.
      apply (Permutation_in _ (isort_perm name_ltb cols)) in Ha, Hb.
      apply natural_le_of_name_le; auto.
    + apply (isort_sorted name_ltb); [apply name_ltb_asym|apply name_le_trans].
  - intros l H. apply planner_error in H as [H _]. discriminate.
Qed.

Lemma natural_key_total_on_question_columns_witness :
  (exists r, tuple_lt [FStr "P"; FInt 10; FStr "_"; FInt 2]
                      [FStr "P"; FInt 9; FStr "x"] = Some r)
  /\ (exists sorted, sorted_by_natural_key ["P10"; "P9x"; "P2_1"] = Ok sorted
                     /\ Permutation sorted ["P10"; "P9x"; "P2_1"]
                     /\ StronglySorted natural_le sorted)
  /\ _build_intelligent_column_order ["P1"; "1P"] <> Raise TypeError.
Proof.
  destruct natural_key_total_on_question_columns as (H1 & H2 & H3).
  split; [|split].
  - apply (H1 "P10_2" "P9x"); reflexivity.
  - apply H2.
    + repeat constructor.
    + repeat constructor; eexists; vm_compute; reflexivity.
  - apply H3.
Defined.

(** C7, as stated, fails: [P1] and [P01] have the same natural key, the
    sort is stable, and the two enumerations of the set [{P1, P01}]
    give two different results. *)
Lemma planner_depends_on_enumeration :
  Permutation ["P1"; "P01"] ["P01"; "P1"]
  /\ natural_sort_key "P1" = natural_sort_key "P01"
  /\ _build_intelligent_column_order ["P1"; "P01"] = Ok ["P1"; "P01"]
  /\ _build_intelligent_column_order ["P01"; "P1"] = Ok ["P01"; "P1"]
  /\ _build_intelligent_column_order ["P1"; "P01"]
     <> _build_intelligent_column_order ["P01"; "P1"].
Proof.
  split; [apply perm_swap|]. repeat split; try (vm_compute; reflexivity).
  vm_compute. discriminate.
Qed.

(** C7, amended.  The planner is a function of the enumeration it is
    given.  On two enumerations of one set in which distinct question
    columns have distinct natural keys it behaves alike: it returns one
    and the same sequence, or raises on both.  In every sequence it
    returns, the question columns that share a natural key stand in the
    order in which the enumeration has them. *)
Theorem planner_order_independent_without_key_ties (l1 l2 : list string) :
  NoDup l1 ->
  Permutation l1 l2 ->
  ((forall a b k, In a l1 -> In b l1 -> is_p_column a = true ->
      is_p_column b = true ->
      natural_sort_key a = Ok k -> natural_sort_key b = Ok k -> a = b) ->
   _build_intelligent_column_order l1 = _build_intelligent_column_order l2)
  /\ (forall out a,
        _build_intelligent_column_order l1 = Ok out ->
        filter (shares_key a) out = filter (shares_key a) l1).
Proof.
  intros Hnd HP. split.
  - intros Hinj. unfold _build_intelligent_column_order.
    now apply planner_order_independent.
  - intros out a Hout. unfold _build_intelligent_column_order in Hout.
    assert (K := planner_keyed _ _ _ Hout).
    destruct (planner_shape TEMPLATE_SCHEMA l1 Hnd K)
      as (pre & post & Hs & Hpre & Hpost).
    rewrite Hs in Hout. injection Hout as <-.
    assert (Htext : forall m, Forall is_text_column m -> filter (shares_key a) m = []).
    { intros m Hm. apply filter_none. rewrite Forall_forall in Hm.
      intros x Hx. unfold shares_key. now rewrite (Hm x Hx). }
    rewrite !filter_app, (Htext pre Hpre), (Htext post Hpost), app_nil_r.
    apply question_block_stable.
Qed.

Lemma planner_order_independent_without_key_ties_witness :
  _build_intelligent_column_order ["P10"; "P2"; "P1"]
  = _build_intelligent_column_order ["P1"; "P10"; "P2"]
  /\ _build_intelligent_column_order ["P01"; "Autor"; "P1"]
     = Ok ["Autor"; "P01"; "P1"]
  /\ filter (shares_key "P1") ["Autor"; "P01"; "P1"]
     = filter (shares_key "P1") ["P01"; "Autor"; "P1"].
Proof.
  split; [|split].
  - apply (planner_order_independent_without_key_ties
             ["P10"; "P2"; "P1"] ["P1"; "P10"; "P2"]).
    + apply nodupb_NoDup. reflexivity.
    + apply Permutation_sym.
      apply (Permutation_cons_app ["P10"; "P2"] [] "P1"). apply Permutation_refl.
    + intros a b k [<-|[<-|[<-|[]]]] [<-|[<-|[<-|[]]]] _ _ Ha Hb;
        try reflexivity; vm_compute in Ha, Hb; congruence.
  - vm_compute. reflexivity.
  - apply (planner_order_independent_without_key_ties
             ["P01"; "Autor"; "P1"] ["P01"; "Autor"; "P1"]).
    + apply nodupb_NoDup. reflexivity.
    + apply Permutation_refl.
    + vm_compute. reflexivity.
Defined.

(* ================================================================= *)
(** * The consolidation engine *)

(** C9. When the input yields no table, or only empty tables, so that no
    column is discovered, [consolidate_data] returns an empty data frame
    with the exact text [No data found in any tables], and raises
    nothing: the result comes before the planner and the store are
    used. *)
Theorem consolidate_no_data
  (set_iteration : list string -> list string)
  (store_accepts : list string -> bool) (dataframes : list frame) :
  Forall (fun df => df_empty df = true) dataframes ->
  discovered (retained dataframes) = []
  /\ consolidate_data set_iteration store_accepts dataframes
     = Ok ({| columns := []; rows := [] |}, "No data found in any tables").
Proof.
  intros H. unfold consolidate_data.
  rewrite (retained_all_empty dataframes H). split; reflexivity.
Qed.

Lemma consolidate_no_data_witness :
  discovered (retained [empty_frame; {| columns := [LStr "Nome"]; rows := [] |}]) = []
  /\ consolidate_data (fun l => l) (fun _ => true)
       [empty_frame; {| columns := [LStr "Nome"]; rows := [] |}]
     = Ok ({| columns := []; rows := [] |}, "No data found in any tables").
Proof.
  apply (consolidate_no_data (fun l => l) (fun _ => true)
           [empty_frame; {| columns := [LStr "Nome"]; rows := [] |}]).
  repeat constructor.
Defined.

(** C5. In [consolidate_data] every cell whose text after [astype(str)]
    is [nan] is stored as null: the row of the unified table that comes
    from a row of a table holds, under each column of that table, null
    when the text of the cell is [nan] and that text otherwise; no cell
    of the unified table holds the text [nan] or any replacement for
    it. *)
Theorem nan_text_is_stored_as_null
  (set_iteration : list string -> list string)
  (store_accepts : list string -> bool)
  (dataframes : list frame) (out : frame) (report : string) :
  (forall l, NoDup l -> Permutation l (set_iteration l)) ->
  consolidate_data set_iteration store_accepts dataframes = Ok (out, report) ->
  (forall df row,
     In df dataframes -> df_empty df = false -> In row (rows df) ->
     exists stored,
       In stored (rows out)
       /\ forall j, j < length (columns df) ->
          let name := nth j (clean_columns df) EmptyString in
          let text := str_of_cell (nth j row CNaN) in
          (text = "nan" ->
           cell_at (map str_of_label (columns out)) stored name = Some CNone)
          /\ (text <> "nan" ->
              cell_at (map str_of_label (columns out)) stored name
              = Some (CStr text)))
  /\ (forall stored c,
        In stored (rows out) -> In c stored ->
        c = CNone \/ exists s, c = CStr s /\ s <> "nan").
Proof.
  intros Hperm Hok.
  destruct (discovered (retained dataframes)) as [|c0 cs] eqn:Hd.
  { (* nothing discovered: every table is empty *)
    unfold consolidate_data in Hok. rewrite Hd in Hok.
    injection Hok as <- _. split.
    - intros df row Hin He Hrow. exfalso.
      destruct (retained_In dataframes df Hin He) as [i Hi].
      destruct (columns df) as [|lbl lbls] eqn:Hc.
      { unfold df_empty in He. now rewrite Hc in He. }
      assert (Hx : In (strip (str_of_label lbl)) (discovered (retained dataframes))).
      { apply discovered_In. exists (i, df). split; [exact Hi|].
        unfold clean_columns. simpl. rewrite Hc. now left. }
      rewrite Hd in Hx. destruct Hx.
    - intros stored c []. }
  assert (Hne : discovered (retained dataframes) <> []) by (rewrite Hd; discriminate).
  destruct (consolidate_ok _ _ _ _ _ Hok Hne) as (master & Hm & _ & Hcols & Hrows & Hamb).
  assert (Hnames : map str_of_label (columns out) = master).
  { rewrite Hcols, map_map. simpl. apply map_id. }
  rewrite Hnames. split.
  - intros df row Hin He Hrow.
    destruct (retained_In dataframes df Hin He) as [i Hi].
    exists (align_row master (clean_columns df) row). split.
    + rewrite Hrows. apply in_flat_map. exists (i, df). split; [exact Hi|].
      simpl. now apply in_map.
    + intros j Hj. cbv zeta.
      rewrite Forall_forall in Hamb.
      assert (Hsc := stored_cell set_iteration Hperm _ master (i, df) row j
                       Hm Hi (Hamb _ Hi) Hj).
      simpl in Hsc. rewrite Hsc.
      destruct (normalise_spec (nth j row CNaN)) as [H1 H2].
      split; intros H; f_equal; auto.
  - intros stored c Hs Hc. rewrite Hrows in Hs.
    apply in_flat_map in Hs as (p & _ & Hs).
    apply in_map_iff in Hs as (row & <- & _).
    now apply aligned_cells in Hc.
Qed.

Lemma nan_text_is_stored_as_null_witness :
  let df := {| columns := [LStr "Nome"; LStr " Idade "];
               rows := [[CStr "Bob"; CNaN]; [CStr "nan"; CInt 30]] |} in
  let out := {| columns := [LStr "Idade"; LStr "Nome"];
                rows := [[CNone; CStr "Bob"]; [CStr "30"; CNone]] |} in
  consolidate_data (fun l => l) (fun _ => true) [df]
  = Ok (out, "Nenhuma anomalia detectada.")
  /\ (forall df' row,
       In df' [df] -> df_empty df' = false -> In row (rows df') ->
       exists stored,
         In stored (rows out)
         /\ forall j, j < length (columns df') ->
            let name := nth j (clean_columns df') EmptyString in
            let text := str_of_cell (nth j row CNaN) in
            (text = "nan" ->
             cell_at (map str_of_label (columns out)) stored name = Some CNone)
            /\ (text <> "nan" ->
                cell_at (map str_of_label (columns out)) stored name
                = Some (CStr text)))
  /\ (forall stored c,
        In stored (rows out) -> In c stored ->
        c = CNone \/ exists s, c = CStr s /\ s <> "nan").
Proof.
  cbv zeta. split; [reflexivity|].
  apply (nan_text_is_stored_as_null (fun l => l) (fun _ => true)
           [{| columns := [LStr "Nome"; LStr " Idade "];
               rows := [[CStr "Bob"; CNaN]; [CStr "nan"; CInt 30]] |}]
           {| columns := [LStr "Idade"; LStr "Nome"];
              rows := [[CNone; CStr "Bob"]; [CStr "30"; CNone]] |}
           "Nenhuma anomalia detectada.").
  - intros l _. apply Permutation_refl.
  - reflexivity.
Defined.

(* ================================================================= *)
(** * The table segmenter and the validator *)

Lemma blocks_rows (g : grid) :
  rectangular g ->
  Forall (Forall (fun x => length x = width g /\ row_is_blank x = false))
         (blocks g).
Proof.
  intros Hrect. unfold rectangular in Hrect. rewrite Forall_forall in Hrect.
  apply Forall_forall. intros b Hb. apply filter_In in Hb as [Hb _].
  apply Forall_forall. intros r Hr.
  destruct (pieces_rows g b r Hb Hr) as [Hin Hnb]. split; [now apply Hrect|exact Hnb].
Qed.

(** Every table of a sheet comes from one of its blocks: the first row
    of the block, without the columns that are blank in the whole
    block, is the promoted header, and its other rows are the data. *)
Lemma tables_of_blocks_emitted (file title : string) (w : nat)
  (bs : list (list (list cell))) (idx : nat) (t : frame) (e : manifest_entry) :
  Forall (Forall (fun x => length x = w /\ row_is_blank x = false)) bs ->
  In (t, e) (fst (tables_of_blocks file title w bs idx)) ->
  exists b k,
    In b bs /\ 2 <= length b /\ idx <= k
    /\ row_is_blank (select (block_mask w b) (hd [] b)) = false
    /\ add_traceability file title k
         {| columns := map LStr (header_names (select (block_mask w b) (hd [] b)));
            rows := map (select (block_mask w b)) (tl b) |} = Ok t.
Proof.
  revert idx. induction bs as [|b bs IH]; intros idx HF; [simpl; tauto|].
  inversion HF as [|? ? Hb Hbs]; subst.
  assert (Hrest : forall i,
            In (t, e) (fst (tables_of_blocks file title w bs i)) -> idx <= i ->
            exists b' k,
              In b' (b :: bs) /\ 2 <= length b' /\ idx <= k
              /\ row_is_blank (select (block_mask w b') (hd [] b')) = false
              /\ add_traceability file title k
                   {| columns := map LStr (header_names
                                             (select (block_mask w b') (hd [] b')));
                      rows := map (select (block_mask w b')) (tl b') |} = Ok t).
  { intros i Hin Hi. destruct (IH i Hbs Hin) as (b' & k & H1 & H2 & H3 & H4).
    exists b', k. split; [now right|]. split; [exact H2|]. split; [lia|exact H4]. }
  destruct b as [|r b'].
  { cbn [tables_of_blocks]. rewrite drop_blank_nil. intros H. now apply (Hrest idx). }
  destruct (block_table w r b' Hb)
    as (header & data & He & Hp & Hlen & Hne & _ & Hkeep & Hh & Hd).
  cbn [tables_of_blocks]. rewrite He, Hp.
  destruct (df_empty {| columns := map LStr (header_names header); rows := data |})
    eqn:He2; [intros H; now apply (Hrest idx)|].
  destruct (add_traceability _ _ _ _) as [t'|] eqn:Ha; [|simpl; tauto].
  destruct (tables_of_blocks file title w bs (S idx)) as [out ok] eqn:Hout.
  cbn [fst]. intros [[= <- <-]|Hin].
  - exists (r :: b'), idx. split; [now left|].
    assert (Hdata : data <> []).
    { intros ->. unfold df_empty in He2. simpl in He2.
      now destruct (map LStr (header_names header)). }
    split; [destruct b'; [simpl in Hd; congruence|simpl; lia]|].
    split; [lia|]. cbn [hd tl]. rewrite <- Hh, <- Hd. split; [|exact Ha].
    assert (Hrb : row_is_blank r = false).
    { inversion Hb as [|? ? [_ H] _]. exact H. }
    apply row_not_blank in Hrb as (c & Hc & Hn).
    apply row_not_blank. exists c. split; [now apply Hkeep|exact Hn].
  - apply (Hrest (S idx)); [|lia]. now rewrite Hout.
Qed.

(** C6, as stated, fails: a header row that repeats a name, or pads it
    with a blank, gives a table whose column names are neither unique
    nor trimmed. *)
Lemma emitted_columns_not_unique_nor_trimmed :
  let f := {| name := "a.xlsx";
              workbook := Some [ {| sheet_title := "S1";
                                    sheet_cells :=
                                      Some [ [CStr " Nome"; CStr "Nome"; CStr "Nome"];
                                             [CStr "Ana"; CStr "Bia"; CStr "Caio"] ] |} ] |} in
  well_formed f
  /\ map columns (fst (parse_excel_files [f]))
     = [ [LStr COL_FILE; LStr COL_SHEET; LStr COL_INDEX;
          LStr " Nome"; LStr "Nome"; LStr "Nome"] ]
  /\ ~ NoDup [" Nome"; "Nome"; "Nome"]
  /\ strip " Nome" <> " Nome".
Proof.
  cbv zeta. split; [|split; [reflexivity|split]].
  - intros sheets sh g [= <-] [<-|[]] [= <-]. repeat constructor.
  - intros H. inversion H as [|? ? _ H']. inversion H' as [|? ? Hn _].
    apply Hn. now left.
  - discriminate.
Qed.

(** C6, amended.  Every table emitted by [parse_excel_files] for
    rectangular sheets comes from a block of a sheet, a run of at least
    two consecutive rows that are not blank.  Its columns are the three
    provenance names followed by the names of the promoted header, the
    first row of the block without the columns that are blank in the
    whole block: the text of each of its cells, with [Column_<i>] in
    place of the text [nan] of a blank cell at position [i].  No
    promoted name is a provenance name; the names are not trimmed and
    not made unique there. *)
Theorem emitted_table_columns (files : list uploaded_file) (t : frame) :
  Forall well_formed files ->
  In t (fst (parse_excel_files files)) ->
  exists f sheets sh g b,
    In f files /\ workbook f = Some sheets /\ In sh sheets
    /\ sheet_cells sh = Some g /\ In b (data_blocks g)
    /\ let header := select (block_mask (width g) b) (hd [] b) in
       row_is_blank header = false
       /\ columns t = map LStr (traceability_cols ++ header_names header)
       /\ length (header_names header) = length header
       /\ (forall i, i < length header ->
             let text := str_of_cell (nth i header CNaN) in
             nth i (header_names header) EmptyString
             = if String.eqb text "nan"
               then ("Column_" ++ str_of_nat i)%string else text)
       /\ (forall i, i < length header -> nth i header CNaN = CNaN ->
             nth i (header_names header) EmptyString
             = ("Column_" ++ str_of_nat i)%string)
       /\ (forall c, In c traceability_cols -> ~ In c (header_names header))
       /\ length (rows t) = length b - 1.
Proof.
  intros Hwf Hin. unfold parse_excel_files in Hin. simpl in Hin.
  apply in_map_iff in Hin as ([t' e] & <- & Hin). simpl.
  destruct (parse_emitted files (t', e) Hin)
    as (f & sheets & sh & g & Hf & Hw & Hsh & Hg & Hp).
  rewrite Forall_forall in Hwf. assert (Hrect := Hwf f Hf sheets sh g Hw Hsh Hg).
  rewrite sheet_tables_blocks in Hp.
  destruct (tables_of_blocks_emitted _ _ _ _ _ _ _ (blocks_rows g Hrect) Hp)
    as (b & k & Hb & Hlen & _ & Hblank & Hadd).
  exists f, sheets, sh, g, b.
  split; [exact Hf|]. split; [exact Hw|]. split; [exact Hsh|]. split; [exact Hg|].
  split.
  { unfold data_blocks. apply filter_In. split; [exact Hb|]. now apply Nat.leb_le. }
  cbv zeta. set (header := select (block_mask (width g) b) (hd [] b)) in *.
  apply add_traceability_ok in Hadd as (Hc & Hr & Hn). simpl in Hc, Hr, Hn.
  assert (Hnth : forall i, i < length header ->
            nth i (header_names header) EmptyString
            = if String.eqb (str_of_cell (nth i header CNaN)) "nan"
              then ("Column_" ++ str_of_nat i)%string
              else str_of_cell (nth i header CNaN)).
  { intros i Hi. unfold header_names.
    rewrite clean_names_nth by now rewrite length_map.
    now rewrite (nth_map_in str_of_cell header i CNaN EmptyString Hi). }
  split; [exact Hblank|]. split; [rewrite Hc; reflexivity|].
  split; [unfold header_names; now rewrite clean_names_length, length_map|].
  split; [exact Hnth|].
  split; [intros i Hi Hnan; rewrite (Hnth i Hi), Hnan; reflexivity|].
  split; [intros c Hc' Hin'; apply (Hn c Hc'); now apply in_map|].
  rewrite Hr, !length_map. destruct b; simpl; lia.
Qed.

Lemma emitted_table_columns_witness :
  let g := [ [CStr "Nome"; CNaN; CNaN; CStr "Idade"];
             [CStr "Ana"; CStr "sim"; CNaN; CInt 30] ] in
  let f := {| name := "a.xlsx";
              workbook := Some [ {| sheet_title := "S1";
                                    sheet_cells := Some g |} ] |} in
  let t := {| columns := [LStr COL_FILE; LStr COL_SHEET; LStr COL_INDEX;
                          LStr "Nome"; LStr "Column_1"; LStr "Idade"];
              rows := [[CStr "a.xlsx"; CStr "S1"; CInt 1;
                        CStr "Ana"; CStr "sim"; CInt 30]] |} in
  fst (parse_excel_files [f]) = [t]
  /\ data_blocks g = [g]
  /\ select (block_mask (width g) g) (hd [] g) = [CStr "Nome"; CNaN; CStr "Idade"]
  /\ exists f' sheets sh g' b,
       In f' [f] /\ workbook f' = Some sheets /\ In sh sheets
       /\ sheet_cells sh = Some g' /\ In b (data_blocks g')
       /\ let header := select (block_mask (width g') b) (hd [] b) in
          row_is_blank header = false
          /\ columns t = map LStr (traceability_cols ++ header_names header)
          /\ length (header_names header) = length header
          /\ (forall i, i < length header ->
                let text := str_of_cell (nth i header CNaN) in
                nth i (header_names header) EmptyString
                = if String.eqb text "nan"
                  then ("Column_" ++ str_of_nat i)%string else text)
          /\ (forall i, i < length header -> nth i header CNaN = CNaN ->
                nth i (header_names header) EmptyString
                = ("Column_" ++ str_of_nat i)%string)
          /\ (forall c, In c traceability_cols -> ~ In c (header_names header))
          /\ length (rows t) = length b - 1.
Proof.
  cbv zeta. split; [reflexivity|]. split; [reflexivity|]. split; [reflexivity|].
  apply (emitted_table_columns
           [ {| name := "a.xlsx";
                workbook := Some [ {| sheet_title := "S1";
                                      sheet_cells :=
                                        Some [ [CStr "Nome"; CNaN; CNaN; CStr "Idade"];
                                               [CStr "Ana"; CStr "sim"; CNaN; CInt 30] ] |} ] |} ]).
  - constructor; [|constructor].
    intros sheets sh g [= <-] [<-|[]] [= <-]. repeat constructor.
  - simpl. now left.
Defined.

(** A frame that lacks a provenance column makes the validator raise as
    soon as the manifest has an entry. *)
Lemma validator_raises_without_column (df : frame) (e : manifest_entry)
  (rest : list manifest_entry) :
  column_values df COL_FILE = None \/ column_values df COL_SHEET = None
  \/ column_values df COL_INDEX = None ->
  (exists x, validate_consolidation df (e :: rest) = Raise x)
  /\ (exists x, get_validation_summary df (e :: rest) = Raise x).
Proof.
  intros H. unfold validate_consolidation, get_validation_summary. cbv zeta.
  destruct (correct_types df) as [p|x] eqn:Hp; [|split; eauto].
  assert (Hk : actual_rows p e = Raise KeyError).
  { unfold correct_types in Hp. unfold actual_rows.
    destruct (column_values df COL_INDEX) as [ci|].
    - destruct (astype_int ci); [|discriminate]. injection Hp as <-. simpl.
      destruct H as [->|[->|H]]; simpl; try reflexivity; try discriminate.
      now destruct (column_values df COL_FILE).
    - injection Hp as <-. simpl.
      now destruct (column_values df COL_FILE), (column_values df COL_SHEET). }
  simpl. rewrite Hk. split; eauto.
Qed.

(** C8.  The claim does not hold of the code: with one entry in the
    manifest, the validator raises [KeyError] on the empty frame
    [pd.DataFrame()] and on a frame without the table index column,
    where the claim promises a report; on a mere mismatch of the counts
    it does return a report. *)
Theorem validate_consolidation_raises_key_error :
  let entry := {| file_name := "a.xlsx"; sheet_name := "S1";
                  table_index := 1; row_count := 2 |} in
  let no_index := {| columns := [LStr COL_FILE; LStr COL_SHEET; LStr "Nome"];
                     rows := [[CStr "a.xlsx"; CStr "S1"; CStr "Ana"]] |} in
  let one_row := {| columns := [LStr COL_FILE; LStr COL_SHEET; LStr COL_INDEX];
                    rows := [[CStr "a.xlsx"; CStr "S1"; CStr "1"]] |} in
  validate_consolidation empty_frame [entry] = Raise KeyError
  /\ validate_consolidation no_index [entry] = Raise KeyError
  /\ get_validation_summary empty_frame [entry] = Raise KeyError
  /\ (exists report, validate_consolidation one_row [entry] = Ok report)
  /\ (exists report, validate_consolidation empty_frame [] = Ok report).
Proof.
  cbv zeta. repeat split; try reflexivity; eexists; reflexivity.
Qed.

(* ================================================================= *)
(** * Segmenter, consolidation and validator together *)

(** C2, as stated, fails: two uploaded files of the same name give two
    manifest entries of the same provenance; the consolidation
    completes and the totals agree, but each entry matches the rows of
    both tables, and the summary reports two errors and
    [is_valid = false]. *)
Lemma validation_errors_on_colliding_provenance :
  let f := {| name := "a.xlsx";
              workbook := Some [ {| sheet_title := "S1";
                                    sheet_cells := Some [ [CStr "Nome"];
                                                          [CStr "Ana"] ] |} ] |} in
  let files := [f; f] in
  let out := {| columns := [LStr COL_FILE; LStr COL_SHEET; LStr COL_INDEX; LStr "Nome"];
                rows := [ [CStr "a.xlsx"; CStr "S1"; CStr "1"; CStr "Ana"];
                          [CStr "a.xlsx"; CStr "S1"; CStr "1"; CStr "Ana"] ] |} in
  consolidate_data (fun l => l) (fun _ => true) (fst (parse_excel_files files))
  = Ok (out, "Nenhuma anomalia detectada.")
  /\ sum_Z (map row_count (snd (parse_excel_files files)))
     = Z.of_nat (length (rows out))
  /\ get_validation_summary out (snd (parse_excel_files files))
     = Ok {| is_valid := false;
             total_source_rows := 2;
             total_consolidated_rows := 2;
             difference := 0;
             total_tables := 2;
             validation_errors := 2;
             totals_match := true |}.
Proof. cbv zeta. repeat split. Qed.

(** C2, amended.  Whenever the consolidation of the parsed tables
    completes, the row counts of the manifest sum to the number of rows
    of the unified table; and when, besides, the uploaded files have
    pairwise distinct names, the sheets of each workbook pairwise
    distinct titles, and no file or sheet that gave a table is called
    [nan], the summary reports [totals_match = true], no per-table
    error and [is_valid = true]. *)
Theorem pipeline_row_counts_reconcile
  (set_iteration : list string -> list string)
  (store_accepts : list string -> bool)
  (files : list uploaded_file) (out : frame) (report : string) :
  (forall l, NoDup l -> Permutation l (set_iteration l)) ->
  consolidate_data set_iteration store_accepts (fst (parse_excel_files files))
  = Ok (out, report) ->
  let manifest := snd (parse_excel_files files) in
  sum_Z (map row_count manifest) = Z.of_nat (length (rows out))
  /\ (NoDup (map name files) ->
      (forall f sheets, In f files -> workbook f = Some sheets ->
         NoDup (map sheet_title sheets)) ->
      (forall e, In e manifest -> file_name e <> "nan" /\ sheet_name e <> "nan") ->
      get_validation_summary out manifest
      = Ok {| is_valid := true;
              total_source_rows := Z.of_nat (length (rows out));
              total_consolidated_rows := Z.of_nat (length (rows out));
              difference := 0;
              total_tables := length manifest;
              validation_errors := 0;
              totals_match := true |}).
Proof.
  intros Hperm Hok. unfold parse_excel_files in *. simpl fst in Hok. simpl snd.
  set (emitted := flat_map file_tables files) in *.
  assert (Hl : forall p, In p emitted -> linked p) by (apply emitted_linked).
  assert (Htot := consolidated_total set_iteration store_accepts Hperm
                    emitted Hl out report Hok).
  cbv zeta. split; [exact Htot|].
  intros Hnames Hsheets Hnan.
  apply summary_of_expected.
  - intros Hne.
    assert (Hne' : emitted <> []) by (intros H; apply Hne; now rewrite H).
    assert (Hcol : forall j c h,
      (forall p, In p emitted ->
         j < length (clean_columns (fst p))
         /\ nth j (clean_columns (fst p)) EmptyString = c) ->
      (forall p row, In p emitted -> In row (rows (fst p)) ->
         normalise (nth j row CNaN) = h (entry_key (snd p))) ->
      column_values out c = Some (map h (expected_keys (map snd emitted)))).
    { intros j c h. eapply provenance_column; eauto. }
    assert (Hpos : forall p, In p emitted ->
      forall j c, nth j traceability_cols EmptyString = c -> j < 3 ->
      j < length (clean_columns (fst p))
      /\ nth j (clean_columns (fst p)) EmptyString = c).
    { intros p Hp j c Hc Hj. destruct (linked_columns p (Hl p Hp)) as [rest ->].
      simpl. split; [lia|].
      destruct j as [|[|[|j]]]; simpl in *; try exact Hc; lia. }
    assert (Hrow : forall p row, In p emitted -> In row (rows (fst p)) ->
      exists d, row = with_provenance (file_name (snd p)) (sheet_name (snd p))
                                      (Z.to_nat (table_index (snd p))) d
                /\ (1 <= table_index (snd p))%Z).
    { intros p row Hp Hr. destruct (Hl p Hp) as (cols & data & _ & Hrs & _ & _ & Hk).
      rewrite Hrs in Hr. apply in_map_iff in Hr as (d & <- & _). eauto. }
    split; [|split].
    + apply (Hcol 0 COL_FILE).
      * intros p Hp. apply (Hpos p Hp); [reflexivity|lia].
      * intros p row Hp Hr. destruct (Hrow p row Hp Hr) as (d & -> & _).
        unfold normalise. simpl.
        destruct (String.eqb_spec (file_name (snd p)) "nan") as [He|]; [|reflexivity].
        destruct (Hnan (snd p) (in_map snd _ _ Hp)) as [H1 H2]. congruence.
    + apply (Hcol 1 COL_SHEET).
      * intros p Hp. apply (Hpos p Hp); [reflexivity|lia].
      * intros p row Hp Hr. destruct (Hrow p row Hp Hr) as (d & -> & _).
        unfold normalise. simpl.
        destruct (String.eqb_spec (sheet_name (snd p)) "nan") as [He|]; [|reflexivity].
        destruct (Hnan (snd p) (in_map snd _ _ Hp)) as [H1 H2]. congruence.
    + apply (Hcol 2 COL_INDEX).
      * intros p Hp. apply (Hpos p Hp); [reflexivity|lia].
      * intros p row Hp Hr. destruct (Hrow p row Hp Hr) as (d & -> & Hk).
        unfold normalise. simpl. rewrite str_of_Z_not_nan.
        rewrite Z2Nat.id by lia. reflexivity.
  - intros Hnil. assert (He : emitted = []).
    { destruct emitted; [reflexivity|discriminate]. }
    rewrite He in Hok. unfold consolidate_data in Hok. simpl in Hok.
    now injection Hok as <- _.
  - exact Htot.
  - intros e He. apply in_map_iff in He as (p & <- & Hp).
    destruct (Hl p Hp) as (cols & data & _ & _ & _ & Hc & Hk). lia.
  - now apply manifest_keys_NoDup.
Qed.

Lemma pipeline_row_counts_reconcile_witness :
  let f1 := {| name := "a.xlsx";
               workbook := Some [ {| sheet_title := "S1";
                                     sheet_cells :=
                                       Some [ [CStr "Nome"; CStr "Idade"];
                                              [CStr "Ana"; CInt 30];
                                              [CNaN; CNaN];
                                              [CStr "Nome"; CStr "Idade"];
                                              [CStr "Bia"; CInt 41];
                                              [CStr "Caio"; CNaN] ] |} ] |} in
  let f2 := {| name := "b.xlsx";
               workbook := Some [ {| sheet_title := "S1";
                                     sheet_cells := Some [ [CStr "Nome"; CStr "Idade"];
                                                           [CStr "Davi"; CInt 25] ] |} ] |} in
  let files := [f1; f2] in
  let manifest := snd (parse_excel_files files) in
  let out := {| columns := [LStr COL_FILE; LStr COL_SHEET; LStr COL_INDEX;
                            LStr "Idade"; LStr "Nome"];
                rows := [ [CStr "a.xlsx"; CStr "S1"; CStr "1"; CStr "30"; CStr "Ana"];
                          [CStr "a.xlsx"; CStr "S1"; CStr "2"; CStr "41"; CStr "Bia"];
                          [CStr "a.xlsx"; CStr "S1"; CStr "2"; CNone; CStr "Caio"];
                          [CStr "b.xlsx"; CStr "S1"; CStr "1"; CStr "25"; CStr "Davi"] ] |} in
  consolidate_data (fun l => l) (fun _ => true) (fst (parse_excel_files files))
  = Ok (out, "Nenhuma anomalia detectada.")
  /\ sum_Z (map row_count manifest) = 4%Z
  /\ get_validation_summary out manifest
     = Ok {| is_valid := true;
             total_source_rows := 4;
             total_consolidated_rows := 4;
             difference := 0;
             total_tables := 3;
             validation_errors := 0;
             totals_match := true |}.
Proof.
  cbv zeta.
  match goal with
  | |- consolidate_data _ _ (fst (parse_excel_files ?files)) = Ok (?out, ?report) /\ _ =>
      assert (Hok : consolidate_data (fun l => l) (fun _ => true)
                      (fst (parse_excel_files files)) = Ok (out, report))
        by reflexivity;
      destruct (pipeline_row_counts_reconcile (fun l => l) (fun _ => true)
                  files out report (fun l _ => Permutation_refl l) Hok)
        as [Htot Hsum]
  end.
  split; [exact Hok|]. split; [exact Htot|]. apply Hsum.
  - apply nodupb_NoDup. reflexivity.
  - intros f sheets [<-|[<-|[]]] [= <-]; apply nodupb_NoDup; reflexivity.
  - intros e [<-|[<-|[<-|[]]]]; split; discriminate.
Defined.
(* ================================================================= *)
(** * Further properties of the natural key *)

(** ** Texts *)

Lemma is_empty_append (a b : string) :
  is_empty (a ++ b) = is_empty a && is_empty b.
Proof. now destruct a. Qed.


Lemma chars_nil (s : string) : chars s = [] <-> s = EmptyString.
Proof.
  split; [|now intros ->]. intros H. now rewrite <- (join_chars s), H.
Qed.


Lemma chars_app_plain (s v : string) :
  all_chars plain v = true -> chars (s ++ v) = chars s ++ singles v.
Proof.
  intros H. rewrite (chars_app s v (all_plain_continues v H)).
  now rewrite (chars_plain v H).
Qed.




Lemma group_nonempty (ch : string) : group ch = true -> is_empty ch = false.
Proof. now destruct ch. Qed.

Lemma wf_join_nonempty (l : list string) :
  wf_chars false l = true -> nonempty l = true -> is_empty (join l) = false.
Proof.
  destruct l as [|ch l]; [discriminate|]. simpl. intros H _.
  apply andb_prop in H as [H _]. apply andb_prop in H as [H _].
  destruct ch; [discriminate|reflexivity].
Qed.

Lemma drop_space_length (l : list string) : length (drop_space l) <= length l.
Proof.
  induction l as [|ch l IH]; simpl; [lia|].
  destruct (isspace_char ch); simpl; lia.
Qed.

Lemma wf_drop_space (l : list string) :
  wf_chars false l = true -> wf_chars false (drop_space l) = true.
Proof.
  intros H. destruct (drop_space_suffix l) as (u & Hu & _).
  rewrite Hu in H. now apply wf_chars_app in H as [_ H].
Qed.

(** A text that [lstrip] leaves alone does not begin with white space. *)
Lemma lstrip_fixed_head (p : string) :
  is_empty p = false -> lstrip p = p ->
  exists ch r, chars p = ch :: r /\ isspace_char ch = false.
Proof.
  intros Hp Hl. unfold lstrip in Hl.
  assert (Hd : drop_space (chars p) = chars p).
  { rewrite <- Hl at 2. symmetry. apply chars_join, wf_drop_space, wf_chars_chars. }
  destruct (chars p) as [|ch r] eqn:Hc.
  - apply chars_nil in Hc. subst p. discriminate.
  - exists ch, r. split; [reflexivity|]. simpl in Hd.
    destruct (isspace_char ch); [|reflexivity].
    assert (Hlen := drop_space_length r). rewrite Hd in Hlen. simpl in Hlen. lia.
Qed.

Lemma drop_space_app_kept (a b : list string) :
  drop_space a <> [] -> drop_space (a ++ b) = drop_space a ++ b.
Proof.
  induction a as [|x a IH]; simpl; [congruence|].
  destruct (isspace_char x); [exact IH|reflexivity].
Qed.

Lemma rdrop_space_cons_kept (x : string) (l : list string) :
  rdrop_space l = l -> nonempty l = true -> rdrop_space (x :: l) = x :: l.
Proof.
  unfold rdrop_space. intros H Hne. simpl.
  assert (Hd : drop_space (rev l) = rev l).
  { rewrite <- H at 2. now rewrite rev_involutive. }
  rewrite drop_space_app_kept.
  - now rewrite Hd, rev_app_distr, rev_involutive.
  - rewrite Hd. destruct l; [discriminate|]. simpl. now destruct (rev l).
Qed.

Lemma rdrop_space_app_kept (l m : list string) :
  rdrop_space m = m -> nonempty m = true -> rdrop_space (l ++ m) = l ++ m.
Proof.
  intros H Hne. induction l as [|x l IH]; [exact H|].
  simpl. apply rdrop_space_cons_kept; [exact IH|]. now destruct l, m.
Qed.

Lemma digits_not_space (d : string) :
  all_chars is_digit d = true ->
  forallb (fun ch => negb (isspace_char ch)) (singles d) = true.
Proof.
  intros H.
  rewrite (forallb_singles (fun c => negb (is_space c)))
    by (intros c; now rewrite isspace_char_byte).
  now apply digits_no_space.
Qed.

(** Stripping leaves alone a text that does not begin with white space
    and ends with ASCII digits. *)
Lemma strip_chars_text_digits (p d : string) :
  is_empty p = false -> lstrip p = p ->
  is_empty d = false -> all_chars is_digit d = true ->
  chars (strip (p ++ d)) = chars p ++ singles d.
Proof.
  intros Hp Hl Hd Hdd. rewrite chars_strip.
  rewrite (chars_app_plain p d (digits_plain d Hdd)).
  destruct (lstrip_fixed_head p Hp Hl) as (ch & r & -> & Hc).
  cbn [app]. rewrite (strip_chars_keep ch _ Hc). f_equal.
  apply rdrop_space_app_kept.
  - apply rdrop_space_id. now apply digits_not_space.
  - now rewrite nonempty_singles, Hd.
Qed.

(** ** Splitting a name of known shape *)

Lemma split_text (t s cur : list string) :
  forallb (fun ch => negb (isdecimal_char ch)) t = true ->
  split_run false cur (t ++ s) = split_run false (cur ++ t) s.
Proof.
  revert cur. induction t as [|c t IH]; intros cur H; simpl.
  - now rewrite app_nil_r.
  - simpl in H. apply andb_prop in H as [Hc Ht].
    apply negb_true_iff in Hc. rewrite Hc, (IH _ Ht), <- app_assoc. reflexivity.
Qed.

Lemma split_digits (d s cur : list string) :
  forallb isdecimal_char d = true ->
  split_run true cur (d ++ s) = split_run true (cur ++ d) s.
Proof.
  revert cur. induction d as [|c d IH]; intros cur H; simpl.
  - now rewrite app_nil_r.
  - simpl in H. apply andb_prop in H as [Hc Hd].
    rewrite Hc, (IH _ Hd), <- app_assoc. reflexivity.
Qed.

(** A text, then a run of digits and what follows it. *)
Lemma split_text_then_digits (t d s cur : list string) :
  forallb (fun ch => negb (isdecimal_char ch)) t = true ->
  nonempty d = true -> forallb isdecimal_char d = true ->
  split_run false cur (t ++ d ++ s) = (cur ++ t) :: split_run true d s.
Proof.
  intros Ht Hne Hd. rewrite (split_text t _ cur Ht).
  destruct d as [|c d]; [discriminate|]. simpl in Hd.
  apply andb_prop in Hd as [Hc Hd]. simpl. rewrite Hc.
  now rewrite (split_digits d s _ Hd).
Qed.

(** A run of digits, then a text and what follows it. *)
Lemma split_digits_then_text (d t s cur : list string) :
  forallb isdecimal_char d = true ->
  nonempty t = true -> forallb (fun ch => negb (isdecimal_char ch)) t = true ->
  split_run true cur (d ++ t ++ s) = (cur ++ d) :: split_run false t s.
Proof.
  intros Hd Hne Ht. rewrite (split_digits d _ cur Hd).
  destruct t as [|c t]; [discriminate|]. simpl in Ht.
  apply andb_prop in Ht as [Hc Ht].
  apply negb_true_iff in Hc. simpl. rewrite Hc.
  now rewrite (split_text t s _ Ht).
Qed.

(** The key of a text followed by decimal digits. *)
Lemma key_chars_text_digits (p d : list string) :
  nonempty p = true -> forallb (fun ch => negb (isdecimal_char ch)) p = true ->
  nonempty d = true -> forallb isdecimal_char d = true ->
  key_of_parts (split_run false [] (p ++ d))
  = if isdigit_chars p then Raise ValueError
    else Ok [FStr (join p); FInt (int_of_chars d)].
Proof.
  intros Hp Hpt Hd Hdd.
  rewrite <- (app_nil_r d) at 1.
  rewrite (split_text_then_digits p d [] [] Hpt Hd Hdd). cbn [app split_run].
  rewrite (key_of_parts_text p _ Hp Hpt), (key_of_parts_digits d _ Hd Hdd).
  reflexivity.
Qed.

(** The key of a text, decimal digits, a text and decimal digits. *)
Lemma key_chars_text_digits_text_digits (p d q e : list string) :
  nonempty p = true -> forallb (fun ch => negb (isdecimal_char ch)) p = true ->
  nonempty d = true -> forallb isdecimal_char d = true ->
  nonempty q = true -> forallb (fun ch => negb (isdecimal_char ch)) q = true ->
  nonempty e = true -> forallb isdecimal_char e = true ->
  isdigit_chars p = false -> isdigit_chars q = false ->
  key_of_parts (split_run false [] (p ++ d ++ q ++ e))
  = Ok [FStr (join p); FInt (int_of_chars d); FStr (join q); FInt (int_of_chars e)].
Proof.
  intros Hp Hpt Hd Hdd Hq Hqt He Hed Np Nq.
  rewrite (split_text_then_digits p d _ [] Hpt Hd Hdd).
  replace (q ++ e) with ([] ++ q ++ e ++ []) by (simpl; now rewrite app_nil_r).
  rewrite (split_digits_then_text [] q _ d eq_refl Hq Hqt).
  replace (e ++ []) with ([] ++ e ++ []) by reflexivity.
  rewrite (split_text_then_digits [] e [] q eq_refl He Hed).
  cbn [app split_run]. rewrite !app_nil_r.
  rewrite (key_of_parts_text p _ Hp Hpt), Np.
  rewrite (key_of_parts_digits d _ Hd Hdd).
  rewrite (key_of_parts_text q _ Hq Hqt), Nq.
  rewrite (key_of_parts_digits e _ He Hed).
  reflexivity.
Qed.

(** ** Layout of the key of any name *)

Lemma split_run_wf (l : list string) :
  forall b cur, wf_chars false (cur ++ l) = true ->
  Forall (fun part => wf_chars false part = true) (split_run b cur l).
Proof.
  induction l as [|ch l IH]; intros b cur H.
  - rewrite app_nil_r in H. simpl. destruct b; repeat constructor; exact H.
  - assert (H1 : wf_chars false ((cur ++ [ch]) ++ l) = true)
      by now rewrite <- app_assoc.
    assert (H2 := wf_chars_app _ _ _ H). destruct H2 as [Hc Hl].
    change (ch :: l) with ([ch] ++ l) in Hl.
    simpl. destruct (isdecimal_char ch), b; try (now apply IH);
      constructor; try exact Hc; now apply IH.
Qed.

Lemma split_run_kinds (l : list string) :
  forall (b : bool) (cur : list string),
    (if b then forallb isdecimal_char cur
     else forallb (fun ch => negb (isdecimal_char ch)) cur) = true ->
    Forall (fun part => forallb isdecimal_char part = true
                        \/ forallb (fun ch => negb (isdecimal_char ch)) part = true)
           (split_run b cur l).
Proof.
  induction l as [|ch l IH]; intros b cur H.
  - simpl. destruct b.
    + constructor; [now left|]. constructor; [now left|constructor].
    + constructor; [now right|constructor].
  - simpl. destruct (isdecimal_char ch) eqn:Hc, b.
    + apply IH. now rewrite forallb_snoc, H, Hc.
    + constructor; [now right|]. apply IH. simpl. now rewrite Hc.
    + constructor; [now left|]. apply IH. simpl. now rewrite Hc.
    + apply IH. now rewrite forallb_snoc, H, Hc.
Qed.

Lemma key_of_parts_fragments (parts : list (list string)) :
  Forall (fun part => wf_chars false part = true) parts ->
  Forall (fun part => forallb isdecimal_char part = true
                      \/ forallb (fun ch => negb (isdecimal_char ch)) part = true)
         parts ->
  forall k, key_of_parts parts = Ok k -> Forall text_fragment k.
Proof.
  induction parts as [|part rest IH]; intros Hw Hk k.
  - simpl. intros [= <-]. constructor.
  - inversion Hw as [|? ? Hwp Hwr]; subst.
    inversion Hk as [|? ? Hkp Hkr]; subst.
    simpl. destruct (isdigit_chars part) eqn:Hd.
    + destruct (int_of_part part); [|discriminate].
      destruct (key_of_parts rest) as [k'|] eqn:Hr; [|discriminate].
      intros [= <-]. constructor; [exact I|]. now apply IH.
    + destruct (nonempty part) eqn:Hne; [|now apply IH].
      destruct (key_of_parts rest) as [k'|] eqn:Hr; [|discriminate].
      intros [= <-]. constructor; [|now apply IH].
      simpl. split; [now apply wf_join_nonempty|].
      unfold no_decimal, isdigit. rewrite (chars_join part Hwp).
      split; [|exact Hd].
      destruct Hkp as [Hkp|Hkp]; [|exact Hkp].
      rewrite (isdigit_chars_decimal part Hne Hkp) in Hd. discriminate.
Qed.

Lemma split_run_key_nonempty (l : list string) :
  (forall cur k, nonempty cur = true ->
     forallb (fun ch => negb (isdecimal_char ch)) cur = true ->
     key_of_parts (split_run false cur l) = Ok k -> k <> []) /\
  (forall cur k, nonempty cur = true -> forallb isdecimal_char cur = true ->
     key_of_parts (split_run true cur l) = Ok k -> k <> []).
Proof.
  induction l as [|ch l [IHt IHd]]; split; intros cur k Hne Hall.
  - cbn [split_run]. rewrite (key_of_parts_text cur [] Hne Hall).
    destruct (isdigit_chars cur); [discriminate|]. simpl. now intros [= <-].
  - cbn [split_run]. rewrite (key_of_parts_digits cur _ Hne Hall).
    simpl. now intros [= <-].
  - cbn [split_run]. destruct (isdecimal_char ch) eqn:Hc.
    + rewrite (key_of_parts_text cur _ Hne Hall).
      destruct (isdigit_chars cur); [discriminate|].
      destruct (key_of_parts _); [|discriminate]. now intros [= <-].
    + apply IHt; [apply nonempty_snoc|]. now rewrite forallb_snoc, Hall, Hc.
  - cbn [split_run]. destruct (isdecimal_char ch) eqn:Hc.
    + apply IHd; [apply nonempty_snoc|]. now rewrite forallb_snoc, Hall, Hc.
    + rewrite (key_of_parts_digits cur _ Hne Hall).
      destruct (key_of_parts _); [|discriminate]. now intros [= <-].
Qed.

(** The key of a stripped text, by the kind of its first character. *)
Lemma key_of_stripped (s : string) (k : key) :
  key_of_parts (re_split_digits s) = Ok k ->
  alt (negb (starts_with_decimal s)) k = true
  /\ Forall text_fragment k
  /\ (k = [] <-> s = EmptyString).
Proof.
  intros Hk. split; [|split].
  - unfold re_split_digits, starts_with_decimal in *.
    destruct (chars s) as [|ch l]; [simpl in Hk; now injection Hk as <-|].
    cbn [split_run] in Hk. destruct (isdecimal_char ch) eqn:Hc.
    + cbn [key_of_parts isdigit_chars nonempty andb] in Hk.
      apply (proj2 (split_run_alt l) [ch] k); [reflexivity| |exact Hk].
      simpl. now rewrite Hc.
    + apply (proj1 (split_run_alt l) [ch] k); [reflexivity| |exact Hk].
      simpl. now rewrite Hc.
  - apply (key_of_parts_fragments (re_split_digits s)); [| |exact Hk].
    + apply split_run_wf. apply wf_chars_chars.
    + now apply split_run_kinds.
  - rewrite <- chars_nil. unfold re_split_digits in Hk.
    destruct (chars s) as [|ch l].
    + simpl in Hk. injection Hk as <-. tauto.
    + split; [|discriminate]. intros ->. exfalso.
      cbn [split_run] in Hk. destruct (isdecimal_char ch) eqn:Hc.
      * cbn [key_of_parts isdigit_chars nonempty andb] in Hk.
        apply (proj2 (split_run_key_nonempty l) [ch] []) in Hk; auto.
        simpl. now rewrite Hc.
      * apply (proj1 (split_run_key_nonempty l) [ch] []) in Hk; auto.
        simpl. now rewrite Hc.
Qed.

Lemma key_of_parts_raises (parts : list (list string)) :
  key_of_parts parts = Raise ValueError <-> existsb refused parts = true.
Proof.
  induction parts as [|part rest IH]; simpl; [split; discriminate|].
  unfold refused at 1, int_of_part.
  destruct (isdigit_chars part); simpl.
  - destruct (forallb isdecimal_char part); simpl; [|tauto].
    destruct (key_of_parts rest).
    + split; [discriminate|]. intros H. apply IH in H. discriminate.
    + rewrite <- IH. split; intros H; [now injection H as ->|now rewrite H].
  - destruct (nonempty part); [|exact IH].
    destruct (key_of_parts rest).
    + split; [discriminate|]. intros H. apply IH in H. discriminate.
    + rewrite <- IH. split; intros H; [now injection H as ->|now rewrite H].
Qed.

Lemma alt_head (w : bool) (k : key) :
  alt w k = true -> k <> [] ->
  exists f k', k = f :: k'
    /\ match f with FStr _ => w = true | FInt _ => w = false end.
Proof.
  destruct k as [|[t|n] k]; simpl; intros H Hne; [congruence| |].
  - exists (FStr t), k. apply andb_prop in H as [-> _]. auto.
  - exists (FInt n), k. apply andb_prop in H as [H _].
    apply negb_true_iff in H. auto.
Qed.

(** X1.  [natural_sort_key] raises nothing but [ValueError], and raises
    it exactly when one of the parts into which [re.split] cuts the
    stripped name is accepted by [str.isdigit] and holds a digit that
    is not decimal.  A key it returns is a tuple in which texts and
    integers alternate; it begins with an integer exactly when the
    stripped name begins with a decimal digit; its texts are not empty,
    hold no decimal digit and are not made of digits only; and it is
    the empty tuple exactly when the stripped name is empty. *)
Theorem natural_key_layout (column_name : string) :
  (forall e, natural_sort_key column_name = Raise e -> e = ValueError)
  /\ (natural_sort_key column_name = Raise ValueError
      <-> existsb refused (re_split_digits (strip column_name)) = true)
  /\ (forall k, natural_sort_key column_name = Ok k ->
        alt (negb (starts_with_decimal (strip column_name))) k = true
        /\ Forall text_fragment k
        /\ (k = [] <-> strip column_name = EmptyString)).
Proof.
  split; [|split].
  - apply natural_sort_key_error.
  - apply key_of_parts_raises.
  - intros k. apply (key_of_stripped (strip column_name)).
Qed.

(** X2.  Comparing the keys of two names raises exactly when neither
    stripped name is empty and one of them begins with a decimal digit
    while the other does not; in every other case the comparison
    returns. *)
Theorem natural_key_comparison_raises_iff (a b : string) (ka kb : key) :
  natural_sort_key a = Ok ka -> natural_sort_key b = Ok kb ->
  (tuple_lt ka kb = None
   <-> strip a <> EmptyString /\ strip b <> EmptyString
       /\ starts_with_decimal (strip a) <> starts_with_decimal (strip b)).
Proof.
  intros Ka Kb.
  destruct (key_of_stripped (strip a) ka Ka) as (Ha & _ & Hea).
  destruct (key_of_stripped (strip b) kb Kb) as (Hb & _ & Heb).
  split.
  - intros HN. split; [|split].
    + intros E. apply Hea in E. rewrite E in HN. now destruct kb.
    + intros E. apply Heb in E. rewrite E in HN. now destruct ka.
    + intros E. rewrite E in Ha.
      rewrite (tuple_lt_total _ _ _ Ha Hb) in HN. discriminate.
  - intros (Na & Nb & Hd).
    assert (Ka' : ka <> []) by (intros E; now apply Na, Hea).
    assert (Kb' : kb <> []) by (intros E; now apply Nb, Heb).
    destruct (alt_head _ _ Ha Ka') as (fa & ka' & -> & Fa).
    destruct (alt_head _ _ Hb Kb') as (fb & kb' & -> & Fb).
    destruct fa, fb; simpl; try reflexivity; exfalso; apply Hd;
      destruct (starts_with_decimal (strip a)), (starts_with_decimal (strip b));
      simpl in *; congruence.
Qed.

Lemma natural_key_comparison_raises_iff_witness :
  (tuple_lt [FStr "P"; FInt 1] [FInt 1; FStr "P"] = None
   <-> strip "P1" <> EmptyString /\ strip "1P" <> EmptyString
       /\ starts_with_decimal (strip "P1") <> starts_with_decimal (strip "1P")).
Proof.
  apply (natural_key_comparison_raises_iff "P1" "1P"); reflexivity.
Defined.

(** The key of a text followed by ASCII digits. *)
Lemma key_text_digits (p d : string) :
  is_empty p = false -> no_decimal p = true -> lstrip p = p ->
  is_empty d = false -> all_chars is_digit d = true ->
  natural_sort_key (p ++ d)
  = if isdigit p then Raise ValueError
    else Ok [FStr p; FInt (int_of_digits d)].
Proof.
  intros Hp Hpt Hl Hd Hdd. unfold natural_sort_key, re_split_digits.
  rewrite (strip_chars_text_digits p d Hp Hl Hd Hdd).
  destruct (chars_digits d Hdd) as [Hcd Hdec].
  rewrite key_chars_text_digits.
  - unfold isdigit, int_of_digits. now rewrite join_chars, Hcd.
  - destruct (chars p) eqn:E; [|reflexivity].
    apply chars_nil in E. subst p. discriminate.
  - exact Hpt.
  - now rewrite nonempty_singles, Hd.
  - exact Hdec.
Qed.

(** X3.  Take a text that is not empty, holds no decimal digit and does
    not begin with white space, and write a number behind it.  When the
    text is made of digits only (digits that are not decimal, such as
    [²]) the key of the name raises [ValueError].  Otherwise the key is
    (text, number); two such names with one text compare by the value
    of their numbers, not by their digits, and have the same key only
    when the numbers are equal; a zero written before the number does
    not change the key. *)
Theorem natural_key_orders_numbers_by_value (p : string) (n m : nat) :
  is_empty p = false -> no_decimal p = true -> lstrip p = p ->
  (isdigit p = true ->
   natural_sort_key (p ++ str_of_nat n) = Raise ValueError)
  /\ (isdigit p = false ->
      natural_sort_key (p ++ str_of_nat n) = Ok [FStr p; FInt (N.of_nat n)]
      /\ tuple_lt [FStr p; FInt (N.of_nat n)] [FStr p; FInt (N.of_nat m)]
         = Some (Nat.ltb n m)
      /\ (natural_sort_key (p ++ str_of_nat n)
          = natural_sort_key (p ++ str_of_nat m) -> n = m)
      /\ natural_sort_key (p ++ "0" ++ str_of_nat n)
         = natural_sort_key (p ++ str_of_nat n)).
Proof.
  intros Hp Hpt Hl.
  destruct (str_of_nat_digits n) as [Hn Hnd].
  destruct (str_of_nat_digits m) as [Hm Hmd].
  assert (Kn := key_text_digits p _ Hp Hpt Hl Hn Hnd).
  assert (Km := key_text_digits p _ Hp Hpt Hl Hm Hmd).
  rewrite int_of_digits_str_of_nat in Kn, Km.
  split; intros Hi; rewrite Hi in Kn, Km; [exact Kn|].
  split; [exact Kn|]. split; [|split].
  - simpl. rewrite String.eqb_refl.
    destruct (N.eqb_spec (N.of_nat n) (N.of_nat m)) as [E|E].
    + apply Nat2N.inj in E. subst. now rewrite Nat.ltb_irrefl.
    + f_equal. destruct (N.ltb_spec (N.of_nat n) (N.of_nat m)),
        (Nat.ltb_spec n m); try reflexivity; lia.
  - rewrite Kn, Km. intros [= E]. now apply Nat2N.inj.
  - rewrite Kn.
    assert (H0 : is_empty ("0" ++ str_of_nat n) = false) by reflexivity.
    assert (H0d : all_chars is_digit ("0" ++ str_of_nat n) = true)
      by (simpl; exact Hnd).
    rewrite (key_text_digits p _ Hp Hpt Hl H0 H0d), Hi. do 3 f_equal.
    rewrite <- (int_of_digits_str_of_nat n).
    unfold int_of_digits, int_of_chars.
    rewrite (proj1 (chars_digits _ H0d)), (proj1 (chars_digits _ Hnd)).
    reflexivity.
Qed.

Lemma natural_key_orders_numbers_by_value_witness :
  natural_sort_key ("²" ++ str_of_nat 10) = Raise ValueError
  /\ natural_sort_key ("P" ++ str_of_nat 10) = Ok [FStr "P"; FInt 10]
  /\ tuple_lt [FStr "P"; FInt 10] [FStr "P"; FInt 9] = Some (Nat.ltb 10 9)
  /\ (natural_sort_key ("P" ++ str_of_nat 10)
      = natural_sort_key ("P" ++ str_of_nat 9) -> 10 = 9)
  /\ natural_sort_key ("P" ++ "0" ++ str_of_nat 10)
     = natural_sort_key ("P" ++ str_of_nat 10).
Proof.
  split.
  - refine (proj1 (natural_key_orders_numbers_by_value "²" 10 9 _ _ _) _);
      reflexivity.
  - refine (proj2 (natural_key_orders_numbers_by_value "P" 10 9 _ _ _) _);
      reflexivity.
Defined.


(* ================================================================= *)
(** * The question number of a column name *)

Lemma span_digits_spec (l : list string) :
  l = fst (span_digits l) ++ snd (span_digits l)
  /\ forallb isdecimal_char (fst (span_digits l)) = true.
Proof.
  induction l as [|c l (IH1 & IH2)]; simpl; [auto|].
  destruct (isdecimal_char c) eqn:Hc.
  - destruct (span_digits l) as [d r]. simpl in *.
    rewrite Hc, IH2. split; [now rewrite <- IH1|reflexivity].
  - simpl. auto.
Qed.

Lemma span_digits_all (d : list string) :
  forallb isdecimal_char d = true -> span_digits d = (d, []).
Proof.
  induction d as [|c d IH]; simpl; [reflexivity|]. intros H.
  apply andb_prop in H as [Hc Hd]. now rewrite Hc, (IH Hd).
Qed.

Lemma span_digits_then (d r : list string) (x : string) :
  forallb isdecimal_char d = true -> isdecimal_char x = false ->
  span_digits (d ++ x :: r) = (d, x :: r).
Proof.
  intros Hd Hx. induction d as [|c d IH]; simpl.
  - now rewrite Hx.
  - simpl in Hd. apply andb_prop in Hd as [Hc Hd]. now rewrite Hc, (IH Hd).
Qed.

(** What [match_question] accepts: [P] or [p], decimal digits, and
    possibly an underscore and decimal digits, with nothing after
    them. *)
Lemma match_question_chars (s : string) (main : list string)
  (sub : option (list string)) :
  match_question s = Some (main, sub)
  <-> exists c,
        (c = "P" \/ c = "p")
        /\ nonempty main = true /\ forallb isdecimal_char main = true
        /\ match sub with
           | None => chars s = c :: main
           | Some d =>
               nonempty d = true /\ forallb isdecimal_char d = true
               /\ chars s = c :: main ++ "_" :: d
           end.
Proof.
  unfold match_question. split.
  - destruct (chars s) as [|c r]; [discriminate|].
    destruct (String.eqb c "P" || String.eqb c "p") eqn:Hc; [|discriminate].
    assert (HC : c = "P" \/ c = "p").
    { apply orb_prop in Hc as [H|H]; apply String.eqb_eq in H; auto. }
    destruct (span_digits_spec r) as (Hr & Hd).
    destruct (span_digits r) as [m rest]. simpl in Hr, Hd.
    destruct (nonempty m) eqn:Hm; [|discriminate].
    destruct rest as [|u rest'].
    + intros [= <- <-]. exists c. rewrite app_nil_r in Hr. now subst.
    + destruct (String.eqb_spec u "_") as [->|]; [|discriminate].
      destruct (span_digits_spec rest') as (Hr' & Hd').
      destruct (span_digits rest') as [e tail]. simpl in Hr', Hd'.
      destruct (nonempty e) eqn:He; [|discriminate]. simpl.
      destruct tail; [|discriminate]. intros [= <- <-].
      exists c. rewrite app_nil_r in Hr'. subst rest'.
      repeat split; auto. now rewrite Hr.
  - intros (c & HC & Hm & Hd & Hs).
    assert (Hc : String.eqb c "P" || String.eqb c "p" = true).
    { destruct HC as [->| ->]; reflexivity. }
    destruct sub as [d|].
    + destruct Hs as (He & Hed & ->). rewrite Hc.
      rewrite (span_digits_then main d "_" Hd eq_refl), Hm.
      rewrite String.eqb_refl.
      now rewrite (span_digits_all d Hed), He.
    + rewrite Hs, Hc. now rewrite (span_digits_all main Hd), Hm.
Qed.

Lemma letter_chars (c : ascii) (body : string) :
  c = "P"%char \/ c = "p"%char ->
  chars (String c body) = String c EmptyString :: chars body.
Proof. intros [->| ->]; now apply chars_cons_plain. Qed.

Lemma letter_of_char (ch : string) :
  ch = "P" \/ ch = "p" ->
  exists c, (c = "P"%char \/ c = "p"%char) /\ ch = String c EmptyString.
Proof. intros [->| ->]; [exists "P"%char|exists "p"%char]; auto. Qed.

Lemma underscore_chars (s : string) : chars ("_" ++ s) = "_" :: chars s.
Proof. now apply chars_cons_plain. Qed.

Lemma main_sub_chars (main sub : string) :
  chars (main ++ "_" ++ sub) = chars main ++ "_" :: chars sub.
Proof.
  rewrite (chars_app main ("_" ++ sub)) by reflexivity.
  now rewrite underscore_chars.
Qed.

Lemma isdecimal_parts (s : string) :
  isdecimal s = true <->
  nonempty (chars s) = true /\ forallb isdecimal_char (chars s) = true.
Proof. unfold isdecimal. apply andb_true_iff. Qed.

(** The texts of the parts of a well-formed list of characters. *)
Lemma wf_tail (ch : string) (l : list string) :
  wf_chars false (ch :: l) = true -> wf_chars false l = true.
Proof.
  intros H. change (ch :: l) with ([ch] ++ l) in H.
  now apply wf_chars_app in H as [_ H].
Qed.

(** What [match_question] accepts, as texts. *)
Lemma match_question_spec (s : string) :
  (forall main sub,
     match_question s = Some (main, sub) ->
     exists c,
       (c = "P"%char \/ c = "p"%char)
       /\ isdecimal (join main) = true /\ chars (join main) = main
       /\ match sub with
          | None => s = String c (join main)
          | Some d =>
              isdecimal (join d) = true /\ chars (join d) = d
              /\ s = String c (join main ++ "_" ++ join d)
          end)
  /\ (forall c main,
        (c = "P"%char \/ c = "p"%char) -> isdecimal main = true ->
        (s = String c main -> match_question s = Some (chars main, None))
        /\ (forall sub, isdecimal sub = true ->
              s = String c (main ++ "_" ++ sub) ->
              match_question s = Some (chars main, Some (chars sub)))).
Proof.
  split.
  - intros main sub H.
    apply match_question_chars in H as (ch & HC & Hm & Hd & Hs).
    destruct (letter_of_char ch HC) as (c & Hc & ->). exists c.
    split; [exact Hc|].
    assert (Hw := wf_chars_chars s).
    destruct sub as [d|].
    + destruct Hs as (He & Hed & Hs). rewrite Hs in Hw.
      apply wf_tail in Hw. apply wf_chars_app in Hw as [Hwm Hwd].
      apply wf_tail in Hwd.
      assert (Cm := chars_join main Hwm). assert (Cd := chars_join d Hwd).
      unfold isdecimal. rewrite Cm, Cd, Hm, Hd, He, Hed.
      repeat split; auto.
      rewrite <- (join_chars s), Hs. simpl. now rewrite join_app.
    + rewrite Hs in Hw. apply wf_tail in Hw.
      assert (Cm := chars_join main Hw).
      unfold isdecimal. rewrite Cm, Hm, Hd. repeat split; auto.
      rewrite <- (join_chars s), Hs. reflexivity.
  - intros c main HC Hm. apply isdecimal_parts in Hm as [Hm Hd].
    assert (HC' : String c "" = "P" \/ String c "" = "p")
      by (destruct HC as [->| ->]; auto).
    split.
    + intros ->. apply match_question_chars. exists (String c "").
      repeat split; auto. now apply letter_chars.
    + intros sub Hs ->. apply isdecimal_parts in Hs as [Hs Hsd].
      apply match_question_chars. exists (String c "").
      repeat split; auto. rewrite (letter_chars c _ HC).
      now rewrite main_sub_chars.
Qed.

(** X5.  [_extract_question_number] recognises exactly the names that,
    once stripped, are [P] or [p], a run of decimal digits, and possibly
    an underscore and a second run of decimal digits; it then returns
    the two numbers, the second being 0 when the name has no second run;
    for every other name it returns [(False, 0, 0)]. *)
Theorem extract_question_number_recognises (column_name : string) (n m : N) :
  (_extract_question_number column_name = (true, n, m)
   <-> exists c main,
         (c = "P"%char \/ c = "p"%char)
         /\ isdecimal main = true
         /\ n = int_of_digits main
         /\ ((strip column_name = String c main /\ m = 0%N)
             \/ exists sub,
                  isdecimal sub = true
                  /\ strip column_name = String c (main ++ "_" ++ sub)
                  /\ m = int_of_digits sub))
  /\ (fst (fst (_extract_question_number column_name)) = false ->
      _extract_question_number column_name = (false, 0%N, 0%N)).
Proof.
  unfold _extract_question_number.
  destruct (match_question_spec (strip column_name)) as [Hfrom Hto].
  split; [split|].
  - destruct (match_question (strip column_name)) as [[main sub]|] eqn:E;
      [|discriminate].
    destruct (Hfrom main sub eq_refl) as (c & HC & Hm & Cm & Hs).
    intros [= <- <-]. exists c, (join main).
    split; [exact HC|]. split; [exact Hm|].
    split; [unfold int_of_digits; now rewrite Cm|].
    destruct sub as [d|].
    + right. exists (join d). destruct Hs as (Hd & Cd & Hs).
      split; [exact Hd|]. split; [exact Hs|].
      unfold int_of_digits. now rewrite Cd.
    + left. tauto.
  - intros (c & main & HC & Hm & -> & [[Hs ->]|(sub & Hsd & Hs & ->)]).
    + now rewrite (proj1 (Hto c main HC Hm) Hs).
    + now rewrite (proj2 (Hto c main HC Hm) sub Hsd Hs).
  - destruct (match_question (strip column_name)) as [[main sub]|];
      [discriminate|reflexivity].
Qed.




(** X7.  The numbers [_extract_question_number] reads in a name are the
    numbers of its natural key: a recognised name has the key (letter,
    main number) or (letter, main number, underscore, second number).
    When the letter is the upper-case [P] the stripped name is a
    question column of the planner; the planner's test is weaker, as
    [P5extra] is a question column that is not recognised. *)
Theorem extract_question_number_agrees_with_key (column_name : string) (n m : N) :
  _extract_question_number column_name = (true, n, m) ->
  (exists c,
     (c = "P"%char \/ c = "p"%char)
     /\ (natural_sort_key column_name = Ok [FStr (String c ""); FInt n]
         \/ natural_sort_key column_name
            = Ok [FStr (String c ""); FInt n; FStr "_"; FInt m])
     /\ (c = "P"%char -> is_p_column (strip column_name) = true))
  /\ is_p_column "P5extra" = true
  /\ _extract_question_number "P5extra" = (false, 0%N, 0%N).
Proof.
  intros H. split; [|split; vm_compute; reflexivity].
  apply (proj1 (extract_question_number_recognises column_name n m)) in H.
  destruct H as (c & main & HC & Hm & -> & Hs). exists c.
  apply isdecimal_parts in Hm as [Hm Hd].
  assert (Hc1 : forallb (fun ch => negb (isdecimal_char ch)) [String c ""] = true)
    by (destruct HC as [->| ->]; reflexivity).
  assert (Hc2 : isdigit_chars [String c ""] = false)
    by (destruct HC as [->| ->]; reflexivity).
  split; [exact HC|]. split.
  - unfold natural_sort_key, re_split_digits, int_of_digits.
    destruct Hs as [[Hs _]|(sub & He & Hs & ->)]; rewrite Hs, (letter_chars c _ HC).
    + left.
      change (String c "" :: chars main) with ([String c ""] ++ chars main).
      rewrite (key_chars_text_digits [String c ""] (chars main) eq_refl Hc1 Hm Hd).
      now rewrite Hc2.
    + right. apply isdecimal_parts in He as [He Hed].
      rewrite main_sub_chars.
      change (String c "" :: chars main ++ "_" :: chars sub)
        with ([String c ""] ++ chars main ++ ["_"] ++ chars sub).
      now rewrite (key_chars_text_digits_text_digits
                     [String c ""] (chars main) ["_"] (chars sub)
                     eq_refl Hc1 Hm Hd eq_refl eq_refl He Hed Hc2 eq_refl).
  - intros ->. unfold is_p_column.
    assert (Hh : exists d r, chars main = d :: r /\ isdecimal_char d = true).
    { destruct (chars main) as [|d r]; [discriminate|]. simpl in Hd.
      apply andb_prop in Hd as [Hd _]. eauto. }
    destruct Hh as (d & r & Hmain & Hdd).
    destruct Hs as [[-> _]|(sub & _ & -> & _)];
      rewrite (letter_chars "P" _ (or_introl eq_refl)), ?main_sub_chars, Hmain;
      simpl; now rewrite Hdd.
Qed.

Lemma extract_question_number_agrees_with_key_witness :
  (exists c,
     (c = "P"%char \/ c = "p"%char)
     /\ (natural_sort_key "P10_2" = Ok [FStr (String c ""); FInt 10]
         \/ natural_sort_key "P10_2"
            = Ok [FStr (String c ""); FInt 10; FStr "_"; FInt 2])
     /\ (c = "P"%char -> is_p_column (strip "P10_2") = true))
  /\ is_p_column "P5extra" = true
  /\ _extract_question_number "P5extra" = (false, 0%N, 0%N).
Proof.
  apply (extract_question_number_agrees_with_key "P10_2" 10 2). reflexivity.
Defined.

(* ================================================================= *)
(** * Further properties of the column order planner *)

Lemma dedupe_filter (seen l : list string) :
  NoDup l -> dedupe seen l = filter (fun c => negb (mem c seen)) l.
Proof.
  revert seen. induction l as [|c l IH]; intros seen Hnd; simpl; [reflexivity|].
  inversion Hnd as [|? ? Hc Hl]; subst.
  destruct (mem c seen); simpl; [now apply IH|].
  f_equal. rewrite (IH _ Hl). apply filter_ext_in. intros x Hx. simpl.
  destruct (String.eqb_spec x c) as [->|]; [contradiction|reflexivity].
Qed.

Lemma mem_filter (f : string -> bool) (x : string) (l : list string) :
  mem x (filter f l) = mem x l && f x.
Proof.
  destruct (mem x (filter f l)) eqn:E.
  - apply mem_In, filter_In in E as [Hx Hf].
    apply mem_In in Hx. now rewrite Hx, Hf.
  - symmetry. apply not_true_is_false. intros H. apply andb_prop in H as [Hx Hf].
    apply mem_false in E. apply E, filter_In. split; [now apply mem_In|exact Hf].
Qed.

Lemma present_In (l names : list string) (x : string) :
  In x (present l names) <-> In x names /\ In x l.
Proof. unfold present. now rewrite filter_In, mem_In. Qed.

Lemma present_filter (f : string -> bool) (l names : list string) :
  present (filter f l) names = filter f (present l names).
Proof.
  unfold present. rewrite filter_filter. apply filter_ext.
  intros c. apply mem_filter.
Qed.

Lemma present_ext (l1 l2 names : list string) :
  (forall x, In x l1 <-> In x l2) -> present l1 names = present l2 names.
Proof.
  intros H. apply filter_ext. intros c.
  destruct (mem c l2) eqn:E.
  - apply mem_In. apply H. now apply mem_In.
  - apply mem_false. intros Hc. apply mem_false in E. apply E. now apply H.
Qed.

(** ** The walk over the reference schema, exactly *)

Section WalkExact.
Variables all_columns ps : list string.

Lemma walk_copies (t base : list string) (ins : bool) :
  ins = true \/ ps = [] \/ Forall (fun c => is_p_column c = false) t ->
  fold_left (template_step all_columns ps) t (base, ins)
  = (base ++ filter (copied all_columns) t, ins).
Proof.
  revert base. induction t as [|col t IH]; intros base H.
  - simpl. now rewrite app_nil_r.
  - assert (Ht : ins = true \/ ps = [] \/ Forall (fun c => is_p_column c = false) t).
    { destruct H as [H|[H|H]]; auto. inversion H; auto. }
    cbn [fold_left filter]. unfold template_step at 2.
    fold (copied all_columns col).
    destruct (copied all_columns col) eqn:Hc.
    + rewrite (IH _ Ht). now rewrite <- app_assoc.
    + assert (Hn : is_p_column col && negb ins && nonempty ps = false).
      { destruct H as [->|[->|H]].
        - now rewrite andb_false_r.
        - now rewrite andb_false_r.
        - inversion H as [|? ? Hp _]; subst. now rewrite Hp. }
      rewrite Hn. now apply IH.
Qed.

Lemma walk_exact (pre post : list string) (p : string) :
  Forall (fun c => is_p_column c = false) pre -> is_p_column p = true ->
  build_base_schema (pre ++ p :: post) all_columns ps
  = filter (copied all_columns) pre ++ ps ++ filter (copied all_columns) post.
Proof.
  intros Hpre Hp. unfold build_base_schema.
  rewrite fold_left_app, (walk_copies pre [] false) by auto.
  cbn [fold_left app]. unfold template_step at 2.
  rewrite Hp. cbn [negb andb].
  destruct ps as [|q ps'] eqn:E.
  - cbn [nonempty]. rewrite <- E, (walk_copies post _ false) by auto.
    rewrite E. simpl. reflexivity.
  - cbn [nonempty]. rewrite <- E, (walk_copies post _ true) by auto.
    simpl. now rewrite <- app_assoc.
Qed.
End WalkExact.

Lemma copied_filter (l t : list string) :
  filter (copied l) t
  = present l (filter (fun c => negb (is_p_column c)
                                && negb (mem c traceability_cols)) t).
Proof.
  unfold present. rewrite filter_filter. apply filter_ext. intros c.
  unfold copied.
  now destruct (is_p_column c), (mem c l), (mem c traceability_cols).
Qed.

(** The reference schema around its first question column. *)
Lemma template_split :
  TEMPLATE_SCHEMA = LEADING_COLUMNS ++ "P1" :: skipn 16 TEMPLATE_SCHEMA.
Proof. reflexivity. Qed.

Lemma base_schema_exact (l ps : list string) :
  build_base_schema TEMPLATE_SCHEMA l ps
  = present l LEADING_COLUMNS ++ ps ++ present l TRAILING_COLUMNS.
Proof.
  assert (Hpre : Forall (fun c => is_p_column c = false) LEADING_COLUMNS).
  { apply Forall_forall. intros c Hc.
    assert (H : forallb (fun c => negb (is_p_column c)) LEADING_COLUMNS = true)
      by reflexivity.
    rewrite forallb_forall in H. apply negb_true_iff. now apply H. }
  rewrite template_split at 1.
  rewrite (walk_exact l ps _ _ "P1" Hpre eq_refl).
  rewrite !copied_filter. reflexivity.
Qed.

Lemma fixed_columns_known (c : string) :
  In c (traceability_cols ++ LEADING_COLUMNS ++ TRAILING_COLUMNS) ->
  is_p_column c = false /\ mem c (traceability_cols ++ TEMPLATE_SCHEMA) = true.
Proof.
  revert c. apply Forall_forall.
  apply Forall_forall. intros c Hc.
  assert (H : forallb (fun c => negb (is_p_column c)
                                && mem c (traceability_cols ++ TEMPLATE_SCHEMA))
                (traceability_cols ++ LEADING_COLUMNS ++ TRAILING_COLUMNS) = true)
    by reflexivity.
  rewrite forallb_forall in H. specialize (H c Hc).
  apply andb_prop in H as [H1 H2]. apply negb_true_iff in H1. now split.
Qed.

Lemma fixed_columns_NoDup :
  NoDup (traceability_cols ++ LEADING_COLUMNS ++ TRAILING_COLUMNS).
Proof. apply nodupb_NoDup. reflexivity. Qed.

(** The part of the result that the reference schema fixes. *)
Lemma fixed_part (l : list string) :
  present l traceability_cols ++ present l LEADING_COLUMNS
  ++ present l TRAILING_COLUMNS
  = present l (traceability_cols ++ LEADING_COLUMNS ++ TRAILING_COLUMNS).
Proof. unfold present. now rewrite !filter_app. Qed.

Lemma other_columns_sorted (l : list string) :
  StronglySorted (fun a b => String.ltb b a = false) (other_columns l).
Proof.
  apply (isort_sorted String.ltb).
  - apply string_ltb_asym.
  - intros a b c. apply string_le_trans.
Qed.

Lemma other_columns_In (l : list string) (x : string) :
  In x (other_columns l)
  <-> In x l /\ mem x (traceability_cols ++ TEMPLATE_SCHEMA) = false
      /\ is_p_column x = false.
Proof.
  unfold other_columns, sort_strings.
  set (f := fun col => negb (mem col (traceability_cols ++ TEMPLATE_SCHEMA))
                       && negb (is_p_column col)).
  assert (HP := isort_perm String.ltb (filter f l)).
  assert (Hf : In x (filter f l)
               <-> In x l /\ mem x (traceability_cols ++ TEMPLATE_SCHEMA) = false
                   /\ is_p_column x = false).
  { rewrite filter_In. unfold f.
    destruct (mem x (traceability_cols ++ TEMPLATE_SCHEMA)), (is_p_column x);
      simpl; intuition congruence. }
  rewrite <- Hf. split; apply Permutation_in; [|apply Permutation_sym]; exact HP.
Qed.

Lemma ok_eq {A : Type} (a b : A) : Ok a = Ok b -> a = b.
Proof. now intros [= ->]. Qed.

Lemma keyed_ext (l1 l2 : list string) :
  (forall x, In x l2 -> In x l1) -> keyed l1 = true -> keyed l2 = true.
Proof.
  intros H K. rewrite keyed_In in *. intros c Hc. apply K. now apply H.
Qed.

(** The whole result, for an enumeration without repetition whose
    question columns have a key. *)
Lemma planner_exact (l : list string) :
  NoDup l -> keyed l = true ->
  _build_intelligent_column_order l
  = Ok (present l traceability_cols ++ present l LEADING_COLUMNS
        ++ question_block l ++ present l TRAILING_COLUMNS
        ++ other_columns l).
Proof.
  intros Hnd K. unfold _build_intelligent_column_order, build_order_with.
  rewrite (sorted_question_columns l K). cbv zeta. rewrite base_schema_exact.
  fold (present l traceability_cols).
  set (T := present l traceability_cols).
  set (A := present l LEADING_COLUMNS).
  set (B := present l TRAILING_COLUMNS).
  set (Q := question_block l).
  set (U := filter (fun col => negb (mem col (traceability_cols ++ TEMPLATE_SCHEMA))) l).
  set (X := T ++ A ++ Q ++ B).
  assert (HX : (T ++ A ++ Q ++ B) ++ sort_strings U = X ++ sort_strings U)
    by reflexivity.
  replace ((T ++ A ++ Q ++ B) ++ sort_strings U)
    with (X ++ sort_strings U) by reflexivity.
  assert (HQ : NoDup Q).
  { apply (Permutation_NoDup (Permutation_sym (question_block_perm l))).
    now apply NoDup_filter. }
  assert (HF : forall c, In c (T ++ A ++ B) ->
             is_p_column c = false
             /\ mem c (traceability_cols ++ TEMPLATE_SCHEMA) = true).
  { intros c Hc. apply fixed_columns_known.
    unfold T, A, B in Hc. rewrite fixed_part in Hc.
    now apply present_In in Hc. }
  assert (HXnd : NoDup X).
  { apply (Permutation_NoDup (l := Q ++ (T ++ A) ++ B)).
    - unfold X. rewrite (app_assoc T A), (app_assoc (T ++ A) Q).
      rewrite (app_assoc Q (T ++ A)).
      apply Permutation_app_tail, Permutation_app_comm.
    - apply NoDup_app; [exact HQ| |].
      + rewrite <- app_assoc. unfold T, A, B. rewrite fixed_part.
        apply NoDup_filter, fixed_columns_NoDup.
      + intros c Hc Hc'. apply question_block_In in Hc as [_ Hp].
        rewrite <- app_assoc in Hc'. apply HF in Hc' as [Hn _]. congruence. }
  assert (HXin : forall c, In c X <-> In c (T ++ A ++ B) \/ In c Q).
  { intros c. unfold X. rewrite !in_app_iff. tauto. }
  rewrite dedupe_app, (dedupe_id [] X HXnd) by reflexivity.
  rewrite app_nil_r. unfold X at 1. rewrite <- !app_assoc.
  do 4 f_equal.
  assert (HS : NoDup (sort_strings U)).
  { apply (Permutation_NoDup (Permutation_sym (isort_perm String.ltb U))).
    now apply NoDup_filter. }
  rewrite (dedupe_filter X _ HS).
  rewrite (filter_ext_in (fun c => negb (mem c X))
             (fun c => negb (is_p_column c))).
  - unfold sort_strings, other_columns, U.
    rewrite (filter_isort String.ltb string_ltb_asym
               (fun a b c => string_le_trans a b c)).
    now rewrite filter_filter.
  - intros c Hc.
    apply (Permutation_in _ (isort_perm String.ltb U)) in Hc.
    apply filter_In in Hc as [Hl Hk]. apply negb_true_iff in Hk. f_equal.
    destruct (is_p_column c) eqn:Hp.
    + apply mem_In, HXin. right. apply question_block_In. now split.
    + apply mem_false. intros Hx. apply HXin in Hx as [Hx|Hx].
      * apply HF in Hx as [_ Hx]. congruence.
      * apply question_block_In in Hx as [_ Hx]. congruence.
Qed.

(** X8.  The planner raises [ValueError] when the key of one of the
    question columns raises, and nothing else makes it raise.
    Otherwise it returns, in this order: the provenance columns that
    are present, in their fixed order; the present entries of the
    reference schema that stand before its first question column, in
    the order of the schema; all question columns, sorted by the
    natural key; the present entries [IDADE], [ID], [EMP], [FONE] and
    [audios_urls], in this order; and every other name, in ascending
    order of the strings. *)
Theorem planner_layout (all_columns : list string) :
  NoDup all_columns ->
  (keyed all_columns = false
   <-> exists col, In col all_columns /\ is_p_column col = true
                   /\ natural_sort_key col = Raise ValueError)
  /\ (keyed all_columns = false ->
      _build_intelligent_column_order all_columns = Raise ValueError)
  /\ (keyed all_columns = true ->
      _build_intelligent_column_order all_columns
      = Ok (present all_columns traceability_cols
            ++ present all_columns LEADING_COLUMNS
            ++ question_block all_columns
            ++ present all_columns TRAILING_COLUMNS
            ++ other_columns all_columns)
      /\ sorted_by_natural_key (filter is_p_column all_columns)
         = Ok (question_block all_columns))
  /\ StronglySorted (fun a b => String.ltb b a = false)
                    (other_columns all_columns)
  /\ (forall col, In col (other_columns all_columns)
        <-> In col all_columns
            /\ ~ In col (traceability_cols ++ TEMPLATE_SCHEMA)
            /\ is_p_column col = false).
Proof.
  intros Hnd. split; [apply keyed_false|].
  split; [apply planner_raises|].
  split; [intros K; split; [now apply planner_exact|now apply sorted_question_columns]|].
  split; [apply other_columns_sorted|].
  intros col. rewrite other_columns_In, mem_false. tauto.
Qed.

Lemma planner_layout_witness :
  let l := ["Zeta"; "ID"; "P10"; COL_SHEET; "Autor"; "P2"; "Alfa"; COL_FILE] in
  _build_intelligent_column_order l
  = Ok ([COL_FILE; COL_SHEET] ++ ["Autor"] ++ ["P2"; "P10"] ++ ["ID"]
        ++ ["Alfa"; "Zeta"])
  /\ _build_intelligent_column_order l
     = Ok (present l traceability_cols ++ present l LEADING_COLUMNS
           ++ question_block l ++ present l TRAILING_COLUMNS
           ++ other_columns l)
  /\ sorted_by_natural_key (filter is_p_column l) = Ok (question_block l)
  /\ _build_intelligent_column_order ["Autor"; "P2²"; "P1"] = Raise ValueError.
Proof.
  split; [vm_compute; reflexivity|].
  assert (Hnd : NoDup ["Zeta"; "ID"; "P10"; COL_SHEET; "Autor"; "P2"; "Alfa"; COL_FILE])
    by (apply nodupb_NoDup; vm_compute; reflexivity).
  assert (Hnd' : NoDup ["Autor"; "P2²"; "P1"])
    by (apply nodupb_NoDup; vm_compute; reflexivity).
  split; [|split].
  - refine (proj1 (proj1 (proj2 (proj2 (planner_layout _ Hnd))) _)).
    vm_compute; reflexivity.
  - refine (proj2 (proj1 (proj2 (proj2 (planner_layout _ Hnd))) _)).
    vm_compute; reflexivity.
  - refine (proj1 (proj2 (planner_layout _ Hnd')) _).
    vm_compute; reflexivity.
Defined.

(** ** Planning again, and planning fewer columns *)

Lemma question_block_filter (f : string -> bool) (l : list string) :
  question_block (filter f l) = filter f (question_block l).
Proof.
  unfold question_block.
  rewrite (filter_isort name_ltb name_ltb_asym name_le_trans).
  rewrite !filter_filter. f_equal. apply filter_ext. intros c. apply andb_comm.
Qed.

Lemma other_columns_filter (f : string -> bool) (l : list string) :
  other_columns (filter f l) = filter f (other_columns l).
Proof.
  unfold other_columns, sort_strings.
  rewrite (filter_isort String.ltb string_ltb_asym
             (fun a b c => string_le_trans a b c)).
  rewrite !filter_filter. f_equal. apply filter_ext. intros c. apply andb_comm.
Qed.

(** X9.  Leaving columns out of the input leaves them out of the
    result and changes nothing else: the plan of a part of the columns
    is the plan of all of them without the columns left out, the others
    keeping their relative order. *)
Theorem planner_commutes_with_selection
  (keep : string -> bool) (all_columns out : list string) :
  NoDup all_columns ->
  _build_intelligent_column_order all_columns = Ok out ->
  _build_intelligent_column_order (filter keep all_columns)
  = Ok (filter keep out).
Proof.
  intros Hnd Hout. assert (K := planner_keyed _ _ _ Hout).
  rewrite (planner_exact all_columns Hnd K) in Hout.
  apply ok_eq in Hout. subst out.
  assert (K' : keyed (filter keep all_columns) = true).
  { apply (keyed_ext all_columns); [|exact K].
    intros x Hx. now apply filter_In in Hx. }
  rewrite (planner_exact _ (NoDup_filter keep Hnd) K').
  rewrite !filter_app, !present_filter.
  now rewrite question_block_filter, other_columns_filter.
Qed.

Lemma planner_commutes_with_selection_witness :
  _build_intelligent_column_order
    (filter (fun c => negb (String.eqb c "P2")) ["Zeta"; "P10"; "Autor"; "P2"; "P01"; "P1"])
  = Ok (filter (fun c => negb (String.eqb c "P2")) ["Autor"; "P01"; "P1"; "P2"; "P10"; "Zeta"]).
Proof.
  apply (planner_commutes_with_selection (fun c => negb (String.eqb c "P2"))
           ["Zeta"; "P10"; "Autor"; "P2"; "P01"; "P1"]).
  - apply nodupb_NoDup. vm_compute. reflexivity.
  - vm_compute. reflexivity.
Defined.

Lemma filter_segments {A : Type} (f : A -> bool) (l1 l2 l3 : list A) :
  (forall x, In x l1 -> f x = false) ->
  (forall x, In x l2 -> f x = true) ->
  (forall x, In x l3 -> f x = false) ->
  filter f (l1 ++ l2 ++ l3) = l2.
Proof.
  intros H1 H2 H3.
  rewrite !filter_app, (filter_none f l1 H1), (filter_all f l2 H2),
    (filter_none f l3 H3).
  simpl. apply app_nil_r.
Qed.

(** X10.  The planner is idempotent: planning the sequence it returned
    returns the same sequence. *)
Theorem planner_idempotent (all_columns out : list string) :
  NoDup all_columns ->
  _build_intelligent_column_order all_columns = Ok out ->
  _build_intelligent_column_order out = Ok out.
Proof.
  intros Hnd Hout.
  assert (K := planner_keyed _ _ _ Hout).
  assert (HndO : NoDup out) by exact (planner_NoDup _ _ _ Hout).
  assert (Hin : forall x, In x out <-> In x all_columns)
    by (intros x; exact (planner_In _ _ _ x Hout)).
  assert (KO : keyed out = true).
  { apply (keyed_ext all_columns); [|exact K]. intros x. apply Hin. }
  rewrite (planner_exact all_columns Hnd K) in Hout. apply ok_eq in Hout.
  rewrite (planner_exact out HndO KO).
  rewrite !(present_ext out all_columns _ Hin).
  set (T := present all_columns traceability_cols) in *.
  set (A := present all_columns LEADING_COLUMNS) in *.
  set (B := present all_columns TRAILING_COLUMNS) in *.
  set (Q := question_block all_columns) in *.
  set (O := other_columns all_columns) in *.
  assert (HT : forall c, In c (T ++ A) ->
             is_p_column c = false
             /\ mem c (traceability_cols ++ TEMPLATE_SCHEMA) = true).
  { intros c Hc. apply fixed_columns_known. unfold T, A in Hc.
    apply in_app_iff in Hc. rewrite !in_app_iff.
    destruct Hc as [Hc|Hc]; apply present_In in Hc; tauto. }
  assert (HB : forall c, In c B ->
             is_p_column c = false
             /\ mem c (traceability_cols ++ TEMPLATE_SCHEMA) = true).
  { intros c Hc. apply fixed_columns_known. unfold B in Hc.
    apply present_In in Hc. rewrite !in_app_iff. tauto. }
  assert (HQ : forall c, In c Q -> is_p_column c = true).
  { intros c Hc. now apply question_block_In in Hc. }
  assert (HO : forall c, In c O ->
             is_p_column c = false
             /\ mem c (traceability_cols ++ TEMPLATE_SCHEMA) = false).
  { intros c Hc. apply other_columns_In in Hc. tauto. }
  assert (EQ : question_block out = Q).
  { unfold question_block. rewrite <- Hout.
    replace (T ++ A ++ Q ++ B ++ O) with ((T ++ A) ++ Q ++ (B ++ O))
      by now rewrite <- !app_assoc.
    rewrite filter_segments.
    - apply (isort_sorted_id name_ltb). apply question_block_sorted.
    - intros c Hc. now apply HT.
    - exact HQ.
    - intros c Hc. apply in_app_iff in Hc as [Hc|Hc]; [now apply HB|now apply HO]. }
  assert (EO : other_columns out = O).
  { unfold other_columns, sort_strings. rewrite <- Hout.
    replace (T ++ A ++ Q ++ B ++ O) with ((T ++ A ++ Q ++ B) ++ O ++ [])
      by now rewrite <- !app_assoc, app_nil_r.
    rewrite filter_segments.
    - apply (isort_sorted_id String.ltb). apply other_columns_sorted.
    - intros c Hc. rewrite (app_assoc T A) in Hc.
      apply in_app_iff in Hc as [Hc|Hc].
      + apply HT in Hc as [_ ->]. reflexivity.
      + apply in_app_iff in Hc as [Hc|Hc].
        * rewrite (HQ c Hc). apply andb_false_r.
        * apply HB in Hc as [_ ->]. reflexivity.
    - intros c Hc. apply HO in Hc as [-> ->]. reflexivity.
    - intros c []. }
  now rewrite EQ, EO, Hout.
Qed.

Lemma planner_idempotent_witness :
  _build_intelligent_column_order ["Autor"; "P01"; "P1"; "P2"; "P10"; "Zeta"]
  = Ok ["Autor"; "P01"; "P1"; "P2"; "P10"; "Zeta"].
Proof.
  apply (planner_idempotent ["Zeta"; "P10"; "Autor"; "P2"; "P01"; "P1"]).
  - apply nodupb_NoDup. vm_compute. reflexivity.
  - vm_compute. reflexivity.
Defined.

(** ** What the planner returns, when it returns *)

(** X25.  The planner returns a sequence exactly when the key of every
    question column of the set is returned; the sequence is then a
    permutation of the set: every name of the set occurs in it exactly
    once, and no other name occurs. *)
Theorem planner_output_is_permutation (all_columns : list string) :
  NoDup all_columns ->
  ((exists out, _build_intelligent_column_order all_columns = Ok out)
   <-> forall col, In col all_columns -> is_p_column col = true ->
                   exists k, natural_sort_key col = Ok k)
  /\ (forall out,
        _build_intelligent_column_order all_columns = Ok out ->
        Permutation all_columns out
        /\ (forall col, In col all_columns -> count_occ string_dec out col = 1)
        /\ (forall col, ~ In col all_columns -> count_occ string_dec out col = 0)).
Proof.
  intros Hnd. unfold _build_intelligent_column_order. split; [split|].
  - intros [out Hout] col Hc Hp. apply has_key_iff.
    apply planner_keyed in Hout. rewrite keyed_In in Hout. now apply Hout.
  - intros H. apply planner_total. apply keyed_In.
    intros c Hc Hp. apply has_key_iff. now apply H.
  - intros out Hout.
    assert (Hin := fun x => planner_In _ _ _ x Hout).
    assert (Hno := planner_NoDup _ _ _ Hout).
    split; [|split].
    + apply NoDup_Permutation; [exact Hnd|exact Hno|].
      intros x. symmetry. apply Hin.
    + intros col Hc. apply NoDup_count_occ'; [exact Hno|]. now apply Hin.
    + intros col Hc. apply count_occ_not_In. intros H. apply Hc. now apply Hin.
Qed.

Lemma planner_output_is_permutation_witness :
  let l := ["P10"; "Autor"; "Nova"; "P2"] in
  _build_intelligent_column_order l = Ok ["Autor"; "P2"; "P10"; "Nova"]
  /\ Permutation l ["Autor"; "P2"; "P10"; "Nova"]
  /\ (forall col, In col l ->
        count_occ string_dec ["Autor"; "P2"; "P10"; "Nova"] col = 1)
  /\ (forall col, ~ In col l ->
        count_occ string_dec ["Autor"; "P2"; "P10"; "Nova"] col = 0).
Proof.
  cbv zeta. split; [vm_compute; reflexivity|].
  refine (proj2 (planner_output_is_permutation ["P10"; "Autor"; "Nova"; "P2"] _) _ _).
  - apply nodupb_NoDup. vm_compute. reflexivity.
  - vm_compute. reflexivity.
Defined.

(** X26.  In every sequence the planner returns, the question columns
    (names matching [^P\d+]) form one contiguous block, sorted for
    Python's comparison of their natural keys whatever the order of
    discovery; every enumeration of the set [{P10, P2, P1}] gives
    [P1, P2, P10]. *)
Theorem question_columns_contiguous_sorted (all_columns out : list string) :
  NoDup all_columns ->
  _build_intelligent_column_order all_columns = Ok out ->
  (exists pre block post,
     out = pre ++ block ++ post
     /\ Forall is_text_column pre
     /\ Forall is_text_column post
     /\ Forall is_question block
     /\ Permutation block (filter is_p_column all_columns)
     /\ StronglySorted natural_le block)
  /\ (Permutation ["P10"; "P2"; "P1"] all_columns -> out = ["P1"; "P2"; "P10"]).
Proof.
  intros Hnd Hout. unfold _build_intelligent_column_order in Hout.
  assert (K := planner_keyed _ _ _ Hout).
  destruct (planner_shape TEMPLATE_SCHEMA all_columns Hnd K)
    as (pre & post & Hs & Hpre & Hpost).
  split.
  - exists pre, (question_block all_columns), post.
    rewrite Hs in Hout. apply ok_eq in Hout.
    repeat split; try assumption; [now symmetry|..].
    + apply question_block_all_questions.
    + apply question_block_perm.
    + now apply question_block_natural_sorted.
  - intros HP. apply ok_eq. rewrite <- Hout.
    rewrite <- (planner_order_independent TEMPLATE_SCHEMA _ _ HP).
    + vm_compute. reflexivity.
    + intros a b k [<-|[<-|[<-|[]]]] [<-|[<-|[<-|[]]]] _ _ Ha Hb;
        try reflexivity; vm_compute in Ha, Hb; congruence.
Qed.

Lemma question_columns_contiguous_sorted_witness :
  (exists pre block post,
     ["P1"; "P2"; "P10"] = pre ++ block ++ post
     /\ Forall is_text_column pre
     /\ Forall is_text_column post
     /\ Forall is_question block
     /\ Permutation block (filter is_p_column ["P2"; "P10"; "P1"])
     /\ StronglySorted natural_le block)
  /\ (Permutation ["P10"; "P2"; "P1"] ["P2"; "P10"; "P1"] ->
      ["P1"; "P2"; "P10"] = ["P1"; "P2"; "P10"]).
Proof.
  apply (question_columns_contiguous_sorted ["P2"; "P10"; "P1"]).
  - apply nodupb_NoDup. vm_compute. reflexivity.
  - vm_compute. reflexivity.
Defined.

(** X27.  In every sequence the planner returns, a name of the set that
    begins with an upper-case [P] followed by a decimal digit, whatever
    follows (for example [P5extra]), stands inside the sorted block of
    the question columns and nowhere else, so never in the alphabetical
    tail, also when the reference schema does not list it. *)
Theorem p_prefixed_column_in_question_block
  (all_columns out : list string) (col : string) :
  NoDup all_columns ->
  In col all_columns ->
  is_p_column col = true ->
  _build_intelligent_column_order all_columns = Ok out ->
  exists pre block post,
    out = pre ++ block ++ post
    /\ In col block /\ ~ In col pre /\ ~ In col post
    /\ Forall is_question block
    /\ StronglySorted natural_le block
    /\ Forall is_text_column pre
    /\ Forall is_text_column post
    /\ ~ In col (other_columns all_columns).
Proof.
  intros Hnd Hin Hp Hout. unfold _build_intelligent_column_order in Hout.
  assert (K := planner_keyed _ _ _ Hout).
  destruct (planner_shape TEMPLATE_SCHEMA all_columns Hnd K)
    as (pre & post & Hs & Hpre & Hpost).
  rewrite Hs in Hout. apply ok_eq in Hout.
  exists pre, (question_block all_columns), post.
  rewrite Forall_forall in Hpre, Hpost.
  split; [now symmetry|]. split; [now apply question_block_In|].
  split; [intros H; apply Hpre in H; unfold is_text_column in H; congruence|].
  split; [intros H; apply Hpost in H; unfold is_text_column in H; congruence|].
  split; [apply question_block_all_questions|].
  split; [now apply question_block_natural_sorted|].
  split; [now apply Forall_forall|]. split; [now apply Forall_forall|].
  intros H. apply other_columns_In in H as (_ & _ & H). congruence.
Qed.

Lemma p_prefixed_column_in_question_block_witness :
  mem "P5extra" TEMPLATE_SCHEMA = false /\
  _build_intelligent_column_order ["Zeta"; "P5extra"; "P10"; "P5"; "Alpha"]
  = Ok ["P5"; "P5extra"; "P10"; "Alpha"; "Zeta"] /\
  exists pre block post,
    ["P5"; "P5extra"; "P10"; "Alpha"; "Zeta"] = pre ++ block ++ post
    /\ In "P5extra" block /\ ~ In "P5extra" pre /\ ~ In "P5extra" post
    /\ Forall is_question block
    /\ StronglySorted natural_le block
    /\ Forall is_text_column pre
    /\ Forall is_text_column post
    /\ ~ In "P5extra" (other_columns ["Zeta"; "P5extra"; "P10"; "P5"; "Alpha"]).
Proof.
  split; [vm_compute; reflexivity|]. split; [vm_compute; reflexivity|].
  apply (p_prefixed_column_in_question_block
           ["Zeta"; "P5extra"; "P10"; "P5"; "Alpha"] _ "P5extra").
  - apply nodupb_NoDup. vm_compute. reflexivity.
  - simpl. tauto.
  - vm_compute. reflexivity.
  - vm_compute. reflexivity.
Defined.

(* ================================================================= *)
(** * Further properties of the consolidation *)

Lemma contains_char_append (c : ascii) (a b : string) :
  contains_char c (a ++ b) = contains_char c a || contains_char c b.
Proof.
  induction a as [|x a IH]; simpl; [reflexivity|]. now rewrite IH, orb_assoc.
Qed.

Lemma contains_char_concat (c : ascii) (sep line : string) (lines : list string) :
  contains_char c line = true ->
  contains_char c (String.concat sep (line :: lines)) = true.
Proof.
  intros H. simpl. destruct lines; [exact H|].
  now rewrite contains_char_append, H.
Qed.

Lemma nonempty_perm {A : Type} (l1 l2 : list A) :
  Permutation l1 l2 -> nonempty l1 = nonempty l2.
Proof.
  intros HP. destruct l1, l2; try reflexivity.
  - apply Permutation_nil in HP. discriminate.
  - apply Permutation_sym, Permutation_nil in HP. discriminate.
Qed.

Lemma nonempty_false {A : Type} (l : list A) : nonempty l = false <-> l = [].
Proof. destruct l; simpl; split; congruence. Qed.

(** The anomaly line of a table is absent exactly when the table has
    every planned column that is not a provenance column. *)
Lemma anomaly_nil_iff (master : list string) (i : nat) (df : frame) :
  anomaly master i df = []
  <-> forall x, In x master -> ~ In x traceability_cols ->
                In x (clean_columns df).
Proof.
  unfold anomaly. cbv zeta.
  set (missing := filter (fun col => negb (mem col traceability_cols))
                    (filter (fun col => negb (mem col (clean_columns df))) master)).
  assert (Hm : forall x, In x missing
               <-> In x master /\ ~ In x (clean_columns df)
                   /\ ~ In x traceability_cols).
  { intros x. unfold missing. rewrite !filter_In, !negb_true_iff, !mem_false.
    split; [intros [[? ?] ?]|intros (? & ? & ?)]; repeat split; assumption. }
  unfold sort_strings. rewrite (nonempty_perm _ _ (isort_perm String.ltb missing)).
  destruct missing as [|y ys] eqn:E; simpl.
  - split; [|reflexivity]. intros _ x Hx Ht.
    destruct (mem x (clean_columns df)) eqn:Hc; [now apply mem_In|].
    exfalso. apply (proj2 (Hm x)). apply mem_false in Hc.
    repeat split; assumption.
  - split; [discriminate|]. intros H. exfalso.
    destruct (proj1 (Hm y) (or_introl eq_refl)) as (H1 & H2 & H3). auto.
Qed.

Lemma anomaly_line (master : list string) (i : nat) (df : frame) (line : string) :
  In line (anomaly master i df) -> contains_char ">" line = true.
Proof.
  unfold anomaly. cbv zeta. destruct (nonempty _); [|intros []].
  intros [<-|[]]. rewrite contains_char_append.
  rewrite (contains_char_append _ " -> "). simpl. now rewrite orb_true_r.
Qed.

Lemma load_tables_reports (master : list string) (tables : list (nat * frame))
  (stored : list (list cell)) (reports : list string) :
  load_tables master tables = Ok (stored, reports) ->
  reports = flat_map (fun p => anomaly master (fst p) (snd p)) tables.
Proof.
  revert stored reports.
  induction tables as [|[i df] tables IH]; intros stored reports; simpl.
  - now intros [= <- <-].
  - destruct (load_table master df); [|discriminate].
    destruct (load_tables master tables) as [[st an]|e]; [|discriminate].
    intros [= <- <-]. now rewrite (IH st an eq_refl).
Qed.


Lemma clean_columns_length (df : frame) :
  length (clean_columns df) = length (columns df).
Proof. unfold clean_columns. apply length_map. Qed.

Lemma nonempty_frame_columns (df : frame) :
  df_empty df = false -> clean_columns df <> [].
Proof.
  unfold df_empty. intros H E.
  apply (f_equal (@length string)) in E. rewrite clean_columns_length in E.
  destruct (columns df); [discriminate|discriminate].
Qed.

Lemma retained_of_filter (dataframes : list frame) :
  map snd (retained dataframes)
  = filter (fun df => negb (df_empty df)) dataframes.
Proof.
  unfold retained. generalize 0.
  induction dataframes as [|df dfs IH]; intros s; simpl; [reflexivity|].
  destruct (df_empty df); simpl; now rewrite IH.
Qed.

Lemma flat_map_snd {A B C : Type} (G : B -> list C) (l : list (A * B)) :
  flat_map (fun p => G (snd p)) l = flat_map G (map snd l).
Proof.
  induction l as [|p l IH]; simpl; [reflexivity|]. now rewrite IH.
Qed.

Lemma length_flat_map_rows {A B : Type} (F : A -> list B) (l : list A) :
  length (flat_map F l) = list_sum (map (fun x => length (F x)) l).
Proof.
  induction l as [|x l IH]; simpl; [reflexivity|].
  now rewrite length_app, IH.
Qed.

Lemma list_sum_filter_rows (dataframes : list frame) :
  list_sum (map (fun df => length (rows df))
                (filter (fun df => negb (df_empty df)) dataframes))
  = list_sum (map rows_brought dataframes).
Proof.
  induction dataframes as [|df dfs IH]; simpl; [reflexivity|].
  unfold rows_brought at 1. destruct (df_empty df); simpl; now rewrite IH.
Qed.

Section ConsolidationMore.
Variable set_iteration : list string -> list string.
Variable store_accepts : list string -> bool.

Hypothesis set_iteration_perm :
  forall l, NoDup l -> Permutation l (set_iteration l).

Lemma discovered_nil (dataframes : list frame) :
  discovered (retained dataframes) = [] -> retained dataframes = [].
Proof.
  intros H. destruct (retained dataframes) as [|p l] eqn:E; [reflexivity|].
  exfalso.
  assert (Hp : In p (retained dataframes)) by (rewrite E; now left).
  apply retained_nonempty in Hp as [_ Hne].
  apply nonempty_frame_columns in Hne.
  destruct (clean_columns (snd p)) as [|x xs] eqn:Ec; [congruence|].
  assert (Hx : In x (discovered (p :: l))).
  { apply discovered_In. exists p. split; [now left|]. rewrite Ec. now left. }
  rewrite H in Hx. contradiction.
Qed.

(** The result of a consolidation that completes. *)
Lemma consolidate_unfold (dataframes : list frame) (out : frame) (report : string) :
  consolidate_data set_iteration store_accepts dataframes = Ok (out, report) ->
  (retained dataframes = [] /\ out = empty_frame /\ report = NO_DATA)
  \/ (retained dataframes <> []
      /\ exists master,
           _build_intelligent_column_order
             (set_iteration (discovered (retained dataframes))) = Ok master
           /\ columns out = map LStr master
           /\ rows out
              = flat_map (fun p => map (align_row master (clean_columns (snd p)))
                                       (rows (snd p))) (retained dataframes)
           /\ report
              = let reports :=
                  flat_map (fun p => anomaly master (fst p) (snd p))
                           (retained dataframes) in
                if nonempty reports then String.concat newline reports
                else NO_ANOMALY).
Proof.
  unfold consolidate_data. intros H.
  destruct (discovered (retained dataframes)) as [|c cs] eqn:Hd.
  - left. injection H as <- <-. split; [now apply discovered_nil|auto].
  - right. split; [intros E; rewrite E in Hd; discriminate|].
    destruct (_build_intelligent_column_order _) as [master|e]; [|discriminate].
    exists master. split; [reflexivity|].
    destruct (store_accepts master); [|discriminate]. simpl in H.
    destruct (load_tables master (retained dataframes)) as [[st an]|e] eqn:Hl;
      [|discriminate].
    injection H as <- <-. simpl.
    destruct (load_tables_ok _ _ _ _ Hl) as [-> _].
    now rewrite (load_tables_reports _ _ _ _ Hl).
Qed.

Lemma retained_member (dataframes : list frame) (df : frame) :
  (exists i, In (i, df) (retained dataframes))
  <-> In df dataframes /\ df_empty df = false.
Proof.
  split.
  - intros [i H]. now apply retained_nonempty in H.
  - intros [H1 H2]. now apply retained_In.
Qed.

(** X11.  The columns of the unified table are the cleaned column names
    of the tables that are not empty, each one once: no name is lost,
    none is added, none is repeated.  The number of its rows is the sum
    of the numbers of rows of these tables, and every row has one cell
    for each column. *)
Theorem consolidated_table_shape
  (dataframes : list frame) (out : frame) (report : string) :
  consolidate_data set_iteration store_accepts dataframes = Ok (out, report) ->
  exists master,
    columns out = map LStr master
    /\ NoDup master
    /\ (forall x, In x master
          <-> exists df, In df dataframes /\ df_empty df = false
                         /\ In x (clean_columns df))
    /\ length (rows out) = list_sum (map rows_brought dataframes)
    /\ (forall r, In r (rows out) -> length r = length master).
Proof.
  intros H. destruct (consolidate_unfold _ _ _ H)
    as [(Hr & -> & _)|(Hne & master & Hm & Hc & Hrows & _)].
  - exists []. simpl. split; [reflexivity|]. split; [constructor|].
    split; [|split; [|intros r []]].
    + intros x. split; [intros []|]. intros (df & Hin & He & _).
      destruct (retained_In dataframes df Hin He) as [i Hi].
      rewrite Hr in Hi. contradiction.
    + rewrite <- list_sum_filter_rows, <- retained_of_filter, Hr. reflexivity.
  - exists master. split; [exact Hc|]. split; [exact (master_NoDup _ _ _ Hm)|].
    split; [|split].
    + intros x. rewrite (master_In set_iteration set_iteration_perm _ _ x Hm).
      rewrite discovered_In. split.
      * intros ([i df] & Hp & Hx). exists df.
        apply retained_nonempty in Hp as [Hin He]. auto.
      * intros (df & Hin & He & Hx).
        destruct (retained_In dataframes df Hin He) as [i Hi].
        exists (i, df). auto.
    + rewrite Hrows, length_flat_map_rows.
      rewrite <- list_sum_filter_rows, <- retained_of_filter, map_map.
      f_equal. apply map_ext. intros p. apply length_map.
    + intros r Hr. rewrite Hrows in Hr. apply in_flat_map in Hr as (p & _ & Hr).
      apply in_map_iff in Hr as (row & <- & _).
      unfold align_row. apply length_map.
Qed.

(** X12.  The rows of the unified table are the rows of the tables that
    are not empty, table after table and row after row in the order of
    the input; in the row that comes from a table, every column the
    table does not have holds null. *)
Theorem consolidated_rows_in_order
  (dataframes : list frame) (out : frame) (report : string) :
  consolidate_data set_iteration store_accepts dataframes = Ok (out, report) ->
  exists master,
    columns out = map LStr master
    /\ rows out
       = flat_map (fun df => map (align_row master (clean_columns df)) (rows df))
                  (filter (fun df => negb (df_empty df)) dataframes)
    /\ (forall df row x,
          In x master -> ~ In x (clean_columns df) ->
          cell_at master (align_row master (clean_columns df) row) x
          = Some CNone).
Proof.
  intros H.
  assert (Hab : forall master df row x,
             In x master -> ~ In x (clean_columns df) ->
             cell_at master (align_row master (clean_columns df) row) x
             = Some CNone).
  { intros master df row x Hx Hn.
    destruct (index_of_In _ _ Hx) as [k Hk].
    destruct (index_of_Some _ _ _ Hk) as [Hk1 Hk2].
    unfold cell_at at 1. rewrite Hk. f_equal. unfold align_row.
    rewrite (nth_map_in _ master k EmptyString CNaN Hk1), Hk2.
    unfold cell_at.
    destruct (index_of x (clean_columns df)) as [j|] eqn:Hj; [|reflexivity].
    exfalso. apply Hn. apply index_of_Some in Hj as [Hj1 Hj2].
    rewrite <- Hj2. now apply nth_In. }
  destruct (consolidate_unfold _ _ _ H)
    as [(Hr & -> & _)|(Hne & master & Hm & Hc & Hrows & _)].
  - exists []. split; [reflexivity|]. split; [|apply Hab].
    rewrite <- retained_of_filter, Hr. reflexivity.
  - exists master. split; [exact Hc|]. split; [|apply Hab].
    rewrite Hrows, <- retained_of_filter.
    apply (flat_map_snd
             (fun df => map (align_row master (clean_columns df)) (rows df))).
Qed.

(** X13.  The report of a consolidation that completes is
    [No data found in any tables] exactly when no table has data, and
    [Nenhuma anomalia detectada.] exactly when some table has data and
    every table that has data has every column of the unified table,
    the provenance columns apart. *)
Theorem anomaly_report_is_clean_iff
  (dataframes : list frame) (out : frame) (report : string) :
  consolidate_data set_iteration store_accepts dataframes = Ok (out, report) ->
  (report = NO_DATA
   <-> forall df, In df dataframes -> df_empty df = true)
  /\ (report = NO_ANOMALY
      <-> (exists df, In df dataframes /\ df_empty df = false)
          /\ forall df x,
               In df dataframes -> df_empty df = false ->
               In (LStr x) (columns out) -> ~ In x traceability_cols ->
               In x (clean_columns df)).
Proof.
  intros H.
  assert (Hgt : forall lines,
             lines <> [] ->
             (forall line, In line lines -> contains_char ">" line = true) ->
             contains_char ">" (String.concat newline lines) = true).
  { intros [|line lines] Hne Hall; [congruence|].
    apply contains_char_concat. apply Hall. now left. }
  destruct (consolidate_unfold _ _ _ H)
    as [(Hr & -> & ->)|(Hne & master & Hm & Hc & _ & Hrep)].
  - assert (Hall : forall df, In df dataframes -> df_empty df = true).
    { intros df Hin. destruct (df_empty df) eqn:He; [reflexivity|].
      destruct (retained_In dataframes df Hin He) as [i Hi].
      rewrite Hr in Hi. contradiction. }
    split; [tauto|]. split; [discriminate|].
    intros [(df & Hin & He) _]. rewrite (Hall df Hin) in He. discriminate.
  - destruct (nonempty_In _ Hne) as [[i0 df0] Hp0].
    assert (H0 := retained_nonempty _ _ Hp0). simpl in H0. destruct H0 as [Hin0 He0].
    set (reports := flat_map (fun p => anomaly master (fst p) (snd p))
                             (retained dataframes)) in Hrep.
    assert (Hlines : forall line, In line reports -> contains_char ">" line = true).
    { intros line Hl. apply in_flat_map in Hl as (p & _ & Hl).
      now apply anomaly_line in Hl. }
    assert (Hnil : reports = []
                   <-> forall df x,
                         In df dataframes -> df_empty df = false ->
                         In (LStr x) (columns out) -> ~ In x traceability_cols ->
                         In x (clean_columns df)).
    { rewrite Hc. split.
      - intros E df x Hin He Hx Ht.
        destruct (retained_In dataframes df Hin He) as [i Hi].
        assert (Ha : anomaly master i df = []).
        { destruct (anomaly master i df) as [|l ls] eqn:Ea; [reflexivity|].
          assert (Hl : In l reports).
          { apply in_flat_map. exists (i, df). split; [exact Hi|].
            simpl. rewrite Ea. now left. }
          rewrite E in Hl. contradiction. }
        apply (proj1 (anomaly_nil_iff master i df) Ha x); [|exact Ht].
        apply in_map_iff in Hx as (y & [= ->] & Hy). exact Hy.
      - intros Hall. destruct reports as [|l ls] eqn:E; [reflexivity|].
        exfalso. assert (Hl : In l reports) by (rewrite E; now left).
        apply in_flat_map in Hl as ([i df] & Hp & Hl). simpl in Hl.
        assert (Ha : anomaly master i df = []).
        { apply anomaly_nil_iff. intros x Hx Ht.
          apply retained_nonempty in Hp as [Hin He]. simpl in Hin, He.
          apply (Hall df x Hin He); [|exact Ht]. now apply in_map. }
        rewrite Ha in Hl. contradiction. }
    destruct reports as [|l ls] eqn:E.
    + simpl in Hrep. subst report. split.
      * split; [discriminate|]. intros Hall.
        rewrite (Hall df0 Hin0) in He0. discriminate.
      * split; [|reflexivity]. intros _. split; [eauto|].
        now apply Hnil.
    + assert (Hc' : contains_char ">" report = true).
      { subst report. apply Hgt; [discriminate|exact Hlines]. }
      split.
      * split; [intros ->; discriminate|]. intros Hall.
        rewrite (Hall df0 Hin0) in He0. discriminate.
      * split; [intros ->; discriminate|].
        intros [_ Hall]. apply Hnil in Hall. discriminate.
Qed.



End ConsolidationMore.

Lemma consolidated_table_shape_witness :
  let d1 := {| columns := [LStr "Nome"; LStr " P2 "];
               rows := [[CStr "Ana"; CInt 1]; [CStr "Bia"; CNaN]] |} in
  let d2 := {| columns := [LStr "Vazia"]; rows := [] |} in
  let d3 := {| columns := [LStr "P10"; LStr "Nome"];
               rows := [[CInt 7; CStr "Caio"]] |} in
  let out := {| columns := [LStr "P2"; LStr "P10"; LStr "Nome"];
                rows := [ [CStr "1"; CNone; CStr "Ana"];
                          [CNone; CNone; CStr "Bia"];
                          [CNone; CStr "7"; CStr "Caio"] ] |} in
  consolidate_data (fun l => l) (fun _ => true) [d1; d2; d3]
  = Ok (out, String.concat newline
               [ "Unknown -> Unknown -> Tabela 1: ['P10']";
                 "Unknown -> Unknown -> Tabela 3: ['P2']" ])
  /\ exists master,
       columns out = map LStr master
       /\ NoDup master
       /\ (forall x, In x master
             <-> exists df, In df [d1; d2; d3] /\ df_empty df = false
                            /\ In x (clean_columns df))
       /\ length (rows out) = list_sum (map rows_brought [d1; d2; d3])
       /\ (forall r, In r (rows out) -> length r = length master).
Proof.
  split; [reflexivity|].
  refine (consolidated_table_shape (fun l => l) (fun _ => true)
            (fun l _ => Permutation_refl l) _ _ _ _).
  reflexivity.
Defined.

Lemma consolidated_rows_in_order_witness :
  let d1 := {| columns := [LStr "Nome"]; rows := [[CStr "Ana"]] |} in
  let d2 := {| columns := [LStr "P1"]; rows := [[CInt 3]] |} in
  let out := {| columns := [LStr "P1"; LStr "Nome"];
                rows := [[CNone; CStr "Ana"]; [CStr "3"; CNone]] |} in
  exists master,
    columns out = map LStr master
    /\ rows out
       = flat_map (fun df => map (align_row master (clean_columns df)) (rows df))
                  (filter (fun df => negb (df_empty df)) [d1; d2])
    /\ (forall df row x,
          In x master -> ~ In x (clean_columns df) ->
          cell_at master (align_row master (clean_columns df) row) x
          = Some CNone).
Proof.
  refine (consolidated_rows_in_order (fun l => l) (fun _ => true) _ _ _ _).
  reflexivity.
Defined.

Lemma anomaly_report_is_clean_iff_witness :
  let d1 := {| columns := [LStr "Nome"; LStr COL_FILE];
               rows := [[CStr "Ana"; CStr "a.xlsx"]] |} in
  let d2 := {| columns := [LStr "Nome"]; rows := [[CStr "Bia"]] |} in
  let out := {| columns := [LStr COL_FILE; LStr "Nome"];
                rows := [[CStr "a.xlsx"; CStr "Ana"]; [CNone; CStr "Bia"]] |} in
  (NO_ANOMALY = NO_DATA
   <-> forall df, In df [d1; d2] -> df_empty df = true)
  /\ (NO_ANOMALY = NO_ANOMALY
      <-> (exists df, In df [d1; d2] /\ df_empty df = false)
          /\ forall df x,
               In df [d1; d2] -> df_empty df = false ->
               In (LStr x) (columns out) -> ~ In x traceability_cols ->
               In x (clean_columns df)).
Proof.
  refine (anomaly_report_is_clean_iff (fun l => l) (fun _ => true) _ _ _ _).
  reflexivity.
Defined.

(* ================================================================= *)
(** * Further properties of the table segmenter *)

(** X15.  Blank rows only separate: two sheets of the same width whose
    blocks of consecutive rows that are not blank are the same give
    the same tables and the same manifest, however many blank rows
    stand between the blocks, before the first and after the last. *)
Theorem blank_rows_only_separate (file title : string) (g1 g2 : grid) :
  width g1 = width g2 -> blocks g1 = blocks g2 ->
  parse_excel_files [one_sheet file title g1]
  = parse_excel_files [one_sheet file title g2].
Proof.
  intros Hw Hb. rewrite !one_sheet_tables, !sheet_tables_blocks.
  now rewrite Hw, Hb.
Qed.

Lemma blank_rows_only_separate_witness :
  let g1 := [ [CStr "Nome"; CStr "Idade"]; [CStr "Ana"; CInt 30];
              [CNaN; CNaN];
              [CStr "Cidade"; CNaN]; [CStr "Recife"; CNaN] ] in
  let g2 := [ [CNaN; CNaN];
              [CStr "Nome"; CStr "Idade"]; [CStr "Ana"; CInt 30];
              [CNaN; CNaN]; [CNaN; CNaN];
              [CStr "Cidade"; CNaN]; [CStr "Recife"; CNaN];
              [CNaN; CNaN] ] in
  parse_excel_files [one_sheet "a.xlsx" "S1" g1]
  = parse_excel_files [one_sheet "a.xlsx" "S1" g2].
Proof.
  apply (blank_rows_only_separate "a.xlsx" "S1"); reflexivity.
Defined.

(** ** The manifest and the tables *)

Lemma Forall2_pairs {A B : Type} (R : A -> B -> Prop) (l : list (A * B)) :
  (forall p, In p l -> R (fst p) (snd p)) ->
  Forall2 R (map fst l) (map snd l).
Proof.
  induction l as [|p l IH]; intros H; simpl; constructor.
  - apply H. now left.
  - apply IH. intros q Hq. apply H. now right.
Qed.

(** X16.  The manifest describes the tables, position by position: the
    table begins with the three provenance columns; each of its rows
    begins with the file name, the sheet name and the table index of
    the entry; it has at least one row, and [row_count] is the number
    of its rows; the table index is at least 1. *)
Theorem manifest_describes_tables (uploaded_files : list uploaded_file) :
  Forall2
    (fun t e =>
       exists cols data,
         columns t = map LStr traceability_cols ++ cols
         /\ rows t = map (with_provenance (file_name e) (sheet_name e)
                                          (Z.to_nat (table_index e))) data
         /\ data <> []
         /\ row_count e = Z.of_nat (length data)
         /\ (1 <= table_index e)%Z)
    (fst (parse_excel_files uploaded_files))
    (snd (parse_excel_files uploaded_files)).
Proof.
  unfold parse_excel_files. simpl. apply Forall2_pairs.
  intros p Hp. exact (emitted_linked uploaded_files p Hp).
Qed.

Lemma sheet_run_none (l : list (string * sheet)) :
  flat_map sheet_run (combine l (repeat 0 (length l))) = [].
Proof. induction l as [|x l IH]; simpl; [reflexivity|exact IH]. Qed.

Lemma combine_app {A B : Type} (l1 l2 : list A) (c1 c2 : list B) :
  length l1 = length c1 ->
  combine (l1 ++ l2) (c1 ++ c2) = combine l1 c1 ++ combine l2 c2.
Proof.
  revert c1. induction l1 as [|x l1 IH]; intros [|y c1]; simpl;
    try discriminate; [reflexivity|].
  intros [= H]. now rewrite IH.
Qed.

(** The tables of the sheets of one file, sheet by sheet. *)
Lemma sheets_runs (file : string) (sheets : list sheet) :
  exists counts,
    length counts = length sheets
    /\ map (fun p => entry_key (snd p)) (sheets_tables file sheets)
       = flat_map sheet_run (combine (map (pair file) sheets) counts).
Proof.
  induction sheets as [|sh sheets (counts & Hlen & IH)].
  - now exists [].
  - assert (Hzero : forall n, exists cs,
              length cs = length (sh :: sheets)
              /\ flat_map sheet_run (combine (map (pair file) (sh :: sheets)) cs)
                 = sheet_run (file, sh, n)).
    { intros n. exists (n :: repeat 0 (length sheets)). simpl.
      rewrite repeat_length. split; [reflexivity|].
      rewrite <- (length_map (pair file) sheets) at 1.
      now rewrite sheet_run_none, app_nil_r. }
    cbn [sheets_tables]. destruct (sheet_cells sh) as [g|].
    + destruct (sheet_tables_keys file (sheet_title sh) g) as [n Hn].
      destruct (sheet_tables file (sheet_title sh) g) as [out ok].
      cbn [fst] in Hn. destruct ok.
      * exists (n :: counts). simpl. rewrite Hlen. split; [reflexivity|].
        rewrite map_app, Hn, IH. reflexivity.
      * destruct (Hzero n) as (cs & Hcs & Hrun). exists cs.
        split; [exact Hcs|]. now rewrite Hrun, Hn.
    + destruct (Hzero 0) as (cs & Hcs & Hrun). exists cs.
      split; [exact Hcs|]. now rewrite Hrun.
Qed.

(** X17.  The manifest lists the tables sheet by sheet, in the order of
    the files and of their sheets, and within a sheet the table indices
    are 1, 2, 3 and so on without a gap: the provenance of the entries
    of the manifest is, for each sheet in turn, the file name and the
    title of the sheet with the indices from 1 to the number of tables
    the sheet gave (0 for a sheet that gave none). *)
Theorem table_indices_are_numbered (uploaded_files : list uploaded_file) :
  exists counts,
    length counts = length (all_sheets uploaded_files)
    /\ map entry_key (snd (parse_excel_files uploaded_files))
       = flat_map sheet_run (combine (all_sheets uploaded_files) counts).
Proof.
  unfold parse_excel_files. cbn [snd]. rewrite map_map.
  induction uploaded_files as [|f files (counts & Hlen & IH)].
  - now exists [].
  - cbn [flat_map all_sheets]. fold (all_sheets files).
    rewrite map_app, IH. unfold file_tables.
    destruct (workbook f) as [sheets|].
    + destruct (sheets_runs (name f) sheets) as (cs & Hcs & Hrun).
      exists (cs ++ counts). rewrite !length_app, length_map, Hcs, Hlen.
      split; [reflexivity|].
      rewrite combine_app by now rewrite length_map.
      now rewrite flat_map_app, Hrun.
    + exists counts. split; [exact Hlen|reflexivity].
Qed.

Lemma sheets_tables_cut (file : string) (pre post : list sheet) (bad : sheet) :
  sheet_cells bad = None ->
  sheets_tables file (pre ++ bad :: post) = sheets_tables file pre.
Proof.
  intros Hb. induction pre as [|sh pre IH]; simpl.
  - now rewrite Hb.
  - destruct (sheet_cells sh) as [g|]; [|reflexivity].
    destruct (sheet_tables file (sheet_title sh) g) as [out [|]];
      [now rewrite IH|reflexivity].
Qed.

(** X18.  A workbook that cannot be opened gives no table and leaves
    the tables of the other files as they are.  A sheet that cannot be
    read ends its file: the sheets after it are not read, and the
    tables of the sheets before it stay in the result. *)
Theorem unreadable_input_is_cut_off
  (before after : list uploaded_file) (file : string)
  (pre post : list sheet) (bad : sheet) :
  sheet_cells bad = None ->
  parse_excel_files (before ++ {| name := file; workbook := None |} :: after)
  = parse_excel_files (before ++ after)
  /\ parse_excel_files
       (before ++ {| name := file; workbook := Some (pre ++ bad :: post) |} :: after)
     = parse_excel_files
         (before ++ {| name := file; workbook := Some pre |} :: after).
Proof.
  intros Hb. unfold parse_excel_files. split.
  - now rewrite !flat_map_app.
  - rewrite !flat_map_app. simpl. unfold file_tables at 2 5. simpl.
    now rewrite (sheets_tables_cut file pre post bad Hb).
Qed.

Lemma unreadable_input_is_cut_off_witness :
  let s1 := {| sheet_title := "S1";
               sheet_cells := Some [[CStr "Nome"]; [CStr "Ana"]] |} in
  let s2 := {| sheet_title := "S2"; sheet_cells := None |} in
  let s3 := {| sheet_title := "S3";
               sheet_cells := Some [[CStr "Nome"]; [CStr "Bia"]] |} in
  parse_excel_files ([] ++ {| name := "a.xlsx"; workbook := None |} :: [])
  = parse_excel_files ([] ++ [])
  /\ parse_excel_files
       ([] ++ {| name := "a.xlsx"; workbook := Some ([s1] ++ s2 :: [s3]) |} :: [])
     = parse_excel_files
         ([] ++ {| name := "a.xlsx"; workbook := Some [s1] |} :: []).
Proof.
  apply (unreadable_input_is_cut_off [] [] "a.xlsx"
           [ {| sheet_title := "S1";
                sheet_cells := Some [[CStr "Nome"]; [CStr "Ana"]] |} ]
           [ {| sheet_title := "S3";
                sheet_cells := Some [[CStr "Nome"]; [CStr "Bia"]] |} ]
           {| sheet_title := "S2"; sheet_cells := None |}).
  reflexivity.
Defined.

(** ** One table for each block *)

Lemma header_names_nonempty (header : list cell) :
  header <> [] -> header_names header <> [].
Proof.
  intros H E. apply (f_equal (@length _)) in E.
  unfold header_names in E. rewrite clean_names_length, length_map in E.
  destruct header; [congruence|discriminate].
Qed.

(** A promoted name is [Column_<i>] or the text of a cell of the
    header. *)
Lemma header_names_In (header : list cell) (x : string) :
  In x (header_names header) ->
  (exists i, x = ("Column_" ++ str_of_nat i)%string)
  \/ exists c, In c header /\ x = str_of_cell c.
Proof.
  intros H. destruct (In_nth _ _ EmptyString H) as (i & Hi & Hnth).
  unfold header_names in Hi, Hnth. rewrite clean_names_length in Hi.
  rewrite (clean_names_nth 0 i _ Hi) in Hnth.
  destruct (String.eqb _ "nan").
  - left. exists (0 + i). now rewrite <- Hnth.
  - right. rewrite length_map in Hi. exists (nth i header CNaN).
    split; [now apply nth_In|].
    rewrite <- Hnth. now rewrite (nth_map_in _ header i CNaN EmptyString Hi).
Qed.

Lemma header_names_keep (header : list cell) (c : string) :
  In (CStr c) header -> c <> "nan" -> In c (header_names header).
Proof.
  intros H Hn. destruct (In_nth _ _ CNaN H) as (i & Hi & Hnth).
  assert (Hi' : i < length (map str_of_cell header)) by now rewrite length_map.
  assert (E := clean_names_nth 0 i _ Hi').
  rewrite (nth_map_in _ header i CNaN EmptyString Hi), Hnth in E. simpl in E.
  destruct (String.eqb_spec c "nan") as [|_]; [contradiction|].
  unfold header_names. rewrite <- E. apply nth_In.
  now rewrite clean_names_length.
Qed.

Lemma column_name_not_provenance (i : nat) :
  ~ In ("Column_" ++ str_of_nat i)%string traceability_cols.
Proof. intros [H|[H|[H|[]]]]; discriminate. Qed.

Lemma insert_column_succeeds (loc : nat) (column : string) (value : cell) (df : frame) :
  ~ In (LStr column) (columns df) ->
  insert_column loc column value df
  = Ok {| columns := firstn loc (columns df) ++ LStr column :: skipn loc (columns df);
          rows := map (fun r => firstn loc r ++ value :: skipn loc r) (rows df) |}.
Proof.
  intros H. unfold insert_column.
  destruct (existsb (label_eqb (LStr column)) (columns df)) eqn:He; [|reflexivity].
  exfalso. apply H. apply existsb_exists in He as (l & Hl & E).
  destruct l as [n|s]; simpl in E; [discriminate|].
  apply String.eqb_eq in E. now subst.
Qed.

Lemma add_traceability_succeeds (file sheet_nm : string) (k : nat) (df : frame) :
  (forall c, In c traceability_cols -> ~ In (LStr c) (columns df)) ->
  exists t, add_traceability file sheet_nm k df = Ok t.
Proof.
  intros H. unfold add_traceability.
  rewrite insert_column_succeeds by (apply H; now left).
  rewrite insert_column_succeeds.
  - rewrite insert_column_succeeds; [eauto|].
    simpl. intros [E|[E|Hin]]; try discriminate.
    revert Hin. apply H. right. right. now left.
  - simpl. intros [E|Hin]; [discriminate|].
    revert Hin. apply H. right. now left.
Qed.

Lemma add_traceability_raises (file sheet_nm : string) (k : nat) (df : frame)
  (c : string) :
  In c traceability_cols -> In (LStr c) (columns df) ->
  exists e, add_traceability file sheet_nm k df = Raise e.
Proof.
  intros Hc Hin.
  destruct (add_traceability file sheet_nm k df) as [t|e] eqn:E; [|eauto].
  apply add_traceability_ok in E as (_ & _ & Hno). now elim (Hno c Hc).
Qed.

Lemma tables_of_good_blocks (file title : string) (w : nat)
  (bs : list (list (list cell))) (idx : nat) :
  Forall (fun b =>
            b <> []
            /\ Forall (fun r => length r = w /\ row_is_blank r = false) b
            /\ forall r c, In r b -> In c r ->
                           ~ In (str_of_cell c) traceability_cols) bs ->
  exists out,
    tables_of_blocks file title w bs idx = (out, true)
    /\ map snd out
       = entries_of_blocks file title idx
           (filter (fun b => Nat.leb 2 (length b)) bs)
    /\ map fst out
       = tables_of_data_blocks file title w idx
           (filter (fun b => Nat.leb 2 (length b)) bs).
Proof.
  revert idx. induction bs as [|b bs IH]; intros idx HF.
  - exists []. auto.
  - inversion HF as [|? ? (Hne & Hb & Hc) HF']; subst.
    destruct b as [|r b]; [congruence|].
    destruct (block_table w r b Hb)
      as (header & data & He & Hp & Hl & Hh & Hin & _ & Eh & Ed).
    cbn [tables_of_blocks]. rewrite He, Hp.
    destruct b as [|r2 b].
    + destruct data; [|discriminate].
      assert (Hemp : df_empty {| columns := map LStr (header_names header);
                                 rows := [] |} = true).
      { unfold df_empty. simpl. now destruct (map LStr (header_names header)). }
      rewrite Hemp. cbn [filter length Nat.leb]. apply IH. exact HF'.
    + destruct data as [|d data]; [discriminate|].
      assert (Hemp : df_empty {| columns := map LStr (header_names header);
                                 rows := d :: data |} = false).
      { unfold df_empty. simpl.
        destruct (header_names header) eqn:E; [|reflexivity].
        now elim (header_names_nonempty header Hh). }
      rewrite Hemp.
      destruct (add_traceability_succeeds file title idx
                  {| columns := map LStr (header_names header);
                     rows := d :: data |}) as [t Ht].
      { intros c Hct Hin'. simpl in Hin'.
        apply in_map_iff in Hin' as (x & [= ->] & Hx).
        apply header_names_In in Hx as [[i ->]|(cl & Hcl & ->)].
        - now apply (column_name_not_provenance i).
        - apply (Hc r cl); [now left|now apply Hin|exact Hct]. }
      rewrite Ht.
      destruct (IH (S idx) HF') as (out & Ho & Hm & Hr).
      rewrite Ho.
      exists ((t, {| file_name := file; sheet_name := title;
                     table_index := Z.of_nat idx;
                     row_count := Z.of_nat (length (d :: data)) |}) :: out).
      split; [reflexivity|].
      apply add_traceability_ok in Ht as (Hcols & Hrows & _).
      cbn [filter length Nat.leb map entries_of_blocks tables_of_data_blocks
             fst snd].
      simpl in Hl. split.
      * rewrite Hm. do 3 f_equal. simpl. lia.
      * rewrite Hr. f_equal. unfold table_of_block. cbv zeta. cbn [hd tl].
        rewrite <- Eh. cbn [columns rows] in Hcols, Hrows.
        rewrite Ed, map_map in Hrows. rewrite map_app.
        destruct t as [tc tr]. cbn [columns rows] in Hcols, Hrows.
        now rewrite Hcols, Hrows.
Qed.

(** X19.  In a rectangular sheet in which no cell holds the name of a
    provenance column, every block of at least two consecutive rows
    that are not blank gives exactly one table, in the order of the
    sheet, and nothing else gives a table.  The tables are numbered
    from 1; the first row of the block, without the columns that are
    blank in the whole block, gives the column names behind the three
    provenance columns; every other row of the block gives one row of
    the table, its cells unchanged behind the three provenance values;
    and the manifest entry counts these rows. *)
Theorem one_table_per_block (file title : string) (g : grid) :
  rectangular g -> no_provenance_name g ->
  fst (parse_excel_files [one_sheet file title g])
  = tables_of_data_blocks file title (width g) 1 (data_blocks g)
  /\ snd (parse_excel_files [one_sheet file title g])
     = entries_of_blocks file title 1 (data_blocks g).
Proof.
  intros Hrect Hno. rewrite one_sheet_tables, sheet_tables_blocks.
  destruct (tables_of_good_blocks file title (width g) (blocks g) 1)
    as (out & Ho & Hm & Hr).
  { apply Forall_forall. intros b Hb. unfold blocks in Hb.
    apply filter_In in Hb as [Hb Hne].
    split; [destruct b; [discriminate|congruence]|]. split.
    - apply Forall_forall. intros r Hr.
      destruct (pieces_rows g b r Hb Hr) as [Hin Hnb]. split; [|exact Hnb].
      unfold rectangular in Hrect. rewrite Forall_forall in Hrect. now apply Hrect.
    - intros r c Hr Hc. destruct (pieces_rows g b r Hb Hr) as [Hin _].
      now apply (Hno r c). }
  rewrite Ho. simpl. split; [exact Hr|exact Hm].
Qed.

Lemma one_table_per_block_witness :
  let g := [ [CStr "Nome"; CNaN; CStr "Idade"];
             [CStr "Ana"; CNaN; CInt 30];
             [CStr "Bia"; CNaN; CNaN];
             [CNaN; CNaN; CNaN];
             [CStr "Titulo"; CNaN; CNaN];
             [CNaN; CNaN; CNaN];
             [CStr "Cidade"; CNaN; CNaN];
             [CStr "Recife"; CNaN; CNaN] ] in
  tables_of_data_blocks "a.xlsx" "S1" (width g) 1 (data_blocks g)
  = [ {| columns := [LStr COL_FILE; LStr COL_SHEET; LStr COL_INDEX;
                     LStr "Nome"; LStr "Idade"];
         rows := [ [CStr "a.xlsx"; CStr "S1"; CInt 1; CStr "Ana"; CInt 30];
                   [CStr "a.xlsx"; CStr "S1"; CInt 1; CStr "Bia"; CNaN] ] |};
      {| columns := [LStr COL_FILE; LStr COL_SHEET; LStr COL_INDEX; LStr "Cidade"];
         rows := [ [CStr "a.xlsx"; CStr "S1"; CInt 2; CStr "Recife"] ] |} ]
  /\ fst (parse_excel_files [one_sheet "a.xlsx" "S1" g])
     = tables_of_data_blocks "a.xlsx" "S1" (width g) 1 (data_blocks g)
  /\ snd (parse_excel_files [one_sheet "a.xlsx" "S1" g])
     = entries_of_blocks "a.xlsx" "S1" 1 (data_blocks g).
Proof.
  split; [reflexivity|].
  apply (one_table_per_block "a.xlsx" "S1").
  - repeat constructor.
  - intros r c Hr Hc Ht.
    repeat (destruct Hr as [<-|Hr];
            [repeat (destruct Hc as [<-|Hc];
                     [destruct Ht as [Ht|[Ht|[Ht|[]]]]; discriminate|]);
             destruct Hc|]).
    destruct Hr.
Defined.

(** X20.  A sheet whose first block has at least two rows and holds the
    name of a provenance column in its first row makes the insertion of
    the provenance columns raise; the error is swallowed, the file is
    given up, and when the sheet is the first one of its workbook the
    file gives no table and no manifest entry at all. *)
Theorem provenance_name_in_header_drops_file
  (file title : string) (g : grid) (later : list sheet)
  (header row : list cell) (more : list (list cell))
  (others : list (list (list cell))) (c : string) :
  rectangular g ->
  blocks g = (header :: row :: more) :: others ->
  In c traceability_cols -> In (CStr c) header ->
  parse_excel_files
    [ {| name := file;
         workbook := Some ({| sheet_title := title; sheet_cells := Some g |}
                           :: later) |} ]
  = ([], []).
Proof.
  intros Hrect Hb Hc Hin.
  assert (HF : Forall (fun x => length x = width g /\ row_is_blank x = false)
                      (header :: row :: more)).
  { apply Forall_forall. intros r Hr.
    assert (Hp : In (header :: row :: more) (pieces g)).
    { assert (H : In (header :: row :: more) (blocks g)) by (rewrite Hb; now left).
      unfold blocks in H. now apply filter_In in H. }
    destruct (pieces_rows g _ r Hp Hr) as [Hg Hnb]. split; [|exact Hnb].
    unfold rectangular in Hrect. rewrite Forall_forall in Hrect. now apply Hrect. }
  destruct (block_table (width g) header (row :: more) HF)
    as (header' & data & He & Hp & Hl & Hh & _ & Hkeep & _ & _).
  assert (Hs : sheet_tables file title g = ([], false)).
  { rewrite sheet_tables_blocks, Hb. cbn [tables_of_blocks]. rewrite He, Hp.
    destruct data as [|d data]; [discriminate|].
    assert (Hemp : df_empty {| columns := map LStr (header_names header');
                               rows := d :: data |} = false).
    { unfold df_empty. simpl.
      destruct (header_names header') eqn:E; [|reflexivity].
      now elim (header_names_nonempty header' Hh). }
    rewrite Hemp.
    destruct (add_traceability_raises file title 1
                {| columns := map LStr (header_names header');
                   rows := d :: data |} c Hc) as [e ->]; [|reflexivity].
    simpl. apply in_map. apply header_names_keep.
    - now apply Hkeep.
    - intros ->. destruct Hc as [H|[H|[H|[]]]]; discriminate. }
  unfold parse_excel_files, file_tables. simpl. now rewrite Hs.
Qed.

Lemma provenance_name_in_header_drops_file_witness :
  parse_excel_files
    [ {| name := "consolidado.xlsx";
         workbook :=
           Some ({| sheet_title := "Consolidated_Data";
                    sheet_cells :=
                      Some [ [CStr COL_FILE; CStr "Nome"];
                             [CStr "a.xlsx"; CStr "Ana"] ] |}
                 :: [ {| sheet_title := "S2";
                         sheet_cells := Some [[CStr "Nome"]; [CStr "Bia"]] |} ]) |} ]
  = ([], []).
Proof.
  apply (provenance_name_in_header_drops_file
           "consolidado.xlsx" "Consolidated_Data"
           [ [CStr COL_FILE; CStr "Nome"]; [CStr "a.xlsx"; CStr "Ana"] ]
           [ {| sheet_title := "S2";
                sheet_cells := Some [[CStr "Nome"]; [CStr "Bia"]] |} ]
           [CStr COL_FILE; CStr "Nome"] [CStr "a.xlsx"; CStr "Ana"] [] []
           COL_FILE).
  - repeat constructor.
  - reflexivity.
  - now left.
  - now left.
Defined.

(* ================================================================= *)
(** * Further properties of the validator *)

Lemma nonempty_length {A : Type} (l : list A) :
  negb (nonempty l) = Nat.eqb (length l) 0.
Proof. now destruct l. Qed.

(** X21.  On a frame whose column labels are distinct, the report and
    the summary are two readings of one validation:
    [validate_consolidation] raises exactly when
    [get_validation_summary] raises, with the same exception; and when
    they return, the report begins with its three title lines followed
    by the line of success if [is_valid] is true in the summary, and by
    the line of failure if it is false. *)
Theorem report_and_summary_agree
  (consolidated_df : frame) (source_manifest : list manifest_entry) :
  NoDup (columns consolidated_df) ->
  (forall e,
     validate_consolidation consolidated_df source_manifest = Raise e
     <-> get_validation_summary consolidated_df source_manifest = Raise e)
  /\ (forall report s,
        validate_consolidation consolidated_df source_manifest = Ok report ->
        get_validation_summary consolidated_df source_manifest = Ok s ->
        exists rest,
          report
          = (rule "=" ++ newline
             ++ "🔍 RELATÓRIO DE VALIDAÇÃO DE INTEGRIDADE" ++ newline
             ++ rule "=" ++ newline
             ++ verdict_line (is_valid s) ++ newline ++ rest)%string).
Proof.
  intros _. unfold validate_consolidation, get_validation_summary. cbv zeta.
  destruct (correct_types consolidated_df) as [p|x].
  - destruct (count_tables p source_manifest) as [counted|x].
    + split; [intros e; split; discriminate|].
      intros report s [= <-] [= <-]. cbn [is_valid].
      rewrite <- nonempty_length.
      eexists. cbn [app String.concat]. unfold verdict_line. reflexivity.
    + split; [intros e; split; intros [= ->]; reflexivity|discriminate].
  - split; [intros e; split; intros [= ->]; reflexivity|discriminate].
Qed.

Lemma report_and_summary_agree_witness :
  let df := {| columns := [LStr COL_FILE; LStr COL_SHEET; LStr COL_INDEX];
               rows := [[CStr "a.xlsx"; CStr "S1"; CStr "1"]] |} in
  let m := [ {| file_name := "a.xlsx"; sheet_name := "S1";
                table_index := 1; row_count := 1 |} ] in
  (forall e,
     validate_consolidation df m = Raise e
     <-> get_validation_summary df m = Raise e)
  /\ (forall report s,
        validate_consolidation df m = Ok report ->
        get_validation_summary df m = Ok s ->
        exists rest,
          report
          = (rule "=" ++ newline
             ++ "🔍 RELATÓRIO DE VALIDAÇÃO DE INTEGRIDADE" ++ newline
             ++ rule "=" ++ newline
             ++ verdict_line (is_valid s) ++ newline ++ rest)%string).
Proof.
  apply (report_and_summary_agree
           {| columns := [LStr COL_FILE; LStr COL_SHEET; LStr COL_INDEX];
              rows := [[CStr "a.xlsx"; CStr "S1"; CStr "1"]] |}
           [ {| file_name := "a.xlsx"; sheet_name := "S1";
                table_index := 1; row_count := 1 |} ]).
  repeat constructor; simpl; intuition discriminate.
Defined.

(** ** What a valid summary guarantees *)

Lemma column_values_length (df : frame) (c : string) (col : list cell) :
  column_values df c = Some col -> length col = length (rows df).
Proof.
  unfold column_values. destruct (find_label _ _); [|discriminate].
  intros [= <-]. apply length_map.
Qed.

Lemma astype_int_length (col : list cell) (zs : list Z) :
  astype_int col = Ok zs -> length zs = length col.
Proof.
  revert zs. induction col as [|c col IH]; intros zs; simpl.
  - now intros [= <-].
  - destruct (int_of_cell c); [|discriminate].
    destruct (astype_int col) as [zs'|]; [|discriminate].
    intros [= <-]. simpl. now rewrite (IH zs' eq_refl).
Qed.

Lemma correct_types_lengths (df : frame) (p : provenance) :
  correct_types df = Ok p ->
  (forall l, prov_file p = Some l -> length l = length (rows df))
  /\ (forall l, prov_sheet p = Some l -> length l = length (rows df))
  /\ (forall l, prov_index p = Some l -> length l = length (rows df)).
Proof.
  unfold correct_types. cbv zeta.
  assert (Hs : forall c l,
             option_map (map str_of_cell) (column_values df c) = Some l ->
             length l = length (rows df)).
  { intros c l. destruct (column_values df c) as [col|] eqn:E; [|discriminate].
    intros [= <-]. rewrite length_map. now apply (column_values_length df c). }
  destruct (column_values df COL_INDEX) as [col|] eqn:Ei.
  - destruct (astype_int col) as [idxs|] eqn:Ea; [|discriminate].
    intros [= <-]. simpl. repeat split; try apply Hs.
    intros l [= <-]. rewrite (astype_int_length _ _ Ea).
    now apply (column_values_length df COL_INDEX).
  - intros [= <-]. simpl. repeat split; try apply Hs. discriminate.
Qed.

Lemma combine_projections {A B C : Type} (a : list A) (b : list B) (c : list C) :
  length a = length b -> length b = length c ->
  map (fun k => fst (fst k)) (combine (combine a b) c) = a
  /\ map (fun k => snd (fst k)) (combine (combine a b) c) = b
  /\ map snd (combine (combine a b) c) = c
  /\ length (combine (combine a b) c) = length a.
Proof.
  revert b c. induction a as [|x a IH]; intros [|y b] [|z c] H1 H2;
    simpl in *; try discriminate; auto.
  destruct (IH b c) as (E1 & E2 & E3 & E4); [lia|lia|].
  now rewrite E1, E2, E3, E4.
Qed.

Lemma count_tables_counts (p : provenance) (files sheets : list string)
  (idxs : list Z) (m : list manifest_entry) :
  prov_file p = Some files -> prov_sheet p = Some sheets ->
  prov_index p = Some idxs ->
  count_tables p m
  = Ok (map (fun e => (e, count_mask files sheets idxs e)) m).
Proof.
  intros Hf Hs Hi. induction m as [|e m IH]; simpl; [reflexivity|].
  unfold actual_rows. now rewrite Hf, Hs, Hi, IH.
Qed.

Lemma list_sum_add {A : Type} (f g : A -> nat) (l : list A) :
  list_sum (map (fun x => f x + g x) l)
  = list_sum (map f l) + list_sum (map g l).
Proof. induction l as [|x l IH]; simpl; [reflexivity|]. rewrite IH. lia. Qed.

(** Among entries of pairwise distinct provenance at most one matches
    a row. *)
Lemma matching_entries (m : list manifest_entry) (k : string * string * Z) :
  NoDup (map entry_key m) ->
  list_sum (map (fun e => if key_eqb e k then 1 else 0) m)
  = if existsb (fun e => key_eqb e k) m then 1 else 0.
Proof.
  induction m as [|e m IH]; intros Hnd; simpl; [reflexivity|].
  inversion Hnd as [|? ? Hn Hnd']; subst. rewrite (IH Hnd').
  destruct (key_eqb e k) eqn:He; [|reflexivity]. simpl.
  destruct (existsb (fun e0 => key_eqb e0 k) m) eqn:Hx; [|reflexivity].
  exfalso. apply existsb_exists in Hx as (e' & Hin & He').
  apply key_eqb_spec in He. apply key_eqb_spec in He'. apply Hn.
  rewrite <- He, He'. now apply in_map.
Qed.

Lemma matched_rows (m : list manifest_entry) (keys : list (string * string * Z)) :
  NoDup (map entry_key m) ->
  list_sum (map (fun e => length (filter (key_eqb e) keys)) m)
  = length (filter (fun k => existsb (fun e => key_eqb e k) m) keys).
Proof.
  intros Hnd. induction keys as [|k keys IH]; simpl.
  - induction m as [|e m IHm]; simpl; [reflexivity|].
    inversion Hnd; subst. auto.
  - transitivity (list_sum (map (fun e => (if key_eqb e k then 1 else 0)
                                          + length (filter (key_eqb e) keys)) m)).
    { f_equal. apply map_ext. intros e. now destruct (key_eqb e k). }
    rewrite list_sum_add, IH, (matching_entries m k Hnd).
    now destruct (existsb (fun e => key_eqb e k) m).
Qed.

Lemma sum_Z_of_nat {A : Type} (f : A -> nat) (l : list A) :
  sum_Z (map (fun x => Z.of_nat (f x)) l) = Z.of_nat (list_sum (map f l)).
Proof.
  induction l as [|x l IH]; simpl; [reflexivity|]. rewrite IH. lia.
Qed.

(** X22.  When the column labels of the frame are distinct, the
    summary says [is_valid] and the entries of the manifest have
    pairwise distinct provenance, the rows of the frame are accounted
    for one by one: every row carries the provenance of
    an entry of the manifest, and each entry has as many rows of its
    provenance as its [row_count] says. *)
Theorem valid_summary_accounts_for_rows
  (consolidated_df : frame) (source_manifest : list manifest_entry) (s : summary) :
  NoDup (columns consolidated_df) ->
  get_validation_summary consolidated_df source_manifest = Ok s ->
  is_valid s = true ->
  NoDup (map entry_key source_manifest) ->
  exists p,
    correct_types consolidated_df = Ok p
    /\ (source_manifest <> [] ->
        length (row_keys p) = length (rows consolidated_df))
    /\ (source_manifest = [] -> rows consolidated_df = [])
    /\ (forall k, In k (row_keys p) ->
          exists e, In e source_manifest /\ k = entry_key e)
    /\ (forall e, In e source_manifest ->
          row_count e = Z.of_nat (length (filter (key_eqb e) (row_keys p)))).
Proof.
  intros _. unfold get_validation_summary. cbv zeta.
  destruct (correct_types consolidated_df) as [p|] eqn:Hp; [|discriminate].
  destruct (count_tables p source_manifest) as [counted|] eqn:Hc; [|discriminate].
  intros [= <-]. cbn [is_valid]. intros Hv Hnd.
  apply andb_prop in Hv as [Htot Herr].
  apply Z.eqb_eq in Htot. apply Nat.eqb_eq in Herr.
  exists p. split; [reflexivity|].
  destruct source_manifest as [|e0 m].
  { simpl in Htot. split; [congruence|]. split.
    - intros _. destruct (rows consolidated_df); [reflexivity|simpl in Htot; lia].
    - assert (Hk : row_keys p = []).
      { destruct (correct_types_lengths _ _ Hp) as (Lf & Ls & Li).
        assert (H0 : length (rows consolidated_df) = 0) by lia.
        unfold row_keys.
        destruct (prov_file p) as [fs|]; [|reflexivity].
        destruct (prov_sheet p) as [ss|]; [|reflexivity].
        destruct (prov_index p) as [ix|]; [|reflexivity].
        specialize (Lf fs eq_refl). rewrite H0 in Lf.
        destruct fs; [reflexivity|discriminate]. }
      rewrite Hk. split; [intros k []|intros e []]. }
  set (M := e0 :: m) in *.
  assert (Hsome : exists files sheets idxs,
             prov_file p = Some files /\ prov_sheet p = Some sheets
             /\ prov_index p = Some idxs).
  { simpl in Hc. unfold actual_rows in Hc.
    destruct (prov_file p) as [fs|]; [|discriminate].
    destruct (prov_sheet p) as [ss|]; [|discriminate].
    destruct (prov_index p) as [ix|]; [|discriminate].
    exists fs, ss, ix. auto. }
  destruct Hsome as (files & sheets & idxs & Hf & Hs & Hi).
  destruct (correct_types_lengths _ _ Hp) as (Lf & Ls & Li).
  specialize (Lf files Hf). specialize (Ls sheets Hs). specialize (Li idxs Hi).
  destruct (combine_projections files sheets idxs) as (E1 & E2 & E3 & E4);
    [lia|lia|].
  assert (Hkeys : row_keys p = combine (combine files sheets) idxs).
  { unfold row_keys. now rewrite Hf, Hs, Hi. }
  set (keys := combine (combine files sheets) idxs) in *.
  assert (Hcount : forall e, count_mask files sheets idxs e
                             = Z.of_nat (length (filter (key_eqb e) keys))).
  { intros e. rewrite <- (count_mask_keys keys e). now rewrite E1, E2, E3. }
  rewrite (count_tables_counts p files sheets idxs M Hf Hs Hi) in Hc.
  injection Hc as <-.
  assert (Hexact : forall e, In e M ->
             row_count e = Z.of_nat (length (filter (key_eqb e) keys))).
  { intros e He. rewrite <- Hcount.
    destruct (Z.eqb_spec (row_count e) (count_mask files sheets idxs e))
      as [|Hne]; [assumption|].
    exfalso.
    assert (Hin : In (e, count_mask files sheets idxs e)
                     (filter mismatch
                        (map (fun e => (e, count_mask files sheets idxs e)) M))).
    { apply filter_In. split.
      - apply in_map_iff. eauto.
      - unfold mismatch. simpl. apply negb_true_iff. now apply Z.eqb_neq. }
    destruct (filter mismatch _); [contradiction|discriminate]. }
  split; [intros _; rewrite Hkeys; lia|]. split; [discriminate|].
  rewrite Hkeys. split; [|exact Hexact].
  assert (Hall : forallb (fun k => existsb (fun e => key_eqb e k) M) keys = true).
  { apply filter_length_forallb. rewrite <- (matched_rows M keys Hnd).
    apply Nat2Z.inj. rewrite <- sum_Z_of_nat.
    rewrite E4, Lf, <- Htot. f_equal.
    rewrite <- (map_map row_count (fun z => z)), map_id.
    apply map_ext_in. intros e He. symmetry. now apply Hexact. }
  rewrite forallb_forall in Hall. intros k Hk.
  specialize (Hall k Hk). apply existsb_exists in Hall as (e & He & Hek).
  exists e. split; [exact He|]. now apply key_eqb_spec.
Qed.

Lemma valid_summary_accounts_for_rows_witness :
  let df := {| columns := [LStr COL_FILE; LStr COL_SHEET; LStr COL_INDEX; LStr "Nome"];
               rows := [ [CStr "a.xlsx"; CStr "S1"; CStr "1"; CStr "Ana"];
                         [CStr "a.xlsx"; CStr "S1"; CStr "2"; CStr "Bia"];
                         [CStr "a.xlsx"; CStr "S1"; CStr "2"; CStr "Caio"] ] |} in
  let m := [ {| file_name := "a.xlsx"; sheet_name := "S1";
                table_index := 1; row_count := 1 |};
             {| file_name := "a.xlsx"; sheet_name := "S1";
                table_index := 2; row_count := 2 |} ] in
  exists p,
    correct_types df = Ok p
    /\ (m <> [] -> length (row_keys p) = length (rows df))
    /\ (m = [] -> rows df = [])
    /\ (forall k, In k (row_keys p) -> exists e, In e m /\ k = entry_key e)
    /\ (forall e, In e m ->
          row_count e = Z.of_nat (length (filter (key_eqb e) (row_keys p)))).
Proof.
  refine (valid_summary_accounts_for_rows _ _ _ _ _ _ _).
  - repeat constructor; simpl; intuition discriminate.
  - reflexivity.
  - reflexivity.
  - repeat constructor; simpl; intuition discriminate.
Defined.

(** ** When the validator returns *)

Lemma astype_int_not_key_error (col : list cell) :
  astype_int col <> Raise KeyError.
Proof.
  induction col as [|c col IH]; simpl; [discriminate|].
  destruct c as [| |s|z]; simpl; try discriminate.
  - destruct (int_of_string s); [|discriminate].
    destruct (astype_int col) as [zs|e]; [discriminate|]. congruence.
  - destruct (astype_int col) as [zs|e]; [discriminate|]. congruence.
Qed.

Lemma count_tables_returns (p : provenance) (m : list manifest_entry) :
  (exists counted, count_tables p m = Ok counted)
  \/ (count_tables p m = Raise KeyError /\ m <> []
      /\ (prov_file p = None \/ prov_sheet p = None \/ prov_index p = None)).
Proof.
  destruct (prov_file p) as [fs|] eqn:Hf;
    [destruct (prov_sheet p) as [ss|] eqn:Hs;
     [destruct (prov_index p) as [ix|] eqn:Hi|]|].
  - left. rewrite (count_tables_counts p fs ss ix m Hf Hs Hi). eauto.
  - destruct m as [|e m]; [left; simpl; eauto|right].
    simpl. unfold actual_rows. rewrite Hf, Hs, Hi.
    split; [reflexivity|]. split; [discriminate|auto].
  - destruct m as [|e m]; [left; simpl; eauto|right].
    simpl. unfold actual_rows. rewrite Hf, Hs.
    split; [reflexivity|]. split; [discriminate|auto].
  - destruct m as [|e m]; [left; simpl; eauto|right].
    simpl. unfold actual_rows. rewrite Hf.
    split; [reflexivity|]. split; [discriminate|auto].
Qed.

Lemma count_tables_complete (p : provenance) (m : list manifest_entry)
  (counted : list (manifest_entry * Z)) :
  count_tables p m = Ok counted ->
  m = [] \/ (prov_file p <> None /\ prov_sheet p <> None /\ prov_index p <> None).
Proof.
  intros H. destruct m as [|e m]; [now left|right].
  simpl in H. unfold actual_rows in H.
  destruct (prov_file p); [|discriminate].
  destruct (prov_sheet p); [|discriminate].
  destruct (prov_index p); [|discriminate].
  repeat split; discriminate.
Qed.

Lemma option_map_none {A B : Type} (f : A -> B) (o : option A) :
  option_map f o = None <-> o = None.
Proof. destruct o; simpl; split; congruence. Qed.

(** X24.  On a frame whose column labels are distinct, the validator
    returns exactly when the table index column,
    if the frame has one, converts to integers, and the manifest is
    empty or the frame has the three provenance columns.  It raises
    [KeyError] exactly when the index column converts (or is absent),
    the manifest is not empty and one of the three provenance columns
    is absent.  So with an empty manifest no column is required, and
    with an entry in the manifest all three are. *)
Theorem validator_returns_iff
  (consolidated_df : frame) (source_manifest : list manifest_entry) :
  NoDup (columns consolidated_df) ->
  let index_converts :=
    forall col, column_values consolidated_df COL_INDEX = Some col ->
                exists idxs, astype_int col = Ok idxs in
  let column_absent :=
    column_values consolidated_df COL_FILE = None
    \/ column_values consolidated_df COL_SHEET = None
    \/ column_values consolidated_df COL_INDEX = None in
  ((exists s, get_validation_summary consolidated_df source_manifest = Ok s)
   <-> index_converts /\ (source_manifest = [] \/ ~ column_absent))
  /\ (get_validation_summary consolidated_df source_manifest = Raise KeyError
      <-> index_converts /\ source_manifest <> [] /\ column_absent)
  /\ ((exists report,
         validate_consolidation consolidated_df source_manifest = Ok report)
      <-> exists s, get_validation_summary consolidated_df source_manifest = Ok s).
Proof.
  intros _. cbv zeta.
  assert (Hct : forall p, correct_types consolidated_df = Ok p ->
            (forall col, column_values consolidated_df COL_INDEX = Some col ->
                         exists idxs, astype_int col = Ok idxs)
            /\ (prov_file p = None <-> column_values consolidated_df COL_FILE = None)
            /\ (prov_sheet p = None <-> column_values consolidated_df COL_SHEET = None)
            /\ (prov_index p = None <-> column_values consolidated_df COL_INDEX = None)).
  { intros p. unfold correct_types. cbv zeta.
    destruct (column_values consolidated_df COL_INDEX) as [col|] eqn:Ei.
    - destruct (astype_int col) as [idxs|] eqn:Ea; [|discriminate].
      intros [= <-]. simpl. split; [intros c [= <-]; eauto|].
      rewrite !option_map_none. repeat split; congruence.
    - intros [= <-]. simpl. split; [discriminate|].
      rewrite !option_map_none. repeat split; congruence. }
  assert (Hraise : forall e, correct_types consolidated_df = Raise e ->
            e <> KeyError
            /\ exists col, column_values consolidated_df COL_INDEX = Some col
                           /\ astype_int col = Raise e).
  { intros e. unfold correct_types. cbv zeta.
    destruct (column_values consolidated_df COL_INDEX) as [col|] eqn:Ei;
      [|discriminate].
    destruct (astype_int col) as [idxs|x] eqn:Ea; [discriminate|].
    intros [= <-]. split; [|eauto].
    intros ->. now apply (astype_int_not_key_error col). }
  split; [|split].
  - unfold get_validation_summary. cbv zeta.
    destruct (correct_types consolidated_df) as [p|e] eqn:Hp.
    + destruct (Hct p eq_refl) as (Hi & Hf & Hs & Hx).
      destruct (count_tables p source_manifest) as [counted|e] eqn:Hc.
      * split; [intros _|eauto]. split; [exact Hi|].
        destruct (count_tables_complete _ _ _ Hc) as [->|(Nf & Ns & Nx)];
          [now left|right].
        intros [H|[H|H]]; [apply Nf, Hf|apply Ns, Hs|apply Nx, Hx]; exact H.
      * split; [intros [s Hs']; discriminate|].
        intros [_ [Hm|Hn]]; exfalso.
        -- subst. simpl in Hc. discriminate.
        -- destruct (count_tables_returns p source_manifest)
             as [[c Hc']|(_ & _ & Hab)]; [congruence|].
           apply Hn. destruct Hab as [H|[H|H]];
             [left; now apply Hf|right; left; now apply Hs
              |right; right; now apply Hx].
    + split; [intros [s Hs']; discriminate|].
      intros [Hi _]. exfalso.
      destruct (Hraise e eq_refl) as (_ & col & Hcol & Hr).
      destruct (Hi col Hcol) as [idxs Ho]. congruence.
  - unfold get_validation_summary. cbv zeta.
    destruct (correct_types consolidated_df) as [p|e] eqn:Hp.
    + destruct (Hct p eq_refl) as (Hi & Hf & Hs & Hx).
      destruct (count_tables_returns p source_manifest)
        as [[c Hc]|(Hc & Hne & Hab)]; rewrite Hc.
      * split; [discriminate|]. intros (_ & Hne & Hab). exfalso.
        destruct (count_tables_complete _ _ _ Hc) as [->|(Nf & Ns & Nx)];
          [congruence|].
        destruct Hab as [H|[H|H]];
          [apply Nf, Hf|apply Ns, Hs|apply Nx, Hx]; exact H.
      * split; [intros _|reflexivity]. split; [exact Hi|]. split; [exact Hne|].
        destruct Hab as [H|[H|H]];
          [left; now apply Hf|right; left; now apply Hs
           |right; right; now apply Hx].
    + destruct (Hraise e eq_refl) as (Hne & col & Hcol & Hr).
      split; [intros [= ->]; congruence|].
      intros (Hi & _). exfalso. destruct (Hi col Hcol) as [idxs Ho]. congruence.
  - unfold validate_consolidation, get_validation_summary. cbv zeta.
    destruct (correct_types consolidated_df) as [p|e];
      [|split; intros [x Hx]; discriminate].
    destruct (count_tables p source_manifest) as [counted|e];
      [split; intros _; eauto|split; intros [x Hx]; discriminate].
Qed.

Lemma validator_returns_iff_witness :
  let df := {| columns := [LStr COL_FILE; LStr COL_SHEET; LStr "Nome"];
               rows := [[CStr "a.xlsx"; CStr "S1"; CStr "Ana"]] |} in
  let m := [ {| file_name := "a.xlsx"; sheet_name := "S1";
                table_index := 1; row_count := 1 |} ] in
  get_validation_summary df m = Raise KeyError
  /\ (exists s, get_validation_summary df [] = Ok s)
  /\ ((exists s, get_validation_summary df m = Ok s)
      <-> (forall col, column_values df COL_INDEX = Some col ->
                       exists idxs, astype_int col = Ok idxs)
          /\ (m = [] \/ ~ (column_values df COL_FILE = None
                           \/ column_values df COL_SHEET = None
                           \/ column_values df COL_INDEX = None)))
  /\ (get_validation_summary df m = Raise KeyError
      <-> (forall col, column_values df COL_INDEX = Some col ->
                       exists idxs, astype_int col = Ok idxs)
          /\ m <> []
          /\ (column_values df COL_FILE = None
              \/ column_values df COL_SHEET = None
              \/ column_values df COL_INDEX = None))
  /\ ((exists report, validate_consolidation df m = Ok report)
      <-> exists s, get_validation_summary df m = Ok s).
Proof.
  split; [reflexivity|]. split; [eexists; reflexivity|].
  apply (validator_returns_iff
           {| columns := [LStr COL_FILE; LStr COL_SHEET; LStr "Nome"];
              rows := [[CStr "a.xlsx"; CStr "S1"; CStr "Ana"]] |}
           [ {| file_name := "a.xlsx"; sheet_name := "S1";
                table_index := 1; row_count := 1 |} ]).
  repeat constructor; simpl; intuition discriminate.
Defined.

(* ================================================================= *)
(** * The application *)

Lemma frames_of_frames (dataframes : list frame) :
  frames_of (map PyFrame dataframes) = Some dataframes.
Proof.
  induction dataframes as [|df dfs IH]; simpl; [reflexivity|]. now rewrite IH.
Qed.

Lemma frames_of_other (before : list frame) (v : pyvalue) (after : list pyvalue) :
  (forall df, v <> PyFrame df) ->
  frames_of (map PyFrame before ++ v :: after) = None.
Proof.
  intros Hv. induction before as [|df dfs IH]; simpl.
  - destruct v as [df| |]; [now elim (Hv df)|reflexivity|reflexivity].
  - now rewrite IH.
Qed.

Lemma app_consolidation_generator
  (set_iteration : list string -> list string)
  (store_accepts : list string -> bool)
  (tables : list frame) (after : list pyvalue) :
  consolidate_items set_iteration store_accepts (PyGenerator tables :: after)
  = inr AttributeError.
Proof. reflexivity. Qed.

(** X23.  On data frames [consolidate_data] behaves as described for
    them, and an item that is not a data frame makes it raise
    [AttributeError] before any column is planned.  The handler of the
    button of [app.py] passes the pair (generator, manifest) returned
    by [parse_excel_files] where the tables are expected: the call
    raises for every list of uploaded files, and no result is ever
    kept. *)
Theorem app_consolidation_never_completes
  (set_iteration : list string -> list string)
  (store_accepts : list string -> bool) :
  (forall dataframes,
     consolidate_items set_iteration store_accepts (map PyFrame dataframes)
     = match consolidate_data set_iteration store_accepts dataframes with
       | Ok r => inl r
       | Raise e => inr (Propagated e)
       end)
  /\ (forall before v after,
        (forall df, v <> PyFrame df) ->
        consolidate_items set_iteration store_accepts
          (map PyFrame before ++ v :: after)
        = inr AttributeError)
  /\ (forall uploaded_files,
        press_consolidate set_iteration store_accepts uploaded_files = None).
Proof.
  split; [|split].
  - intros dfs. unfold consolidate_items. now rewrite frames_of_frames.
  - intros before v after Hv. unfold consolidate_items.
    now rewrite (frames_of_other before v after Hv).
  - intros files. unfold press_consolidate. cbv zeta.
    now rewrite (app_consolidation_generator set_iteration store_accepts).
Qed.
